(** * yann: utilities, meters, the checkpoint callback and the supervised trainer

    A shallow embedding of the parts of [yann/utils/__init__.py],
    [yann/metrics.py], [yann/callbacks/checkpoint.py] and
    [yann/train/supervised.py] whose behaviour is specified, followed by the
    theorems about them.

    Conventions.
    - Python integers are [Z].
    - Python exceptions are values of [exn]; a call that may raise returns a
      [result].
    - A generator is its suspended state together with a [next] function: one
      call of [next] runs the body up to the following [yield] ([Some]) or to
      its end ([None], Python's StopIteration).
    - Python floats and numpy's float64 are IEEE 754 doubles ([Float.t]): a
      finite double is carried as the rational it denotes, and every
      operation rounds its exact result to the nearest double, ties to even.
      The numbers that a meter takes are Python's [int] and [float]
      ([Number.t]); the arrays of [moving_average] are numpy's int64 and
      float64 arrays ([np.ndarray]).
    - In [exp_moving_avg] and in the keys of a [RangeMap], scalars that the
      code only adds, multiplies, divides and compares are exact rationals
      ([Qc]). *)

From Stdlib Require Import ZArith List Bool Lia String Ascii QArith Qcanon.
From Stdlib Require Import DecimalString.
From stdpp Require Import base option list gmap strings.

Local Open Scope Z_scope.

(** ** Python basics *)

Inductive exn : Type :=
| TypeError
| ValueError
| KeyError
| ZeroDivisionError
| OverflowError
| AttributeError
| KeyboardInterrupt.

Inductive result (A : Type) : Type :=
| Ok (a : A)
| Raise (e : exn).
Arguments Ok {A} a.
Arguments Raise {A} e.

Definition bind_result {A B} (r : result A) (k : A -> result B) : result B :=
  match r with
  | Ok a => k a
  | Raise e => Raise e
  end.

Notation "x <-! r ; k" := (bind_result r (fun x => k))
  (at level 100, r at next level, right associativity).

(** Draining a generator: the first [n] values it yields, and whether it
    finished (raised StopIteration) while producing them. *)
Fixpoint take_gen {S A : Type} (next : S -> option (A * S)) (n : nat) (s : S)
  : list A * bool :=
  match n with
  | O => ([], false)
  | Datatypes.S n' =>
      match next s with
      | None => ([], true)
      | Some (a, s') =>
          let '(l, fin) := take_gen next n' s' in (a :: l, fin)
      end
  end.

(** ** yann/utils/__init__.py *)

Module Utils.

(** [counter(start=0, end=None, step=1)]: the generator's frame. *)
Record counter_gen : Type := {
  current : Z;
  end_ : option Z;
  step : Z
}.

Definition counter (start : Z) (end_ : option Z) (step : Z) : counter_gen :=
  {| current := start; end_ := end_; step := step |}.

(** The loop test [end is None or (end and (current < end))]: an integer
    [end] is first tested for truth, so [end = 0] is falsy. *)
Definition counter_test (g : counter_gen) : bool :=
  match end_ g with
  | None => true
  | Some e => if e =? 0 then false else current g <? e
  end.

(** [while test: yield current; current += step] *)
Definition counter_next (g : counter_gen) : option (Z * counter_gen) :=
  if counter_test g
  then Some (current g,
             {| current := current g + step g; end_ := end_ g; step := step g |})
  else None.

(** *** RangeMap

    A key is [None], a number, or a tuple of such; an interval is the
    two-element tuple [(min, max)], either bound possibly [None]. *)
Inductive atom : Type :=
| ANone
| ANum (x : Qc).

Inductive key : Type :=
| KAtom (a : atom)
| KTuple (t : list atom).

#[export] Instance atom_eq_dec : EqDecision atom.
Proof. solve_decision. Defined.
#[export] Instance key_eq_dec : EqDecision key.
Proof. solve_decision. Defined.

Definition Qcltb (x y : Qc) : bool :=
  match (x ?= y)%Qc with Lt => true | _ => false end.

Section RangeMap.
Context {V : Type}.

(** The underlying [dict]: its items in insertion order, keys distinct. *)
Definition dict : Type := list (key * V).

(** [dict.__getitem__] *)
Fixpoint dict_getitem (d : dict) (k : key) : result V :=
  match d with
  | [] => Raise KeyError
  | (k', v) :: d' => if decide (k' = k) then Ok v else dict_getitem d' k
  end.

(** [dict.__setitem__]: an existing key keeps its position. *)
Fixpoint dict_setitem (d : dict) (k : key) (v : V) : dict :=
  match d with
  | [] => [(k, v)]
  | (k', v') :: d' =>
      if decide (k' = k) then (k', v) :: d'
      else (k', v') :: dict_setitem d' k v
  end.

(** [RangeMap.__init__]: [for k, v in items: self[k] = v] *)
Definition RangeMap (items : list (key * V)) : dict :=
  fold_left (fun d kv => dict_setitem d (fst kv) (snd kv)) items [].

(** The target [(min, max)] of the [for] loop unpacks the key. *)
Definition unpack_pair (k : key) : result (atom * atom) :=
  match k with
  | KTuple [mn; mx] => Ok (mn, mx)
  | KTuple _ => Raise ValueError
  | KAtom _ => Raise TypeError
  end.

(** [min is not None and item < min] *)
Definition below (mn : atom) (item : Qc) : bool :=
  match mn with
  | ANone => false
  | ANum m => Qcltb item m
  end.

(** [max is not None and item > max] *)
Definition above (mx : atom) (item : Qc) : bool :=
  match mx with
  | ANone => false
  | ANum m => Qcltb m item
  end.

(** The [for] loop of [__getitem__] over [self.items()]. *)
Fixpoint scan (d : dict) (item : Qc) : result V :=
  match d with
  | [] => Raise KeyError
  | (k, value) :: d' =>
      match unpack_pair k with
      | Raise e => Raise e
      | Ok (mn, mx) =>
          if below mn item then scan d' item
          else if above mx item then scan d' item
          else Ok value
      end
  end.

Definition __getitem__ (self : dict) (item : key) : result V :=
  match item with
  | KTuple _ => dict_getitem self item
  | KAtom ANone => Raise KeyError
  | KAtom (ANum x) => scan self x
  end.

(** [__call__] *)
Definition __call__ (self : dict) (item : key) : result V :=
  __getitem__ self item.

End RangeMap.

(** *** pretty_size

    [bytes] is a Python [int]. The first test and the first division see the
    integer; after [num /= 1024.0] the value is a float. Converting an
    integer to a float rounds to 53 significant bits, ties to even, and
    raises OverflowError beyond the largest finite double; dividing a double
    that is at least 1 by 1024 is exact, so floats are carried as the
    rationals they denote. *)

Definition round_half_even (n d : Z) : Z :=
  let q := n / d in
  let r := n mod d in
  if 2 * r <? d then q
  else if d <? 2 * r then q + 1
  else if Z.even q then q else q + 1.

Definition float_of_int (n : Z) : result Q :=
  let a := Z.abs n in
  if a <? 2 ^ 53 then Ok (inject_Z n)
  else
    let e := Z.log2 a - 52 in
    let m := round_half_even a (2 ^ e) * 2 ^ e in
    if 2 ^ 1024 <=? m then Raise OverflowError
    else Ok (inject_Z (Z.sgn n * m)).

Inductive number : Type :=
| NInt (z : Z)
| NFloat (q : Q).

Definition to_float (x : number) : result Q :=
  match x with
  | NInt z => float_of_int z
  | NFloat q => Ok q
  end.

(** [num < 1024.0]; comparing an [int] with a [float] is exact. *)
Definition lt_1024 (x : number) : bool :=
  match x with
  | NInt z => z <? 1024
  | NFloat q => negb (Qle_bool (inject_Z 1024) q)
  end.

Definition show_nat (z : Z) : string :=
  NilZero.string_of_uint (N.to_uint (Z.to_N z)).

(** The format [.1f] of a float: the nearest multiple of one tenth, ties to
    even, printed with its sign; the minimum width 3 never pads. *)
Definition format_1f (q : Q) : string :=
  let tenths := round_half_even (10 * Z.abs (Qnum q)) (Zpos (Qden q)) in
  let sign := if Qnum q <? 0 then "-"%string else ""%string in
  (sign ++ show_nat (tenths / 10) ++ "." ++ show_nat (tenths mod 10))%string.

Definition units : list string := ["bytes"; "KB"; "MB"; "GB"; "TB"]%string.

(** The [for unit in ...] loop; falling off its end returns [None]. *)
Fixpoint pretty_size_loop (num : number) (us : list string)
  : result (option string) :=
  match us with
  | [] => Ok None
  | unit :: us' =>
      if lt_1024 num then
        f <-! to_float num;
        Ok (Some (format_1f f ++ " " ++ unit)%string)
      else
        f <-! to_float num;
        pretty_size_loop (NFloat (f / inject_Z 1024)%Q) us'
  end.

Definition pretty_size (bytes : Z) : result (option string) :=
  pretty_size_loop (NInt bytes) units.

End Utils.

(** ** Floating point

    An IEEE 754 double: a finite value is carried as the rational it
    denotes, beside the two infinities and NaN. The sign of zero is not
    kept: [Fin 0] stands for both zeros. *)

Module Float.

Inductive t : Type :=
| Fin (q : Qc)
| PInf
| NInf
| NaN.

Definition of_Z (z : Z) : Qc := Q2Qc (inject_Z z).

(** [floor (log2 (n / d))], for [n] and [d] above zero *)
Definition ilog2 (n d : Z) : Z :=
  let e := Z.log2 n - Z.log2 d in
  if (if 0 <=? e then d * 2 ^ e <=? n else d <=? n * 2 ^ (- e))
  then e else e - 1.

(** The exponent of the unit in the last place of the doubles next to
    [n / d]: 53 significant bits, and [2 ^ -1074] for the subnormal ones. *)
Definition ulp_exp (n d : Z) : Z := Z.max (ilog2 n d - 52) (- 1074).

(** [n / d] counted in units of [2 ^ p], to the nearest integer, ties to
    even *)
Definition scaled (n d p : Z) : Z :=
  if 0 <=? p then Utils.round_half_even n (d * 2 ^ p)
  else Utils.round_half_even (n * 2 ^ (- p)) d.

(** [m * 2 ^ p] *)
Definition pow2 (m p : Z) : Qc :=
  if 0 <=? p then of_Z (m * 2 ^ p)
  else Q2Qc (Qmake m (Z.to_pos (2 ^ (- p)))).

(** The double nearest to a rational, ties to even; a result of [2 ^ 1024]
    or more is an infinity. *)
Definition round (q : Qc) : t :=
  let n := Qnum q in
  let d := Zpos (Qden q) in
  if n =? 0 then Fin 0
  else
    let p := ulp_exp (Z.abs n) d in
    let m := scaled (Z.abs n) d p in
    if 2 ^ 1024 <=? m * 2 ^ p then (if n <? 0 then NInf else PInf)
    else Fin (pow2 (Z.sgn n * m) p).

Definition neg (x : t) : t :=
  match x with
  | Fin q => Fin (- q)
  | PInf => NInf
  | NInf => PInf
  | NaN => NaN
  end.

Definition add (x y : t) : t :=
  match x, y with
  | NaN, _ | _, NaN => NaN
  | PInf, NInf | NInf, PInf => NaN
  | PInf, _ | _, PInf => PInf
  | NInf, _ | _, NInf => NInf
  | Fin a, Fin b => round (a + b)
  end.

Definition sub (x y : t) : t := add x (neg y).

(** Division as the hardware does it, a division by zero included; the
    zero divisor is [+0.0]. *)
Definition div (x y : t) : t :=
  match x, y with
  | NaN, _ | _, NaN => NaN
  | Fin a, Fin b =>
      if Qnum b =? 0 then
        match Qnum a with
        | 0 => NaN
        | Zpos _ => PInf
        | Zneg _ => NInf
        end
      else round (a / b)
  | Fin _, _ => Fin 0
  | PInf, Fin b => if Qnum b <? 0 then NInf else PInf
  | NInf, Fin b => if Qnum b <? 0 then PInf else NInf
  | _, _ => NaN
  end.

(** [x < y]; every comparison with NaN is false. *)
Definition ltb (x y : t) : bool :=
  match x, y with
  | NaN, _ | _, NaN => false
  | Fin a, Fin b => Utils.Qcltb a b
  | _, NInf => false
  | NInf, _ => true
  | PInf, _ => false
  | _, PInf => true
  end.

Definition is_zero (x : t) : bool :=
  match x with
  | Fin q => Qnum q =? 0
  | _ => false
  end.

End Float.

(** ** Python numbers: [int] and [float] *)

Module Number.

Inductive t : Type :=
| PyInt (z : Z)
| PyFloat (f : Float.t).

(** The value of a number, without rounding. *)
Definition exact (x : t) : Float.t :=
  match x with
  | PyInt z => Float.Fin (Float.of_Z z)
  | PyFloat f => f
  end.

(** [float(x)]: an [int] is rounded to the nearest double and raises
    OverflowError beyond the largest one. *)
Definition to_float (x : t) : result Float.t :=
  match x with
  | PyInt z => q <-! Utils.float_of_int z; Ok (Float.Fin (Q2Qc q))
  | PyFloat f => Ok f
  end.

(** [x + y]: exact on two [int]s; otherwise both are converted to [float]
    and added there. *)
Definition add (x y : t) : result t :=
  match x, y with
  | PyInt a, PyInt b => Ok (PyInt (a + b))
  | _, _ =>
      a <-! to_float x;
      b <-! to_float y;
      Ok (PyFloat (Float.add a b))
  end.

(** [x / y]: on two [int]s the exact quotient is rounded once, and
    OverflowError is raised when it is beyond the largest double; otherwise
    both are converted to [float]. Dividing by zero raises
    ZeroDivisionError. *)
Definition truediv (x y : t) : result t :=
  match x, y with
  | PyInt a, PyInt b =>
      if b =? 0 then Raise ZeroDivisionError
      else match Float.round (Float.of_Z a / Float.of_Z b)%Qc with
           | Float.Fin q => Ok (PyFloat (Float.Fin q))
           | _ => Raise OverflowError
           end
  | _, _ =>
      a <-! to_float x;
      b <-! to_float y;
      if Float.is_zero b then Raise ZeroDivisionError
      else Ok (PyFloat (Float.div a b))
  end.

(** [x < y] and [x > y]; an [int] and a [float] are compared by their exact
    values. *)
Definition lt (x y : t) : bool := Float.ltb (exact x) (exact y).
Definition gt (x y : t) : bool := Float.ltb (exact y) (exact x).

(** [sum(items)]: from the [int] 0, adding the items from left to right
    (the summation of CPython up to 3.11). *)
Fixpoint sum_from (acc : t) (items : list t) : result t :=
  match items with
  | [] => Ok acc
  | x :: items' => s <-! add acc x; sum_from s items'
  end.

Definition sum (items : list t) : result t := sum_from (PyInt 0) items.

End Number.

(** ** numpy: one-dimensional arrays of dtype int64 and float64

    The elements of an int64 array are integers from [- 2^63] to
    [2^63 - 1]. *)

Module np.

Inductive ndarray : Type :=
| int64 (a : list Z)
| float64 (a : list Float.t).

Definition size (a : ndarray) : nat :=
  match a with
  | int64 a => length a
  | float64 a => length a
  end.

(** int64 arithmetic wraps around. *)
Definition wrap (z : Z) : Z := (z + 2 ^ 63) mod 2 ^ 64 - 2 ^ 63.

(** [np.insert(a, 0, 0)] *)
Definition insert0 (a : ndarray) : ndarray :=
  match a with
  | int64 a => int64 (0 :: a)
  | float64 a => float64 (Float.Fin 0 :: a)
  end.

(** [np.add.accumulate]: each entry is the entry before it plus the
    element. *)
Fixpoint accumulate {A} (f : A -> A -> A) (acc : A) (l : list A) : list A :=
  match l with
  | [] => []
  | x :: l' => f acc x :: accumulate f (f acc x) l'
  end.

(** [np.cumsum] *)
Definition cumsum (a : ndarray) : ndarray :=
  match a with
  | int64 [] => int64 []
  | int64 (x :: l) => int64 (x :: accumulate (fun a b => wrap (a + b)) x l)
  | float64 [] => float64 []
  | float64 (x :: l) => float64 (x :: accumulate Float.add x l)
  end.

(** A slice bound: negative indices count from the end, and the result is
    clipped to the array. *)
Definition slice_index {A} (l : list A) (i : Z) : nat :=
  let n := Z.of_nat (length l) in
  Z.to_nat (if i <? 0 then Z.max 0 (n + i) else Z.min i n).

(** [a[i:]] and [a[:j]] *)
Definition slice_from (a : ndarray) (i : Z) : ndarray :=
  match a with
  | int64 a => int64 (drop (slice_index a i) a)
  | float64 a => float64 (drop (slice_index a i) a)
  end.

Definition slice_to (a : ndarray) (j : Z) : ndarray :=
  match a with
  | int64 a => int64 (take (slice_index a j) a)
  | float64 a => float64 (take (slice_index a j) a)
  end.

(** Broadcasting of two one-dimensional operands: equal lengths, or one
    operand of length 1. *)
Definition broadcast {A B} (f : A -> A -> B) (a b : list A)
  : result (list B) :=
  if decide (length a = length b) then Ok (zip_with f a b)
  else match a, b with
       | [x], _ => Ok (map (f x) b)
       | _, [y] => Ok (map (fun x => f x y) a)
       | _, _ => Raise ValueError
       end.

(** The cast of an array to float64: an int64 is rounded to the nearest
    double. *)
Definition as_float64 (a : ndarray) : list Float.t :=
  match a with
  | int64 a => map (fun z => Float.round (Float.of_Z z)) a
  | float64 a => a
  end.

(** [a - b] *)
Definition subtract (a b : ndarray) : result ndarray :=
  match a, b with
  | int64 a, int64 b =>
      r <-! broadcast (fun x y => wrap (x - y)) a b; Ok (int64 r)
  | _, _ =>
      r <-! broadcast Float.sub (as_float64 a) (as_float64 b);
      Ok (float64 r)
  end.

(** [a / y] for a Python [float] [y]: the result is a float64 array, and
    dividing by zero gives an infinity or NaN, not an exception. *)
Definition true_divide (a : ndarray) (y : Float.t) : ndarray :=
  float64 (map (fun x => Float.div x y) (as_float64 a)).

End np.

(** ** yann/metrics.py *)

Module Metrics.

Local Open Scope Qc_scope.

(** An integer used as a scalar *)
Definition of_int (z : Z) : Qc := Q2Qc (inject_Z z).

(** True division [x / y] *)
Definition truediv (x y : Qc) : result Qc :=
  if decide (y = 0) then Raise ZeroDivisionError else Ok (x / y).

(** [x ** n] for an integer exponent *)
Definition power (x : Qc) (n : Z) : result Qc :=
  if (n <? 0)%Z then
    if decide (x = 0) then Raise ZeroDivisionError
    else Ok (/ (x ^ Z.to_nat (- n)))
  else Ok (x ^ Z.to_nat n).

Module Meter.

Record t : Type := {
  max : option Number.t;
  min : option Number.t;
  sum : Number.t;
  count : Z
}.

Definition reset (self : t) : t :=
  {| max := None; min := None; sum := Number.PyInt 0; count := 0%Z |}.

(** [__init__] only calls [reset]. *)
Definition __init__ : t :=
  {| max := None; min := None; sum := Number.PyInt 0; count := 0%Z |}.

(** [update] returns the meter as it leaves it: when [self.sum += val]
    raises, [max] and [min] have been updated already. *)
Definition update (self : t) (val : Number.t) : t * result unit :=
  let max' :=
    match max self with
    | None => Some val
    | Some m => if Number.gt val m then Some val else Some m
    end in
  let min' :=
    match min self with
    | None => Some val
    | Some m => if Number.lt val m then Some val else Some m
    end in
  match Number.add (sum self) val with
  | Raise e =>
      ({| max := max'; min := min'; sum := sum self; count := count self |},
       Raise e)
  | Ok s =>
      ({| max := max'; min := min'; sum := s; count := (count self + 1)%Z |},
       Ok tt)
  end.

Definition average (self : t) : result Number.t :=
  Number.truediv (sum self) (Number.PyInt (count self)).

End Meter.

(** [exp_moving_avg(cur, prev=None, alpha=.05, steps=None)]; [steps] is
    tested for truth, so [steps = 0] takes the branch of an absent one. *)
Definition exp_moving_avg (cur : Qc) (prev : option Qc) (alpha : Qc)
    (steps : option Z) : result Qc :=
  match prev with
  | None => Ok cur
  | Some prev =>
      let avg := alpha * cur + prev * (1 - alpha) in
      match steps with
      | None => Ok avg
      | Some n =>
          if (n =? 0)%Z then Ok avg
          else p <-! power alpha n; truediv avg (1 - p)
      end
  end.

(** *** moving_average

    [data] is a one-dimensional array of dtype int64 or float64, which is
    also what numpy makes of a list of [int]s that fit 64 bits or of
    [float]s; [window] is an [int]. The difference of the two slices is
    computed first, then [float(window)], then the division. With
    [window = 0] the difference is empty or fails to broadcast, so no
    element is ever divided by zero. *)
Definition moving_average (data : np.ndarray) (window : Z)
  : result np.ndarray :=
  let cumsum := np.cumsum (np.insert0 data) in
  d <-! np.subtract (np.slice_from cumsum window)
          (np.slice_to cumsum (- window)%Z);
  w <-! Number.to_float (Number.PyInt window);
  Ok (np.true_divide d w).

End Metrics.

(** ** yann/callbacks/checkpoint.py *)

Module Checkpoint.

(** What a callback does to the trainer it is handed: the method calls it
    makes on it, in order. *)
Inductive call (T : Type) : Type :=
| checkpoint (trainer : T) (name : option string).
Arguments checkpoint {T} trainer name.

Record t : Type := { freq : Z }.

Definition __init__ (freq : Z) : t := {| freq := freq |}.

(** [epoch % self.freq] *)
Definition mod_ (a b : Z) : result Z :=
  if b =? 0 then Raise ZeroDivisionError else Ok (a mod b).

Definition on_epoch_end {T} (self : t) (epoch : Z) (trainer : T)
  : result (list (call T)) :=
  r <-! mod_ epoch (freq self);
  if r =? 0 then Ok [checkpoint trainer None] else Ok [].

(** The events of the callback pipeline that [Trainer.run] and
    [Trainer.validate] send. *)
Inductive event : Type :=
| train_start
| epoch_start (epoch : Z)
| step_start (index : Z)
| step_error (index : Z)
| step_end (index : Z)
| epoch_end (epoch : Z)
| train_end
| error
| validation_start
| validation_batch
| validation_end.

(** Modelled from the spec: the base class [Callback] of
    [yann/callbacks/base.py], whose hooks [Checkpoint] inherits; every hook
    that a component does not implement is a no-op. *)
Definition Callback_hook {T} (trainer : T) : result (list (call T)) := Ok [].

(** Method resolution: [on_epoch_end] is [Checkpoint]'s own, the other
    hooks are inherited. *)
Definition handle {T} (self : t) (ev : event) (trainer : T)
  : result (list (call T)) :=
  match ev with
  | epoch_end epoch => on_epoch_end self epoch trainer
  | _ => Callback_hook trainer
  end.

End Checkpoint.

(** ** yann/train/supervised.py *)

Module Supervised.

(** *** Attribute assignment

    [Trainer.__setattr__] reads and writes attributes by name, so here a
    trainer is its instance dictionary; values are as far as the method
    inspects them. An object carries its truth value and its attributes. *)
#[warnings="-register-all"]
Inductive value : Type :=
| VNone
| VBool (b : bool)
| VInt (z : Z)
| VStr (s : string)
| VObj (truthy : bool) (attrs : list (string * value)).

Definition truth (v : value) : bool :=
  match v with
  | VNone => false
  | VBool b => b
  | VInt z => negb (z =? 0)
  | VStr s => negb (String.eqb s "")
  | VObj t _ => t
  end.

Fixpoint assoc (attrs : list (string * value)) (name : string) : option value :=
  match attrs with
  | [] => None
  | (n, v) :: attrs' => if String.eqb n name then Some v else assoc attrs' name
  end.

Fixpoint set_assoc (attrs : list (string * value)) (name : string) (v : value)
  : list (string * value) :=
  match attrs with
  | [] => [(name, v)]
  | (n, v') :: attrs' =>
      if String.eqb n name then (n, v) :: attrs'
      else (n, v') :: set_assoc attrs' name v
  end.

(** [getattr] on a value held by the trainer; [None], booleans, integers and
    strings have none of the attributes looked up here. *)
Definition value_getattr (v : value) (name : string) : option value :=
  match v with
  | VObj _ attrs => assoc attrs name
  | _ => None
  end.

(** [v != s] for a string [s]: only an equal string is not different. *)
Definition ne_str (v : value) (s : string) : bool :=
  match v with
  | VStr s' => negb (String.eqb s' s)
  | _ => true
  end.

Definition instance : Type := gmap string value.

(** The data attributes that the class body of [Trainer] binds. *)
Definition class_attributes : gmap string value :=
  list_to_map
    [("params", VNone); ("model", VNone); ("loss", VNone);
     ("optimizer", VNone); ("lr_scheduler", VNone); ("clip_grad", VNone);
     ("loader", VNone); ("classes", VNone); ("sampler", VNone);
     ("paths", VNone); ("callbacks", VNone); ("log", VNone);
     ("grad_scaler", VNone); ("history", VNone); ("_id_key", VNone);
     ("_input_key", VInt 0); ("_target_key", VInt 1)]%string.

(** The read-only properties of the class. *)
Definition properties : list string := ["root"; "training"]%string.

Definition getattr (self : instance) (name : string) : option value :=
  match self !! name with
  | Some v => Some v
  | None => class_attributes !! name
  end.

Definition hasattr (self : instance) (name : string) : bool :=
  match getattr self name with Some _ => true | None => false end.

Definition attr_truth (self : instance) (name : string) : bool :=
  match getattr self name with Some v => truth v | None => false end.

(** [super(Trainer, self).__setattr__(key, value)] *)
Definition object_setattr (self : instance) (key : string) (v : value)
  : result instance :=
  if bool_decide (key ∈ properties) then Raise AttributeError
  else Ok (<[key := v]> self).

(** [if key == 'optimizer': ...] *)
Definition rebind_scheduler (self : instance) (key : string) (v : value)
  : instance :=
  if String.eqb key "optimizer" then
    match getattr self "lr_scheduler" with
    | Some (VObj t attrs) =>
        match assoc attrs "optimizer" with
        | Some _ => <["lr_scheduler" := VObj t (set_assoc attrs "optimizer" v)]> self
        | None => self
        end
    | _ => self
    end
  else self.

(** [if key == 'loader': ...] *)
Definition copy_from_loader (self : instance) (key : string) (v : value)
  : result instance :=
  if String.eqb key "loader" then
    self <-! (match value_getattr v "dataset" with
              | Some d =>
                  if hasattr self "dataset" then object_setattr self "dataset" d
                  else Ok self
              | None => Ok self
              end);
    match value_getattr v "batch_size" with
    | Some b => object_setattr self "batch_size" b
    | None => Ok self
    end
  else Ok self.

(** The guard. The test of the second [raise] sits inside the branch
    [key == 'batch_size'], as in the source. *)
Definition guard (self : instance) (key : string) : result unit :=
  if String.eqb key "batch_size"
     && hasattr self "batch_size"
     && match getattr self "batch_size" with
        | Some b => ne_str b key
        | None => false
        end
  then
    if hasattr self "loader" && attr_truth self "loader"
    then Raise ValueError
    else if String.eqb key "dataset"
            && hasattr self "dataset" && attr_truth self "dataset"
            && hasattr self "loader" && attr_truth self "loader"
    then Raise ValueError
    else Ok tt
  else Ok tt.

Definition __setattr__ (self : instance) (key : string) (v : value)
  : result instance :=
  let self := rebind_scheduler self key v in
  self <-! copy_from_loader self key v;
  _ <-! guard self key;
  object_setattr self key v.

(** *** The run loop

    Here a trainer is the state that [run] reads and writes directly. *)
Record Trainer : Type := {
  num_steps : Z;
  num_samples : Z;
  num_epochs : Z;
  _stop : bool;
  training : bool;     (* self.model.training *)
  callbacks : bool;    (* truth value of self.callbacks *)
  val_loader : bool    (* truth value of self.val_loader *)
}.

(** [__init__]: the counters start at zero. *)
Definition __init__ (callbacks val_loader : bool) : Trainer :=
  {| num_steps := 0; num_samples := 0; num_epochs := 0; _stop := false;
     training := true; callbacks := callbacks; val_loader := val_loader |}.

Definition set_num_steps (self : Trainer) (n : Z) : Trainer :=
  {| num_steps := n; num_samples := num_samples self;
     num_epochs := num_epochs self; _stop := _stop self;
     training := training self; callbacks := callbacks self;
     val_loader := val_loader self |}.

Definition set_num_samples (self : Trainer) (n : Z) : Trainer :=
  {| num_steps := num_steps self; num_samples := n;
     num_epochs := num_epochs self; _stop := _stop self;
     training := training self; callbacks := callbacks self;
     val_loader := val_loader self |}.

Definition set_num_epochs (self : Trainer) (n : Z) : Trainer :=
  {| num_steps := num_steps self; num_samples := num_samples self;
     num_epochs := n; _stop := _stop self;
     training := training self; callbacks := callbacks self;
     val_loader := val_loader self |}.

Definition set_training (self : Trainer) (b : bool) : Trainer :=
  {| num_steps := num_steps self; num_samples := num_samples self;
     num_epochs := num_epochs self; _stop := _stop self;
     training := b; callbacks := callbacks self;
     val_loader := val_loader self |}.

(** [stop(self, val=True)] *)
Definition stop (self : Trainer) (val : bool) : Trainer :=
  {| num_steps := num_steps self; num_samples := num_samples self;
     num_epochs := num_epochs self; _stop := val;
     training := training self; callbacks := callbacks self;
     val_loader := val_loader self |}.

(** [epochs(self, num=None)]: the generator is created, then runs from
    [yield] to [yield]. *)
Inductive epochs_gen : Type :=
| epochs_created (num : option Z)
| epochs_yielded (c : Utils.counter_gen)
| epochs_finished.

Definition epochs (self : Trainer) (num : option Z) : epochs_gen :=
  epochs_created num.

(** One turn of [for e in counter(...)], up to [yield e]. *)
Definition epochs_for (self : Trainer) (c : Utils.counter_gen)
  : Trainer * result (option Z) * epochs_gen :=
  match Utils.counter_next c with
  | Some (e, c') => (self, Ok (Some e), epochs_yielded c')
  | None => (self, Ok None, epochs_finished)
  end.

Definition epochs_next (g : epochs_gen) (self : Trainer)
  : Trainer * result (option Z) * epochs_gen :=
  match g with
  | epochs_created None =>
      (* self.num_epochs + None *)
      (self, Raise TypeError, epochs_finished)
  | epochs_created (Some num) =>
      epochs_for self
        (Utils.counter (num_epochs self) (Some (num_epochs self + num)) 1)
  | epochs_yielded c =>
      epochs_for (set_num_epochs self (num_epochs self + 1)) c
  | epochs_finished => (self, Ok None, epochs_finished)
  end.

(** What lies outside the trainer: the batches of the loader with what
    [step] does on each, whether a callback calls [trainer.stop()] while it
    is notified, and whether the work that follows the batches of an epoch
    (validation, the scheduler, the callbacks) raises. *)
Inductive step_outcome : Type :=
| step_returns
| step_raises (e : exn).

Record batch : Type := {
  inputs_len : nat;             (* len(inputs) *)
  outcome : step_outcome;
  stop_in_step_hooks : bool
}.

Record epoch_env : Type := {
  batches : list batch;         (* self.batches() *)
  stop_in_epoch_start : bool;
  stop_in_epoch_end : bool;
  after_batches : option exn    (* validate, the scheduler or a callback raises *)
}.

Definition notify (stops : bool) (self : Trainer) : Trainer :=
  if stops then stop self true else self.

(** [step]: puts the model in training mode, then runs forward and update,
    neither of which touches the trainer. *)
Definition step (self : Trainer) (b : batch) : Trainer * step_outcome :=
  (if training self then self else set_training self true, outcome b).

(** [validate]: puts the model in evaluation mode. *)
Definition validate (self : Trainer) : Trainer :=
  if training self then set_training self false else self.

(** [self.num_steps += 1; self.num_samples += len(inputs)] *)
Definition advance (self : Trainer) (b : batch) : Trainer :=
  let self := set_num_steps self (num_steps self + 1) in
  set_num_samples self (num_samples self + Z.of_nat (inputs_len b)).

Inductive loop_exit : Type :=
| exhausted
| broke
| raised (e : exn).

(** [for inputs, targets in self.batches()] when callbacks are defined *)
Fixpoint batches_loop (self : Trainer) (bs : list batch)
  : Trainer * loop_exit :=
  match bs with
  | [] => (self, exhausted)
  | b :: bs' =>
      let self := notify (stop_in_step_hooks b) self in   (* on_step_start *)
      match step self b with
      | (self, step_raises KeyboardInterrupt) => (stop self true, broke)
      | (self, step_raises e) =>
          (* on_step_error *)
          if _stop self then (self, broke) else (self, raised e)
      | (self, step_returns) =>
          (* on_step_end *)
          let self := advance self b in
          if _stop self then (self, broke) else batches_loop self bs'
      end
  end.

(** The same loop when no callbacks are defined *)
Fixpoint batches_loop_plain (self : Trainer) (bs : list batch)
  : Trainer * loop_exit :=
  match bs with
  | [] => (self, exhausted)
  | b :: bs' =>
      match step self b with
      | (self, step_raises e) => (self, raised e)
      | (self, step_returns) => batches_loop_plain (advance self b) bs'
      end
  end.

(** [for epoch_idx in self.epochs(num=epochs)] when callbacks are defined;
    [fuel] bounds the number of times the generator is resumed. *)
Fixpoint epochs_loop (fuel : nat) (g : epochs_gen) (self : Trainer)
    (world : Z -> epoch_env) : option (Trainer * result unit) :=
  match fuel with
  | O => None
  | S fuel' =>
      match epochs_next g self with
      | (self, Raise e, _) => Some (self, Raise e)
      | (self, Ok None, _) => Some (self, Ok tt)
      | (self, Ok (Some epoch_idx), g') =>
          let env := world epoch_idx in
          let self := notify (stop_in_epoch_start env) self in
          match batches_loop self (batches env) with
          | (self, raised e) => Some (self, Raise e)
          | (self, _) =>
              if _stop self then Some (self, Ok tt)
              else
                let self := if val_loader self then validate self else self in
                let self := notify (stop_in_epoch_end env) self in
                match after_batches env with
                | Some KeyboardInterrupt => Some (stop self true, Ok tt)
                | Some e => Some (self, Raise e)
                | None => epochs_loop fuel' g' self world
                end
          end
      end
  end.

Fixpoint epochs_loop_plain (fuel : nat) (g : epochs_gen) (self : Trainer)
    (world : Z -> epoch_env) : option (Trainer * result unit) :=
  match fuel with
  | O => None
  | S fuel' =>
      match epochs_next g self with
      | (self, Raise e, _) => Some (self, Raise e)
      | (self, Ok None, _) => Some (self, Ok tt)
      | (self, Ok (Some epoch_idx), g') =>
          match batches_loop_plain self (batches (world epoch_idx)) with
          | (self, raised e) => Some (self, Raise e)
          | (self, _) =>
              let self := if val_loader self then validate self else self in
              match after_batches (world epoch_idx) with
              | Some e => Some (self, Raise e)
              | None => epochs_loop_plain fuel' g' self world
              end
          end
      end
  end.

(** The generator of [epochs] is resumed once per epoch and once more to
    learn that it is finished. *)
Definition run_fuel (epochs : option Z) : nat :=
  match epochs with
  | None => 1
  | Some n => S (Z.to_nat n)
  end.

(** [run(self, epochs=None)]: the trainer as [run] leaves it, and whether
    it returned or raised. *)
Definition run (self : Trainer) (num : option Z) (world : Z -> epoch_env)
  : option (Trainer * result unit) :=
  let self := stop self false in
  if callbacks self
  then epochs_loop (run_fuel num) (epochs self num) self world
  else epochs_loop_plain (run_fuel num) (epochs self num) self world.

End Supervised.


(** ** More of yann/utils/__init__.py *)

Module UtilsMore.

(** [truthy(items)]: [[x for x in items if x]] *)
Definition truthy (items : list Supervised.value) : list Supervised.value :=
  filter (fun x => Supervised.truth x = true) items.

(** *** str2bool

    The argument is a [bool] or a [str]; strings are sequences of ASCII
    characters, of which [lower()] changes the capital letters only. *)
Definition lower_ascii (c : ascii) : ascii :=
  let n := N_of_ascii c in
  if ((65 <=? n) && (n <=? 90))%N then ascii_of_N (n + 32) else c.

Fixpoint lower (s : string) : string :=
  match s with
  | EmptyString => EmptyString
  | String c s' => String (lower_ascii c) (lower s')
  end.

Inductive str2bool_arg : Type :=
| a_bool (b : bool)
| a_str (s : string).

(** What [str2bool] does: it returns a boolean or raises
    [argparse.ArgumentTypeError]. *)
Inductive str2bool_result : Type :=
| returns (b : bool)
| ArgumentTypeError.

Definition str2bool (v : str2bool_arg) : str2bool_result :=
  match v with
  | a_bool b => returns b
  | a_str s =>
      if bool_decide (lower s ∈ ["yes"; "true"; "t"; "y"; "1"]%string)
      then returns true
      else if bool_decide (lower s ∈ ["no"; "false"; "f"; "n"; "0"]%string)
      then returns false
      else ArgumentTypeError
  end.

(** *** progress

    [it] is a list, or an iterator without [len]; [num] is [None] or an
    integer. The generator writes to standard output before each [yield]:
    its run is the sequence of the texts written, each with the item that
    follows it. *)
Definition show_int (z : Z) : string :=
  NilZero.string_of_int (Z.to_int z).

Definition carriage_return : string := String (ascii_of_nat 13) EmptyString.

(** [if not num: try: num = len(it) except: num = None] *)
Definition progress_num {A} (it : list A) (has_len : bool) (num : option Z)
  : option Z :=
  match num with
  | Some n => if n =? 0 then
                if has_len then Some (Z.of_nat (length it)) else None
              else Some n
  | None => if has_len then Some (Z.of_nat (length it)) else None
  end.

(** [for n, x in enumerate(it, 1)] *)
Fixpoint progress_loop {A} (text : Z -> string) (n : Z) (it : list A)
  : list (string * A) :=
  match it with
  | [] => []
  | x :: it' => (text n, x) :: progress_loop text (n + 1) it'
  end.

Definition progress {A} (it : list A) (has_len : bool) (num : option Z)
  : list (string * A) :=
  match progress_num it has_len num with
  | Some num =>
      if num =? 0
      then progress_loop (fun n => carriage_return ++ show_int n)%string 1 it
      else progress_loop
             (fun n => carriage_return ++ show_int n ++ " / " ++ show_int num)%string
             1 it
  | None => progress_loop (fun n => carriage_return ++ show_int n)%string 1 it
  end.

(** *** Obj

    [class Obj(dict)] with [__setattr__ = dict.__setitem__] and
    [__getattr__ = dict.__getitem__]. Reading an attribute first looks the
    name up on the class ([dict] and [object]), whose attributes are the
    parameter [class_attr]; [__getattr__] is called when that fails. *)
Section Obj.
Context {V : Type} (class_attr : string -> option V).

Definition Obj : Type := gmap string V.

Definition Obj_setattr (self : Obj) (name : string) (v : V) : Obj :=
  <[name := v]> self.

Definition Obj_getattr (self : Obj) (name : string) : result V :=
  match self !! name with
  | Some v => Ok v
  | None => Raise KeyError
  end.

(** [self.name] *)
Definition Obj_read (self : Obj) (name : string) : result V :=
  match class_attr name with
  | Some m => Ok m
  | None => Obj_getattr self name
  end.

End Obj.

End UtilsMore.

(** ** More of yann/metrics.py *)

Module MovingAvgMeter.

(** A [deque] with its [maxlen], [None] for an unbounded one. *)
Record t : Type := {
  maxlen : option nat;
  queue : list Number.t
}.

(** [deque(maxlen=window)] raises ValueError for a negative [maxlen]. *)
Definition __init__ (window : option Z) : result t :=
  match window with
  | None => Ok {| maxlen := None; queue := [] |}
  | Some w =>
      if (w <? 0)%Z then Raise ValueError
      else Ok {| maxlen := Some (Z.to_nat w); queue := [] |}
  end.

(** [deque.append]: the item is added on the right, then a deque longer than
    its [maxlen] loses items on the left. *)
Definition append (m : option nat) (q : list Number.t) (x : Number.t)
  : list Number.t :=
  match m with
  | None => q ++ [x]
  | Some m => drop (length (q ++ [x]) - m) (q ++ [x])
  end.

Definition update (self : t) (val : Number.t) : t :=
  {| maxlen := maxlen self; queue := append (maxlen self) (queue self) val |}.

(** [value]: [None] for an empty queue, else [sum(queue) / len(queue)]. *)
Definition value (self : t) : result (option Number.t) :=
  match queue self with
  | [] => Ok None
  | _ =>
      s <-! Number.sum (queue self);
      v <-! Number.truediv s (Number.PyInt (Z.of_nat (length (queue self))));
      Ok (Some v)
  end.

End MovingAvgMeter.

(** ** More of yann/train/supervised.py *)

Module Checkpointing.
Import Supervised.

(** The [metadata] entry of [state_dict], in the order of the source;
    reading a missing attribute raises AttributeError. [param_hash] is the
    value of [hash_params(self.model)]. *)
Definition read (self : instance) (name : string) : result value :=
  match getattr self name with
  | Some v => Ok v
  | None => Raise AttributeError
  end.

Definition metadata (self : instance) (param_hash : value)
  : result (list (string * value)) :=
  id <-! read self "id";
  num_steps <-! read self "num_steps";
  num_samples <-! read self "num_samples";
  num_epochs <-! read self "num_epochs";
  batch_size <-! read self "batch_size";
  name <-! read self "name";
  time_created <-! read self "time_created";
  Ok [("id", id); ("num_steps", num_steps); ("num_samples", num_samples);
      ("num_epochs", num_epochs); ("batch_size", batch_size);
      ("name", name); ("time_created", time_created);
      ("param_hash", param_hash)]%string.

(** The loop of [load_state_dict] over [data['metadata'].items()]:
    [try: setattr(self, k, v) except ValueError: logging.warning(...)]. *)
Fixpoint restore_metadata (self : instance) (md : list (string * value))
  : result instance :=
  match md with
  | [] => Ok self
  | (k, v) :: md' =>
      match __setattr__ self k v with
      | Ok self' => restore_metadata self' md'
      | Raise ValueError => restore_metadata self md'
      | Raise e => Raise e
      end
  end.

End Checkpointing.
(** * Vocabulary of the specification *)

Module CounterSpec.
Import Utils.

(** The first [n] terms [start, start + step, start + 2 * step, ...]. *)
Fixpoint terms (start step : Z) (n : nat) : list Z :=
  match n with
  | O => []
  | S n' => start :: terms (start + step) step n'
  end.

(** The number of terms of an ascending progression below [e]. *)
Definition count_below (start e step : Z) : nat :=
  Z.to_nat ((e - start + step - 1) / step).

(** A bounded counter yields, in order, exactly the terms of the
    progression that are below [e], and then finishes. *)
Definition yields_exactly_below (start e step : Z) : Prop :=
  exists n : nat,
    (forall fuel, (n < fuel)%nat ->
       take_gen counter_next fuel (counter start (Some e) step)
       = (terms start step n, true))
    /\ (forall k : nat, start + Z.of_nat k * step < e <-> (k < n)%nat).

(** An unbounded counter yields every term and never finishes. *)
Definition yields_forever (start step : Z) : Prop :=
  forall n : nat,
    take_gen counter_next n (counter start None step)
    = (terms start step n, false).

End CounterSpec.

Module TrainerSpec.
Import Supervised.

(** No progress counter of [b] is below the one of [a]. *)
Definition counters_le (a b : Trainer) : Prop :=
  num_steps a <= num_steps b
  /\ num_samples a <= num_samples b
  /\ num_epochs a <= num_epochs b.

(** The three counters are those of [a]. *)
Definition same_counters (a b : Trainer) : Prop :=
  num_steps b = num_steps a
  /\ num_samples b = num_samples a
  /\ num_epochs b = num_epochs a.

(** [sum(len(inputs))] over some batches *)
Definition samples_of (bs : list batch) : Z :=
  Z.of_nat (list_sum (map inputs_len bs)).

(** A consumer that resumes the generator of [epochs] up to [n] times and
    does nothing else: the indices it receives, each with the epoch counter
    it can read at that moment; the trainer at the end; and whether the
    generator finished ([Ok true]), is still suspended ([Ok false]) or
    raised. *)
Fixpoint epochs_take (n : nat) (g : epochs_gen) (self : Trainer)
  : list (Z * Z) * Trainer * result bool :=
  match n with
  | O => ([], self, Ok false)
  | S n' =>
      match epochs_next g self with
      | (self', Raise e, _) => ([], self', Raise e)
      | (self', Ok None, _) => ([], self', Ok true)
      | (self', Ok (Some e), g') =>
          let '(l, s, r) := epochs_take n' g' self' in
          ((e, num_epochs self') :: l, s, r)
      end
  end.

(** The generators that [epochs] can reach: the inner counter has a bound
    and steps by one. *)
Definition epochs_wf (g : epochs_gen) : Prop :=
  match g with
  | epochs_yielded c => Utils.step c = 1 /\ is_Some (Utils.end_ c)
  | _ => True
  end.

(** A bound on the number of indices that a generator can still yield. *)
Definition epochs_left (g : epochs_gen) : nat :=
  match g with
  | epochs_created None => 0
  | epochs_created (Some n) => Z.to_nat n
  | epochs_yielded c =>
      match Utils.end_ c with
      | Some e => Z.to_nat (e - Utils.current c)
      | None => 0
      end
  | epochs_finished => 0
  end.

End TrainerSpec.

Module SetattrSpec.
Import Supervised.

(** A trainer built by [__init__] from a dataset and a batch size of 32:
    [_init_data_loaders] has assigned [dataset], [batch_size] and then a
    loader over them. *)
Definition a_dataset : value := VObj true [("classes", VNone)]%string.
Definition a_loader : value :=
  VObj true [("dataset", a_dataset); ("batch_size", VInt 32)]%string.
Definition bound_trainer : instance :=
  <["loader" := a_loader]>
    (<["batch_size" := VInt 32]> (<["dataset" := a_dataset]> ∅)).

Definition other_dataset : value := VObj true [("classes", VInt 10)]%string.

End SetattrSpec.

Module MetricsSpec.
Import Metrics.
Local Open Scope Qc_scope.

(** The rational [n/d] *)
Definition q (n : Z) (d : positive) : Qc := Q2Qc (n # d).

(** *** Meter *)

(** A sequence of [int] observations, and one of [float] observations that
    are whole numbers. *)
Definition ints (l : list Z) : list Number.t := map Number.PyInt l.

Definition whole (z : Z) : Float.t := Float.Fin (Float.of_Z z).

(** A fresh meter after the updates with the elements of [l], in order, up
    to the first update that raises. *)
Fixpoint observe_from (m : Meter.t) (l : list Number.t)
  : Meter.t * result unit :=
  match l with
  | [] => (m, Ok tt)
  | x :: l' =>
      match Meter.update m x with
      | (m', Ok _) => observe_from m' l'
      | (m', Raise e) => (m', Raise e)
      end
  end.

Definition observe (l : list Number.t) : Meter.t * result unit :=
  observe_from Meter.__init__ l.

(** The sum of a sequence of integers, and its arithmetic mean. *)
Definition sum_Z (l : list Z) : Z := fold_right Z.add 0%Z l.

Definition mean (l : list Z) : Qc :=
  of_int (sum_Z l) / of_int (Z.of_nat (length l)).

(** A rational as the [float] nearest to it, where there is one below the
    overflow threshold. *)
Definition nearest_float (x : Qc) : result Number.t :=
  match Float.round x with
  | Float.Fin r => Ok (Number.PyFloat (Float.Fin r))
  | _ => Raise OverflowError
  end.

(** [m] is the maximum (minimum) of [l]: an element that bounds the others. *)
Definition is_max (m : Z) (l : list Z) : Prop :=
  m ∈ l /\ Forall (fun x => (x <= m)%Z) l.

Definition is_min (m : Z) (l : list Z) : Prop :=
  m ∈ l /\ Forall (fun x => (m <= x)%Z) l.

(** The order of the doubles: NaN is not comparable, the infinities are the
    ends. *)
Definition float_le (x y : Float.t) : Prop :=
  match x, y with
  | Float.NaN, _ | _, Float.NaN => False
  | Float.Fin a, Float.Fin b => a <= b
  | Float.NInf, _ => True
  | _, Float.PInf => True
  | _, _ => False
  end.

(** The order of the numbers is that of their exact values. *)
Definition number_le (x y : Number.t) : Prop :=
  float_le (Number.exact x) (Number.exact y).

Definition not_nan (x : Number.t) : Prop := Number.exact x <> Float.NaN.

Definition is_max_number (m : Number.t) (l : list Number.t) : Prop :=
  m ∈ l /\ Forall (fun x => number_le x m) l.

Definition is_min_number (m : Number.t) (l : list Number.t) : Prop :=
  m ∈ l /\ Forall (fun x => number_le m x) l.

(** What a meter holds once it has seen exactly the sequence [l]: their
    number, their sum as Python adds them from left to right, and their
    maximum and minimum. *)
Definition summarises (m : Meter.t) (l : list Number.t) : Prop :=
  Meter.count m = Z.of_nat (length l)
  /\ Number.sum l = Ok (Meter.sum m)
  /\ match l with
     | [] => Meter.max m = None /\ Meter.min m = None
     | _ => exists hi lo,
              Meter.max m = Some hi /\ is_max_number hi l
              /\ Meter.min m = Some lo /\ is_min_number lo l
     end.

(** The reading of the specification: [average()] returns the arithmetic
    mean [mu] of the observations [l], and [max] and [min] are their
    maximum and minimum. *)
Definition exact_statistics (l : list Number.t) (mu : Qc) : Prop :=
  exists m a hi lo,
    observe l = (m, Ok tt)
    /\ Meter.average m = Ok a /\ Number.exact a = Float.Fin mu
    /\ Meter.max m = Some hi /\ is_max_number hi l
    /\ Meter.min m = Some lo /\ is_min_number lo l.

(** The [float] 0.1 *)
Definition tenth : Number.t :=
  Number.PyFloat (Float.Fin (q 3602879701896397 36028797018963968)).

(** [alpha*cur + prev*(1-alpha)] *)
Definition blend (cur prev alpha : Qc) : Qc :=
  alpha * cur + prev * (1 - alpha).

(** The result with a step count is the blended value divided by
    [1 - alpha**steps], both operations being Python's. *)
Definition bias_corrected (cur prev alpha : Qc) (steps : Z) : Prop :=
  exp_moving_avg cur (Some prev) alpha (Some steps)
  = (p <-! power alpha steps; truediv (blend cur prev alpha) (1 - p)).

(** *** moving_average *)

(** The sum and the mean of the [w] elements of [data] from position [i]
    on. *)
Definition window_sum (data : list Z) (w i : nat) : Z :=
  sum_Z (take w (drop i data)).

Definition window_mean (data : list Z) (w i : nat) : Qc :=
  of_int (window_sum data w i) / of_int (Z.of_nat w).

(** The sum of the magnitudes *)
Definition sum_abs (l : list Z) : Z := sum_Z (map Z.abs l).

(** Every window of [w] elements of [data] has a sum of at most 53 bits. *)
Definition windows_within (data : list Z) (w : Z) : Prop :=
  forall i : nat, (Z.of_nat i + w <= Z.of_nat (length data))%Z ->
    (Z.abs (window_sum data (Z.to_nat w) i) <= 2 ^ 53)%Z.

(** On the array [a] that holds the integers [data], the result of
    [moving_average] has [len(data) - w + 1] entries, and each is the double
    nearest to the mean of its window. *)
Definition trailing_means (a : np.ndarray) (data : list Z) (w : Z) : Prop :=
  exists r : list Float.t,
    moving_average a w = Ok (np.float64 r)
    /\ (Z.of_nat (length r) = Z.of_nat (length data) - w + 1)%Z
    /\ forall i : nat, (i < length r)%nat ->
         r !! i = Some (Float.round (window_mean data (Z.to_nat w) i)).

(** The result has [len(data) - w + 1] entries. *)
Definition trailing_length (a : np.ndarray) (w : Z) : Prop :=
  exists r : list Float.t,
    moving_average a w = Ok (np.float64 r)
    /\ (Z.of_nat (length r) = Z.of_nat (np.size a) - w + 1)%Z.

End MetricsSpec.

Module RangeMapSpec.
Import Utils.
Local Open Scope Qc_scope.

Definition is_interval (k : key) : Prop :=
  exists mn mx, k = KTuple [mn; mx].

(** [x] is not below the lower bound; an absent bound is no bound. *)
Definition lower_ok (mn : atom) (x : Qc) : Prop :=
  match mn with
  | ANone => True
  | ANum m => m <= x
  end.

Definition upper_ok (mx : atom) (x : Qc) : Prop :=
  match mx with
  | ANone => True
  | ANum m => x <= m
  end.

(** The interval [k] contains [x], both bounds included. *)
Definition contains (k : key) (x : Qc) : Prop :=
  exists mn mx, k = KTuple [mn; mx] /\ lower_ok mn x /\ upper_ok mx x.

Section WithValues.
Context {V : Type}.

(** Every key of the map is an interval. *)
Definition intervals_only (d : list (key * V)) : Prop :=
  Forall (fun kv => is_interval (fst kv)) d.

Definition none_contains (d : list (key * V)) (x : Qc) : Prop :=
  Forall (fun kv => ~ contains (fst kv) x) d.

(** [v] is the value of the first interval, in insertion order, that
    contains [x]. *)
Definition first_containing (d : list (key * V)) (x : Qc) (v : V) : Prop :=
  exists d1 k d2,
    d = d1 ++ (k, v) :: d2 /\ contains k x /\ none_contains d1 x.

(** [v] is the value stored under the key [k]. *)
Definition stored_under (d : list (key * V)) (k : key) (v : V) : Prop :=
  exists d1 d2,
    d = d1 ++ (k, v) :: d2 /\ Forall (fun kv => fst kv <> k) d1.

Definition no_key (d : list (key * V)) (k : key) : Prop :=
  Forall (fun kv => fst kv <> k) d.

End WithValues.

(** The map of the specification's example. *)
Definition low_high : list (key * string) :=
  RangeMap [(KTuple [ANum (Q2Qc 0); ANum (Q2Qc 10)], "low"%string);
            (KTuple [ANum (Q2Qc 11); ANum (Q2Qc 20)], "high"%string)].

End RangeMapSpec.

Module PrettySizeSpec.
Import Utils.

(** The number of tenths nearest to [b / 1024^k], ties to even. *)
Definition tenths (b : Z) (k : nat) : Z :=
  round_half_even (10 * b) (1024 ^ Z.of_nat k).

(** A number of tenths written with one decimal place. *)
Definition one_decimal (t : Z) : string :=
  (show_nat (t / 10) ++ "." ++ show_nat (t mod 10))%string.

(** [b] is reported in the unit of index [k]: the unit reached by dividing
    by 1024 until the value is below 1024. *)
Definition sized (b : Z) : Prop :=
  exists (k : nat) (unit : string),
    units !! k = Some unit
    /\ (k = O \/ 1024 ^ Z.of_nat k <= b)
    /\ b < 1024 ^ Z.of_nat (S k)
    /\ 2 * Z.abs (10 * b - tenths b k * 1024 ^ Z.of_nat k) <= 1024 ^ Z.of_nat k
    /\ pretty_size b
       = Ok (Some (one_decimal (tenths b k) ++ " " ++ unit)%string).

(** The least integer that is too large to convert to a float. *)
Definition float_overflow : Z := 2 ^ 1024 - 2 ^ 970.

End PrettySizeSpec.

Module UtilsMoreSpec.
Import Utils UtilsMore.

(** [upper()] on ASCII characters *)
Definition upper_ascii (c : ascii) : ascii :=
  let n := N_of_ascii c in
  if ((97 <=? n) && (n <=? 122))%N then ascii_of_N (n - 32) else c.

Fixpoint upper (s : string) : string :=
  match s with
  | EmptyString => EmptyString
  | String c s' => String (upper_ascii c) (upper s')
  end.

(** The total that [progress] shows: [num] if it is given and not zero,
    else the length of [it] if it has one; 0 stands for no total. *)
Definition shown_total {A} (it : list A) (has_len : bool) (num : option Z)
  : Z :=
  let given := match num with Some n => n | None => 0 end in
  if given =? 0 then (if has_len then Z.of_nat (length it) else 0)
  else given.

(** The text written before the item of position [i]: a carriage return
    and the position counted from 1, followed by the total when there is
    one. *)
Definition progress_text (total : Z) (i : nat) : string :=
  if total =? 0 then (carriage_return ++ show_int (Z.of_nat i + 1))%string
  else (carriage_return ++ show_int (Z.of_nat i + 1)
        ++ " / " ++ show_int total)%string.

(** An [Obj] after the assignments of [items], in order. *)
Definition Obj_assign_all {V} (self : Obj) (items : list (string * V))
  : Obj :=
  fold_left (fun o kv => Obj_setattr o (fst kv) (snd kv)) items self.

(** The value last assigned to the name among [items]. *)
Fixpoint last_value {V} (items : list (string * V)) (name : string)
  : option V :=
  match items with
  | [] => None
  | (k, v) :: items' =>
      match last_value items' name with
      | Some v' => Some v'
      | None => if decide (k = name) then Some v else None
      end
  end.

(** The value of the last assignment to the key [k] among [items]. *)
Fixpoint last_assigned {V} (items : list (key * V)) (k : key) : option V :=
  match items with
  | [] => None
  | (k', v) :: items' =>
      match last_assigned items' k with
      | Some v' => Some v'
      | None => if decide (k' = k) then Some v else None
      end
  end.

(** The keys of a dictionary, in order. *)
Definition keys {V} (d : list (key * V)) : list key := map fst d.

(** An integer number of bytes as [pretty_size] prints it. *)
Definition whole_bytes (b : Z) : string :=
  let sign := if b <? 0 then "-"%string else ""%string in
  ((sign ++ show_nat (Z.abs b) ++ ".0") ++ " bytes")%string.

End UtilsMoreSpec.

Module MetricsMoreSpec.
Import Metrics MetricsSpec.
Local Open Scope Qc_scope.

(** The last [w] elements of [l], all of [l] if it has fewer. *)
Definition last_n {A} (w : nat) (l : list A) : list A :=
  drop (length l - w) l.

(** A fresh moving-average meter of window [w] after the observations of
    [l], in order. *)
Definition observe_window (w : nat) (l : list Number.t) : MovingAvgMeter.t :=
  fold_left MovingAvgMeter.update l
    {| MovingAvgMeter.maxlen := Some w; MovingAvgMeter.queue := [] |}.

End MetricsMoreSpec.

Module CheckpointMoreSpec.
Import Checkpoint.

(** The calls that a callback makes over the epoch-end events of the given
    epochs, in order, up to the first event on which it raises. *)
Fixpoint calls_made {T} (self : Checkpoint.t) (trainer : T) (epochs : list Z)
  : list (call T) :=
  match epochs with
  | [] => []
  | e :: es =>
      match handle self (epoch_end e) trainer with
      | Ok cs => cs ++ calls_made self trainer es
      | Raise _ => []
      end
  end.

(** The epochs [0], ..., [n - 1]. *)
Definition first_epochs (n : nat) : list Z := map Z.of_nat (seq 0 n).

End CheckpointMoreSpec.

Module SetattrMoreSpec.
Import Supervised.

(** The condition under which assigning [batch_size] is refused: the
    attribute exists, is not the string 'batch_size', and the loader is
    truthy. *)
Definition batch_size_guarded (self : instance) : bool :=
  match getattr self "batch_size" with
  | Some b => ne_str b "batch_size" && attr_truth self "loader"
  | None => false
  end.

(** The names of the metadata that a checkpoint holds besides
    [batch_size] and [param_hash]. *)
Definition restored_names : list string :=
  ["id"; "num_steps"; "num_samples"; "num_epochs"; "name";
   "time_created"]%string.

Definition metadata_names : list string :=
  ["id"; "num_steps"; "num_samples"; "num_epochs"; "batch_size"; "name";
   "time_created"; "param_hash"]%string.

End SetattrMoreSpec.

Module TrainerMoreSpec.
Import Supervised TrainerSpec.

(** The batches of the [k] epochs from epoch [e] on, in order. *)
Fixpoint batches_of (world : Z -> epoch_env) (e : Z) (k : nat) : list batch :=
  match k with
  | O => []
  | S k' => batches (world e) ++ batches_of world (e + 1) k'
  end.

(** A batch on which [step] returns and no callback asks to stop. *)
Definition quiet_batch (b : batch) : Prop :=
  outcome b = step_returns /\ stop_in_step_hooks b = false.

(** An epoch in which every batch is quiet, no callback asks to stop and
    nothing raises after the batches. *)
Definition quiet_epoch (env : epoch_env) : Prop :=
  Forall quiet_batch (batches env)
  /\ stop_in_epoch_start env = false
  /\ stop_in_epoch_end env = false
  /\ after_batches env = None.

(** The [k] epochs from epoch [e] on are quiet. *)
Definition quiet (world : Z -> epoch_env) (e : Z) (k : nat) : Prop :=
  forall i, e <= i < e + Z.of_nat k -> quiet_epoch (world i).

(** In the epoch [env], the batches [done] are completed quietly and [step]
    then raises [e] on the batch [b]. *)
Definition fails_at (env : epoch_env) (done : list batch) (b : batch)
    (e : exn) : Prop :=
  stop_in_epoch_start env = false
  /\ (exists rest, batches env = done ++ b :: rest)
  /\ Forall quiet_batch done
  /\ outcome b = step_raises e.

(** [t] is [self] after [steps] more steps on [samples] more samples, in the
    same epoch. *)
Definition advanced_by (self t : Trainer) (done : list batch) : Prop :=
  num_steps t = num_steps self + Z.of_nat (length done)
  /\ num_samples t = num_samples self + samples_of done
  /\ num_epochs t = num_epochs self.

(** The state of a run after some quiet epochs. *)
Definition completed (self t : Trainer) (bs : list batch) (e : Z) : Prop :=
  num_steps t = num_steps self + Z.of_nat (length bs)
  /\ num_samples t = num_samples self + samples_of bs
  /\ num_epochs t = e.

(** [step] returns on the batch. *)
Definition returned (b : batch) : Prop := outcome b = step_returns.

(** The step on the batch at position [k] of [bs] raises [e]. *)
Definition raises_at (bs : list batch) (k : nat) (e : exn) : Prop :=
  exists b, bs !! k = Some b /\ outcome b = step_raises e.

(** A loop over batches counts the steps that complete: it leaves after
    the steps on the first [k] batches have returned, having added [k] to
    [num_steps] and their lengths to [num_samples]; it has gone through all
    the batches when it leaves exhausted, the step on the next batch has
    raised when it leaves with an exception, and when it leaves by [break]
    the step on the next batch has raised or one step at least was
    completed. *)
Definition counts_steps
    (loop : Trainer -> list batch -> Trainer * loop_exit) : Prop :=
  forall (self : Trainer) (bs : list batch),
    exists k : nat,
      (k <= length bs)%nat
      /\ Forall returned (take k bs)
      /\ advanced_by self (fst (loop self bs)) (take k bs)
      /\ match snd (loop self bs) with
         | exhausted => k = length bs
         | raised e => raises_at bs k e
         | broke => (exists e, raises_at bs k e) \/ (0 < k)%nat
         end.

(** A run that raises does so from the step on the batch at position [k],
    or after all the batches of the epoch. *)
Definition ends_in_raise (env : epoch_env) (k : nat) (r : result unit)
  : Prop :=
  forall x, r = Raise x ->
    raises_at (batches env) k x
    \/ (k = length (batches env) /\ after_batches env = Some x).

(** How a run ends in the epoch [env] after [k] completed steps: normally
    only with a stop requested, and with the exception that the step on the
    next batch raised, or that was raised after all the batches. *)
Definition ends_in (env : epoch_env) (k : nat) (t : Trainer)
    (r : result unit) : Prop :=
  (r = Ok tt -> _stop t = true) /\ ends_in_raise env k r.

(** One turn of the loop over the epochs, in the epoch [env] entered in the
    state [self1]: either every step of the epoch completes and the loop
    goes on from a state in which they are counted, or the run ends in it
    after [k] completed steps, which are counted. *)
Definition epoch_outcome (res : option (Trainer * result unit))
    (continue : Trainer -> option (Trainer * result unit))
    (self1 : Trainer) (env : epoch_env) : Prop :=
  (exists s,
     res = continue s
     /\ advanced_by self1 s (batches env)
     /\ Forall returned (batches env))
  \/ (exists t r (k : nat),
        res = Some (t, r)
        /\ (k <= length (batches env))%nat
        /\ Forall returned (take k (batches env))
        /\ advanced_by self1 t (take k (batches env))
        /\ ends_in env k t r).

(** The account of a loop over [m] epochs from the epoch [cur] on, entered
    in the state [self] and left in the state [t] with the result [r]: [j]
    epochs were consumed and [k] steps completed in the epoch after them;
    every step among those returned, and the counters have advanced by
    them. *)
Definition accounts (world : Z -> epoch_env) (cur : Z) (m : nat)
    (self t : Trainer) (r : result unit) (j k : nat) : Prop :=
  let e := cur + Z.of_nat j in
  let done := batches_of world cur j ++ take k (batches (world e)) in
  (j <= m)%nat
  /\ Forall returned done
  /\ num_steps t = num_steps self + Z.of_nat (length done)
  /\ num_samples t = num_samples self + samples_of done
  /\ num_epochs t = e
  /\ (r = Ok tt -> _stop t = false -> j = m /\ k = 0%nat)
  /\ ends_in_raise (world e) k r.

Definition calm_batch (n : nat) : batch :=
  {| inputs_len := n; outcome := step_returns; stop_in_step_hooks := false |}.

Definition calm_world (_ : Z) : epoch_env :=
  {| batches := [calm_batch 4; calm_batch 3];
     stop_in_epoch_start := false; stop_in_epoch_end := false;
     after_batches := None |}.

Definition failing_batch (e : exn) (stops : bool) : batch :=
  {| inputs_len := 2; outcome := step_raises e; stop_in_step_hooks := stops |}.

Definition failing_world (e : exn) (stops : bool) (_ : Z) : epoch_env :=
  {| batches := [calm_batch 4; failing_batch e stops; calm_batch 3];
     stop_in_epoch_start := false; stop_in_epoch_end := false;
     after_batches := None |}.

End TrainerMoreSpec.
(** * Theorems *)

(** ** Comparison of scalars *)

Module QcFacts.
Local Open Scope Qc_scope.

Lemma Qcltb_lt x y : Utils.Qcltb x y = true <-> x < y.
Proof.
  unfold Utils.Qcltb. rewrite Qclt_alt.
  destruct (x ?= y); split; congruence.
Qed.

Lemma Qcltb_ge x y : Utils.Qcltb x y = false <-> y <= x.
Proof.
  rewrite <- not_true_iff_false, Qcltb_lt. split.
  - apply Qcnot_lt_le.
  - apply Qcle_not_lt.
Qed.

End QcFacts.

(** ** counter *)

Module CounterFacts.
Import Utils CounterSpec.

Lemma terms_lookup step n : forall start k,
  (k < n)%nat -> terms start step n !! k = Some (start + Z.of_nat k * step).
Proof.
  induction n as [|n IH]; intros start k Hk; [lia|].
  destruct k as [|k]; simpl.
  - f_equal. lia.
  - rewrite IH by lia. f_equal. lia.
Qed.

Lemma terms_length start step n : length (terms start step n) = n.
Proof. revert start. induction n; intros; simpl; auto. Qed.

Lemma counter_next_unbounded start step :
  counter_next (counter start None step)
  = Some (start, counter (start + step) None step).
Proof. reflexivity. Qed.

Lemma counter_next_bounded start e step :
  counter_next (counter start (Some e) step)
  = if e =? 0 then None
    else if start <? e then Some (start, counter (start + step) (Some e) step)
    else None.
Proof.
  unfold counter_next, counter_test, counter; simpl.
  destruct (e =? 0); [reflexivity|]. destruct (start <? e); reflexivity.
Qed.

(** Without a bound the generator never finishes. *)
Lemma counter_unbounded step n : forall start,
  take_gen counter_next n (counter start None step)
  = (terms start step n, false).
Proof.
  induction n as [|n IH]; intros start; [reflexivity|].
  cbn [take_gen terms]. rewrite counter_next_unbounded, IH. reflexivity.
Qed.

(** With a nonzero bound the generator yields the terms up to the first one
    that is not below the bound. *)
Lemma counter_while e step n : forall start fuel,
  e <> 0 ->
  (forall k, (k < n)%nat -> start + Z.of_nat k * step < e) ->
  ~ start + Z.of_nat n * step < e ->
  (n < fuel)%nat ->
  take_gen counter_next fuel (counter start (Some e) step)
  = (terms start step n, true).
Proof.
  induction n as [|n IH]; intros start fuel He Hlt Hge Hfuel;
    (destruct fuel as [|fuel]; [lia|]);
    cbn [take_gen terms]; rewrite counter_next_bounded;
    (destruct (Z.eqb_spec e 0); [done|]).
  - destruct (Z.ltb_spec start e); [lia|reflexivity].
  - pose proof (Hlt O ltac:(lia)) as H0.
    destruct (Z.ltb_spec start e); [|lia].
    rewrite (IH (start + step) fuel); auto; try lia.
    intros k Hk. specialize (Hlt (S k) ltac:(lia)). lia.
Qed.

Lemma count_below_spec start e step (k : nat) :
  0 < step ->
  start + Z.of_nat k * step < e <-> (k < count_below start e step)%nat.
Proof.
  intros Hstep. unfold count_below.
  set (a := e - start + step - 1).
  pose proof (Z.div_mod a step ltac:(lia)) as Hdm.
  pose proof (Z.mod_pos_bound a step Hstep) as Hmod.
  split; intros H.
  - assert (Z.of_nat k < a / step) by nia. lia.
  - assert (Z.of_nat k < a / step) by lia. nia.
Qed.

(** A step that does not ascend never reaches a bound above the start. *)
Lemma counter_not_ascending e step n : forall start,
  e <> 0 -> step <= 0 -> start < e ->
  take_gen counter_next n (counter start (Some e) step)
  = (terms start step n, false).
Proof.
  induction n as [|n IH]; intros start He Hstep Hlt; [reflexivity|].
  cbn [take_gen terms]. rewrite counter_next_bounded.
  destruct (Z.eqb_spec e 0); [done|].
  destruct (Z.ltb_spec start e); [|lia].
  rewrite IH by lia. reflexivity.
Qed.

(** A bound equal to zero is falsy: nothing is yielded, whatever the start. *)
Lemma counter_end_zero start step fuel :
  take_gen counter_next (S fuel) (counter start (Some 0) step) = ([], true).
Proof. reflexivity. Qed.

(** C4, amended: for every start, every step above zero and every bound
    other than zero, [counter] yields exactly the terms of the progression
    that are strictly below the bound, in order, and then stops; without a
    bound it yields every term and never stops. *)
Theorem counter_yields (start e step : Z) :
  (0 < step -> e <> 0 -> yields_exactly_below start e step)
  /\ yields_forever start step.
Proof.
  split.
  - intros Hstep He. exists (count_below start e step). split.
    + intros fuel Hfuel. apply counter_while; auto.
      * intros k Hk. apply count_below_spec; auto.
      * rewrite count_below_spec by auto. lia.
    + intros k. apply count_below_spec; auto.
  - intros n. apply counter_unbounded.
Qed.

Lemma counter_yields_witness :
  (0 < 1 /\ 3 <> 0) /\ yields_exactly_below 0 3 1.
Proof.
  split; [lia|]. apply (proj1 (counter_yields 0 3 1)); lia.
Defined.

(** C4 as stated fails for a descending step: [counter(0, 5, -1)] never
    stops. *)
Lemma counter_descending_never_stops : ~ yields_exactly_below 0 5 (-1).
Proof.
  intros [n [H _]]. specialize (H (S n) ltac:(lia)).
  rewrite counter_not_ascending in H by lia. discriminate.
Qed.

End CounterFacts.

(** ** Trainer: epochs and run *)

Module TrainerFacts.
Import Supervised TrainerSpec CounterSpec.

Lemma counters_le_refl a : counters_le a a.
Proof. unfold counters_le; lia. Qed.

Lemma counters_le_trans a b c :
  counters_le a b -> counters_le b c -> counters_le a c.
Proof. unfold counters_le; lia. Qed.

Lemma same_counters_le a b : same_counters a b -> counters_le a b.
Proof. unfold same_counters, counters_le; lia. Qed.

Lemma stop_same self v : same_counters self (stop self v).
Proof. repeat split. Qed.

Lemma notify_same b self : same_counters self (notify b self).
Proof. destruct b; repeat split. Qed.

Lemma step_same self b : same_counters self (fst (step self b)).
Proof. unfold step; simpl. destruct (training self); repeat split. Qed.

Lemma validate_same self : same_counters self (validate self).
Proof. unfold validate. destruct (training self); repeat split. Qed.

Lemma advance_counters self b :
  num_steps (advance self b) = num_steps self + 1
  /\ num_samples (advance self b) = num_samples self + Z.of_nat (inputs_len b)
  /\ num_epochs (advance self b) = num_epochs self.
Proof. repeat split. Qed.

Lemma advance_stop self b : _stop (advance self b) = _stop self.
Proof. reflexivity. Qed.

(** Every resumption of the generator keeps the step and sample counters;
    it adds one to the epoch counter when it resumes after a [yield] and
    keeps it otherwise. *)
Lemma epochs_next_counters g self :
  let self' := fst (fst (epochs_next g self)) in
  num_steps self' = num_steps self
  /\ num_samples self' = num_samples self
  /\ num_epochs self' =
     match g with
     | epochs_yielded _ => num_epochs self + 1
     | _ => num_epochs self
     end.
Proof.
  destruct g as [[num|]|c|]; simpl; unfold epochs_for;
    try (destruct (Utils.counter_next _) as [[e c']|]); simpl; auto.
Qed.

Lemma epochs_next_le g self :
  counters_le self (fst (fst (epochs_next g self))).
Proof.
  pose proof (epochs_next_counters g self) as (H1 & H2 & H3).
  unfold counters_le. rewrite H1, H2, H3. destruct g; lia.
Qed.

Lemma samples_of_nil : samples_of [] = 0.
Proof. reflexivity. Qed.

Lemma samples_of_cons b bs :
  samples_of (b :: bs) = Z.of_nat (inputs_len b) + samples_of bs.
Proof. unfold samples_of. simpl. lia. Qed.

(** The batch loops: some prefix of the batches was completed, and the
    counters advanced by its length and by its number of samples. *)
Lemma batches_loop_counters bs : forall self,
  let self' := fst (batches_loop self bs) in
  exists k : nat,
    (k <= length bs)%nat
    /\ num_steps self' = num_steps self + Z.of_nat k
    /\ num_samples self' = num_samples self + samples_of (take k bs)
    /\ num_epochs self' = num_epochs self.
Proof.
  induction bs as [|b bs IH]; intros self; cbn [batches_loop].
  - exists O. cbn [fst length]. rewrite firstn_O, samples_of_nil. lia.
  - pose proof (notify_same (stop_in_step_hooks b) self) as (N1 & N2 & N3).
    pose proof (step_same (notify (stop_in_step_hooks b) self) b)
      as (S1 & S2 & S3).
    destruct (step (notify (stop_in_step_hooks b) self) b) as [s0 o].
    cbn [fst] in S1, S2, S3.
    destruct o as [|e].
    + pose proof (advance_counters s0 b) as (A1 & A2 & A3).
      set (s1 := advance s0 b) in *. clearbody s1.
      destruct (_stop s1).
      * exists 1%nat. cbn [fst length].
        rewrite firstn_cons, firstn_O, samples_of_cons, samples_of_nil. lia.
      * destruct (IH s1) as (k & Hk & K1 & K2 & K3).
        exists (S k). cbn [length]. rewrite firstn_cons, samples_of_cons. lia.
    + exists O. cbn [length]. rewrite firstn_O, samples_of_nil.
      destruct e; try destruct (_stop s0); cbn [fst stop num_steps
        num_samples num_epochs]; lia.
Qed.

Lemma batches_loop_plain_counters bs : forall self,
  let self' := fst (batches_loop_plain self bs) in
  exists k : nat,
    (k <= length bs)%nat
    /\ num_steps self' = num_steps self + Z.of_nat k
    /\ num_samples self' = num_samples self + samples_of (take k bs)
    /\ num_epochs self' = num_epochs self.
Proof.
  induction bs as [|b bs IH]; intros self; cbn [batches_loop_plain].
  - exists O. cbn [fst length]. rewrite firstn_O, samples_of_nil. lia.
  - pose proof (step_same self b) as (S1 & S2 & S3).
    destruct (step self b) as [s0 o]. cbn [fst] in S1, S2, S3.
    destruct o as [|e].
    + pose proof (advance_counters s0 b) as (A1 & A2 & A3).
      destruct (IH (advance s0 b)) as (k & Hk & K1 & K2 & K3).
      exists (S k). cbn [length]. rewrite firstn_cons, samples_of_cons. lia.
    + exists O. cbn [fst length]. rewrite firstn_O, samples_of_nil. lia.
Qed.

Lemma samples_of_nonneg bs : 0 <= samples_of bs.
Proof. unfold samples_of. lia. Qed.

Lemma batches_loop_le self bs :
  counters_le self (fst (batches_loop self bs)).
Proof.
  destruct (batches_loop_counters bs self) as (k & _ & H1 & H2 & H3).
  pose proof (samples_of_nonneg (take k bs)).
  unfold counters_le. lia.
Qed.

Lemma batches_loop_plain_le self bs :
  counters_le self (fst (batches_loop_plain self bs)).
Proof.
  destruct (batches_loop_plain_counters bs self) as (k & _ & H1 & H2 & H3).
  pose proof (samples_of_nonneg (take k bs)).
  unfold counters_le. lia.
Qed.

(** A generator that yields stays among the reachable ones and has fewer
    indices left. *)
Lemma epochs_next_yield g self self' e g' :
  epochs_wf g ->
  epochs_next g self = (self', Ok (Some e), g') ->
  epochs_wf g' /\ (epochs_left g' < epochs_left g)%nat.
Proof.
  intros Hwf H. destruct g as [[num|]|c|]; simpl in H; try discriminate.
  - unfold epochs_for in H.
    rewrite CounterFacts.counter_next_bounded in H.
    destruct (Z.eqb_spec (num_epochs self + num) 0); [discriminate|].
    destruct (Z.ltb_spec (num_epochs self) (num_epochs self + num));
      [|discriminate].
    inversion H; subst; clear H. simpl. split; [eauto|lia].
  - destruct Hwf as [Hstep [e0 He0]]. unfold epochs_for in H.
    destruct c as [cur en st]; simpl in *; subst.
    unfold Utils.counter_next, Utils.counter_test in H; simpl in H.
    destruct (Z.eqb_spec e0 0); [discriminate|].
    destruct (Z.ltb_spec cur e0); [|discriminate].
    inversion H; subst; clear H. simpl. split; [eauto|lia].
Qed.

(** The epoch loops return, and never lower a counter. *)
Lemma epochs_loop_total world fuel : forall g self,
  epochs_wf g -> (epochs_left g < fuel)%nat ->
  exists t r, epochs_loop fuel g self world = Some (t, r)
              /\ counters_le self t.
Proof.
  induction fuel as [|fuel IH]; intros g self Hwf Hfuel; [lia|].
  cbn [epochs_loop].
  pose proof (epochs_next_le g self) as Hle.
  destruct (epochs_next g self) as [[s1 [[e|]|ex]] g'] eqn:Hnext;
    cbn [fst] in Hle; [|eauto..].
  destruct (epochs_next_yield _ _ _ _ _ Hwf Hnext) as [Hwf' Hleft].
  set (s2 := notify (stop_in_epoch_start (world e)) s1).
  pose proof (same_counters_le _ _
                (notify_same (stop_in_epoch_start (world e)) s1)) as H12.
  fold s2 in H12.
  pose proof (batches_loop_le s2 (batches (world e))) as H23.
  destruct (batches_loop s2 (batches (world e))) as [s3 ex] eqn:Hb.
  cbn [fst] in H23.
  assert (H03 : counters_le self s3)
    by eauto using counters_le_trans.
  set (s4 := notify (stop_in_epoch_end (world e))
               (if val_loader s3 then validate s3 else s3)).
  assert (H34 : counters_le s3 s4).
  { subst s4. eapply counters_le_trans;
      [|apply same_counters_le, notify_same].
    destruct (val_loader s3);
      [apply same_counters_le, validate_same|apply counters_le_refl]. }
  assert (H04 : counters_le self s4) by eauto using counters_le_trans.
  assert (Hrec : exists t r,
             match after_batches (world e) with
             | Some KeyboardInterrupt => Some (stop s4 true, Ok tt)
             | Some e' => Some (s4, Raise e')
             | None => epochs_loop fuel g' s4 world
             end = Some (t, r) /\ counters_le self t).
  { destruct (after_batches (world e)) as [[]|]; eauto.
    destruct (IH g' s4 Hwf' ltac:(lia)) as (t & r & Ht & Hl).
    exists t, r. split; [exact Ht|].
    eauto using counters_le_trans. }
  destruct ex; [destruct (_stop s3); eauto ..|eauto].
Qed.

Lemma epochs_loop_plain_total world fuel : forall g self,
  epochs_wf g -> (epochs_left g < fuel)%nat ->
  exists t r, epochs_loop_plain fuel g self world = Some (t, r)
              /\ counters_le self t.
Proof.
  induction fuel as [|fuel IH]; intros g self Hwf Hfuel; [lia|].
  cbn [epochs_loop_plain].
  pose proof (epochs_next_le g self) as Hle.
  destruct (epochs_next g self) as [[s1 [[e|]|ex]] g'] eqn:Hnext;
    cbn [fst] in Hle; [|eauto..].
  destruct (epochs_next_yield _ _ _ _ _ Hwf Hnext) as [Hwf' Hleft].
  pose proof (batches_loop_plain_le s1 (batches (world e))) as H13.
  destruct (batches_loop_plain s1 (batches (world e))) as [s3 ex] eqn:Hb.
  cbn [fst] in H13.
  assert (H03 : counters_le self s3)
    by eauto using counters_le_trans.
  set (s4 := if val_loader s3 then validate s3 else s3).
  assert (H34 : counters_le s3 s4).
  { subst s4. destruct (val_loader s3);
      [apply same_counters_le, validate_same|apply counters_le_refl]. }
  assert (H04 : counters_le self s4) by eauto using counters_le_trans.
  assert (Hrec : exists t r,
             match after_batches (world e) with
             | Some e' => Some (s4, Raise e')
             | None => epochs_loop_plain fuel g' s4 world
             end = Some (t, r) /\ counters_le self t).
  { destruct (after_batches (world e)) as [e'|]; eauto.
    destruct (IH g' s4 Hwf' ltac:(lia)) as (t & r & Ht & Hl).
    exists t, r. split; [exact Ht|].
    eauto using counters_le_trans. }
  destruct ex; eauto.
Qed.

(** [run] returns or raises, and leaves no counter lower than it found
    it. *)
Lemma run_total self num world :
  exists t r, run self num world = Some (t, r) /\ counters_le self t.
Proof.
  unfold run.
  assert (Hfuel : (epochs_left (epochs (stop self false) num)
                   < run_fuel num)%nat)
    by (destruct num; simpl; lia).
  assert (Hwf : epochs_wf (epochs (stop self false) num))
    by (destruct num; exact I).
  destruct (callbacks (stop self false)).
  - destruct (epochs_loop_total world _ _ (stop self false) Hwf Hfuel)
      as (t & r & Ht & Hl). eauto.
  - destruct (epochs_loop_plain_total world _ _ (stop self false) Hwf Hfuel)
      as (t & r & Ht & Hl). eauto.
Qed.

Lemma set_num_epochs_id self n :
  n = num_epochs self -> set_num_epochs self n = self.
Proof. intros ->. destruct self; reflexivity. Qed.

(** After a [yield], the generator counts the consumed epoch and goes on
    to the bound. *)
Lemma epochs_take_yielded e m : forall cur self fuel,
  0 <= cur ->
  e - cur = Z.of_nat m ->
  num_epochs self = cur - 1 ->
  (m < fuel)%nat ->
  epochs_take fuel (epochs_yielded (Utils.counter cur (Some e) 1)) self
  = (map (fun i => (i, i)) (terms cur 1 m), set_num_epochs self e, Ok true).
Proof.
  induction m as [|m IH]; intros cur self fuel Hcur He Hself Hfuel;
    (destruct fuel as [|fuel]; [lia|]);
    cbn [epochs_take epochs_next]; unfold epochs_for;
    rewrite CounterFacts.counter_next_bounded.
  - replace (num_epochs self + 1) with e by lia.
    destruct (Z.eqb_spec e 0);
      [|destruct (Z.ltb_spec cur e); [lia|]]; reflexivity.
  - destruct (Z.eqb_spec e 0); [lia|].
    destruct (Z.ltb_spec cur e); [|lia].
    rewrite (IH (cur + 1) _ fuel); cbn [num_epochs set_num_epochs];
      try lia.
    replace (num_epochs self + 1) with cur by lia. reflexivity.
Qed.

(** With a number of epochs, the generator yields that many consecutive
    indices from the current epoch counter; the counter equals each index
    when the index is received, and has advanced by the number of epochs
    when the generator finishes. *)
Lemma epochs_bounded self num fuel :
  0 <= num_epochs self -> 0 <= num -> (Z.to_nat num < fuel)%nat ->
  epochs_take fuel (epochs self (Some num)) self
  = (map (fun i => (i, i)) (terms (num_epochs self) 1 (Z.to_nat num)),
     set_num_epochs self (num_epochs self + num), Ok true).
Proof.
  intros Hne Hnum Hfuel. destruct fuel as [|fuel]; [lia|].
  cbn [epochs_take epochs epochs_next]. unfold epochs_for.
  rewrite CounterFacts.counter_next_bounded.
  destruct (Z.to_nat num) as [|m] eqn:Hm.
  - assert (num = 0) by lia. subst num.
    rewrite set_num_epochs_id by lia.
    destruct (Z.eqb_spec (num_epochs self + 0) 0); [reflexivity|].
    destruct (Z.ltb_spec (num_epochs self) (num_epochs self + 0)); [lia|].
    reflexivity.
  - destruct (Z.eqb_spec (num_epochs self + num) 0); [lia|].
    destruct (Z.ltb_spec (num_epochs self) (num_epochs self + num)); [|lia].
    rewrite (epochs_take_yielded _ m) by lia.
    reflexivity.
Qed.

(** C3, at the input where the code departs from it: without [num], the
    first resumption of the generator of [epochs] raises TypeError (the sum
    [self.num_epochs + None]); no index is yielded and the trainer is left
    as it was. *)
Theorem epochs_without_num_raises (self : Trainer) (n : nat) :
  epochs_take (S n) (epochs self None) self = ([], self, Raise TypeError).
Proof. reflexivity. Qed.

(** [run()] without [epochs] therefore raises as soon as its loop starts. *)
Lemma run_without_epochs_raises self world :
  run self None world = Some (stop self false, Raise TypeError).
Proof. unfold run. destruct (callbacks (stop self false)); reflexivity. Qed.

End TrainerFacts.

(** ** Trainer.__setattr__ *)

Module SetattrFacts.
Import Supervised SetattrSpec.

(** The test of the guard for [dataset] is never reached with
    [key = 'dataset']: every assignment to [dataset] goes through. *)
Lemma setattr_dataset self v :
  __setattr__ self "dataset" v = Ok (<["dataset" := v]> self).
Proof. reflexivity. Qed.

(** Assigning [batch_size] is refused once a loader is bound, provided the
    attribute exists and is not the string 'batch_size'. *)
Lemma setattr_batch_size self v b :
  getattr self "batch_size" = Some b ->
  ne_str b "batch_size" = true ->
  attr_truth self "loader" = true ->
  __setattr__ self "batch_size" v = Raise ValueError.
Proof.
  intros Hb Hne Hl. unfold __setattr__.
  change (rebind_scheduler self "batch_size" v) with self.
  change (copy_from_loader self "batch_size" v) with (Ok self).
  cbn [bind_result]. unfold guard, hasattr.
  change (String.eqb "batch_size" "batch_size") with true.
  rewrite Hb, Hne, Hl. unfold attr_truth in Hl.
  destruct (getattr self "loader"); [reflexivity|discriminate].
Qed.

(** The comparison is with the attribute's name, not with the new value:
    the same batch size is refused as well. *)
Lemma setattr_same_batch_size :
  __setattr__ bound_trainer "batch_size" (VInt 32) = Raise ValueError.
Proof.
  apply (setattr_batch_size _ _ (VInt 32)); reflexivity.
Qed.

(** C1, at the input where the code departs from it: on a trainer whose
    loader is bound and truthy, assigning another dataset does not fail;
    the assignment is carried out. *)
Theorem setattr_dataset_with_loader :
  attr_truth bound_trainer "loader" = true
  /\ __setattr__ bound_trainer "dataset" other_dataset
     = Ok (<["dataset" := other_dataset]> bound_trainer)
  /\ getattr (<["dataset" := other_dataset]> bound_trainer) "dataset"
     = Some other_dataset.
Proof. repeat split. Qed.

End SetattrFacts.
(** ** Floating point *)

Module FloatFacts.
Import QcFacts.

Lemma of_Z_num z : Qnum (Float.of_Z z) = z.
Proof. unfold Float.of_Z. cbn [Q2Qc this]. rewrite inject_Z_Qred. reflexivity. Qed.

Lemma of_Z_den z : Qden (Float.of_Z z) = 1%positive.
Proof. unfold Float.of_Z. cbn [Q2Qc this]. rewrite inject_Z_Qred. reflexivity. Qed.

Lemma of_Z_add a b : (Float.of_Z a + Float.of_Z b)%Qc = Float.of_Z (a + b).
Proof.
  unfold Float.of_Z, Qcplus. apply Q2Qc_eq_iff. cbn [this Q2Qc].
  rewrite !inject_Z_Qred. unfold Qeq, Qplus. cbn. lia.
Qed.

Lemma of_Z_mul a b : (Float.of_Z a * Float.of_Z b)%Qc = Float.of_Z (a * b).
Proof.
  unfold Float.of_Z, Qcmult. apply Q2Qc_eq_iff. cbn [this Q2Qc].
  rewrite !inject_Z_Qred. unfold Qeq, Qmult. cbn. lia.
Qed.

Lemma of_Z_opp a : (- Float.of_Z a)%Qc = Float.of_Z (- a).
Proof.
  unfold Float.of_Z, Qcopp. apply Q2Qc_eq_iff. cbn [this Q2Qc].
  rewrite !inject_Z_Qred. unfold Qeq, Qopp. cbn. lia.
Qed.

Lemma of_Z_inj a b : Float.of_Z a = Float.of_Z b -> a = b.
Proof. intros H. rewrite <- (of_Z_num a), H. apply of_Z_num. Qed.

Lemma of_Z_le a b : (Float.of_Z a <= Float.of_Z b)%Qc <-> a <= b.
Proof.
  unfold Qcle, Qle. rewrite !of_Z_num, !of_Z_den. lia.
Qed.

Lemma of_Z_ltb a b : Utils.Qcltb (Float.of_Z a) (Float.of_Z b) = (a <? b).
Proof.
  destruct (Z.ltb_spec a b) as [H|H].
  - apply Qcltb_lt. apply Qcnot_le_lt. rewrite of_Z_le. lia.
  - apply Qcltb_ge. apply of_Z_le. exact H.
Qed.

Lemma round_half_even_1 n : Utils.round_half_even n 1 = n.
Proof.
  unfold Utils.round_half_even. rewrite Z.mod_1_r, Z.div_1_r. reflexivity.
Qed.

Lemma ilog2_whole a : 0 < a -> Float.ilog2 a 1 = Z.log2 a.
Proof.
  intros Ha. unfold Float.ilog2. change (Z.log2 1) with 0.
  rewrite Z.sub_0_r. pose proof (Z.log2_nonneg a).
  destruct (Z.leb_spec 0 (Z.log2 a)); [|lia].
  pose proof (Z.log2_spec a Ha).
  destruct (Z.leb_spec (1 * 2 ^ Z.log2 a) a); [reflexivity|lia].
Qed.

(** An integer of at most 53 bits is a double. *)
Lemma round_whole z :
  Z.abs z <= 2 ^ 53 -> Float.round (Float.of_Z z) = Float.Fin (Float.of_Z z).
Proof.
  intros Hz. unfold Float.round. rewrite of_Z_num, of_Z_den.
  destruct (Z.eqb_spec z 0) as [->|Hnz]; [reflexivity|].
  assert (Ha : 0 < Z.abs z) by lia.
  unfold Float.ulp_exp. rewrite (ilog2_whole _ Ha).
  pose proof (Z.log2_nonneg (Z.abs z)) as Hl0.
  assert (Hl : Z.log2 (Z.abs z) <= 53).
  { change 53 with (Z.log2 (2 ^ 53)). apply Z.log2_le_mono. exact Hz. }
  rewrite Z.max_l by lia.
  set (e := Z.log2 (Z.abs z)) in *.
  pose proof (Z.log2_spec _ Ha) as Hspec. fold e in Hspec.
  unfold Float.scaled, Float.pow2.
  destruct (Z.leb_spec 0 (e - 52)) as [Hp|Hp].
  - assert (He : e = 52 \/ e = 53) by lia.
    assert (Hm : Utils.round_half_even (Z.abs z) (1 * 2 ^ (e - 52))
                 * 2 ^ (e - 52) = Z.abs z).
    { destruct He as [-> | ->].
      - change (1 * 2 ^ (52 - 52)) with 1. rewrite round_half_even_1.
        change (2 ^ (52 - 52)) with 1. lia.
      - assert (Z.abs z = 2 ^ 53) as -> by (change (2 ^ 53) with (2 ^ 53) in *; lia).
        vm_compute. reflexivity. }
    rewrite Hm.
    destruct (Z.leb_spec (2 ^ 1024) (Z.abs z)) as [Hbig|_].
    { exfalso. assert (2 ^ 53 < 2 ^ 1024) by (apply Z.pow_lt_mono_r; lia). lia. }
    f_equal. f_equal.
    rewrite <- Z.mul_assoc, Hm. destruct z; simpl; lia.
  - rewrite round_half_even_1.
    rewrite (Z.pow_neg_r 2 (e - 52)) by lia. rewrite Z.mul_0_r.
    destruct (Z.leb_spec (2 ^ 1024) 0) as [Hbig|_].
    { exfalso. assert (0 < 2 ^ 1024) by (apply Z.pow_pos_nonneg; lia). lia. }
    f_equal. unfold Float.of_Z. apply Q2Qc_eq_iff.
    assert (Hpos : 0 < 2 ^ (- (e - 52))) by (apply Z.pow_pos_nonneg; lia).
    unfold Qeq. cbn [Qnum Qden inject_Z]. rewrite Z2Pos.id by exact Hpos.
    destruct z; simpl; lia.
Qed.

Lemma round_half_even_bounds' n d :
  n / d <= Utils.round_half_even n d <= n / d + 1.
Proof.
  unfold Utils.round_half_even.
  destruct (2 * (n mod d) <? d); [lia|].
  destruct (d <? 2 * (n mod d)); [lia|].
  destruct (Z.even (n / d)); lia.
Qed.

Lemma ilog2_le n d : Float.ilog2 n d <= Z.log2 n - Z.log2 d.
Proof.
  unfold Float.ilog2.
  destruct (if 0 <=? Z.log2 n - Z.log2 d
            then d * 2 ^ (Z.log2 n - Z.log2 d) <=? n
            else d <=? n * 2 ^ (- (Z.log2 n - Z.log2 d))); lia.
Qed.

(** A rational of magnitude at most [2 ^ 53] rounds to a finite double. *)
Lemma round_small_finite (x : Qc) :
  Z.abs (Qnum x) <= 2 ^ 53 * Zpos (Qden x) ->
  exists r, Float.round x = Float.Fin r.
Proof.
  intros Hx. unfold Float.round.
  destruct (Z.eqb_spec (Qnum x) 0); [eauto|].
  set (a := Z.abs (Qnum x)) in *. set (d := Zpos (Qden x)) in *.
  assert (Ha : 0 < a) by (subst a; lia).
  assert (Hd : 0 < d) by (subst d; lia).
  set (p := Float.ulp_exp a d).
  destruct (Z.leb_spec (2 ^ 1024) (Float.scaled a d p * 2 ^ p)) as [Hbig|_];
    [exfalso|eauto].
  destruct (Z.lt_ge_cases p 0) as [Hp|Hp].
  { rewrite (Z.pow_neg_r 2 p), Z.mul_0_r in Hbig by lia.
    assert (0 < 2 ^ 1024) by (apply Z.pow_pos_nonneg; lia). lia. }
  assert (Hp1 : p <= 1).
  { subst p. unfold Float.ulp_exp in *.
    pose proof (ilog2_le a d) as Hle.
    assert (Z.log2 a < 54 + Z.log2 d); [|lia].
    apply Z.log2_lt_pow2; [exact Ha|].
    pose proof (Z.log2_spec d Hd) as [_ Hd2].
    pose proof (Z.log2_nonneg d).
    rewrite Z.pow_add_r by lia.
    replace (Z.succ (Z.log2 d)) with (Z.log2 d + 1) in Hd2 by lia.
    rewrite Z.pow_add_r in Hd2 by lia.
    change (2 ^ 54) with (2 ^ 53 * 2). change (2 ^ 1) with 2 in Hd2. nia. }
  unfold Float.scaled in Hbig.
  destruct (Z.leb_spec 0 p); [|lia].
  pose proof (round_half_even_bounds' a (d * 2 ^ p)) as [_ Hm].
  assert (Hq : a / (d * 2 ^ p) <= 2 ^ 53).
  { assert (H2 : 0 < 2 ^ p) by (apply Z.pow_pos_nonneg; lia).
    apply Z.div_le_upper_bound; [nia|]. nia. }
  assert (Hpow : 2 ^ p <= 2 ^ 1) by (apply Z.pow_le_mono_r; lia).
  change (2 ^ 1) with 2 in Hpow.
  assert (0 < 2 ^ p) by (apply Z.pow_pos_nonneg; lia).
  assert (Hlim : (2 ^ 53 + 1) * 2 < 2 ^ 1024).
  { change ((2 ^ 53 + 1) * 2) with (2 ^ 54 + 2).
    assert (2 ^ 55 <= 2 ^ 1024) by (apply Z.pow_le_mono_r; lia).
    change (2 ^ 55) with (2 ^ 54 + 2 ^ 54) in *. change (2 ^ 54) with 18014398509481984 in *. lia. }
  nia.
Qed.

(** *** int64 *)

Lemma wrap_small z : - 2 ^ 63 <= z < 2 ^ 63 -> np.wrap z = z.
Proof.
  intros Hz. unfold np.wrap. rewrite Z.mod_small; lia.
Qed.

Lemma wrap_add a b : np.wrap (np.wrap a + b) = np.wrap (a + b).
Proof.
  unfold np.wrap.
  replace ((a + 2 ^ 63) mod 2 ^ 64 - 2 ^ 63 + b + 2 ^ 63)
    with ((a + 2 ^ 63) mod 2 ^ 64 + b) by lia.
  rewrite Zplus_mod_idemp_l. f_equal. f_equal. lia.
Qed.

Lemma wrap_sub a b : np.wrap (np.wrap a - np.wrap b) = np.wrap (a - b).
Proof.
  unfold np.wrap.
  replace ((a + 2 ^ 63) mod 2 ^ 64 - 2 ^ 63
           - ((b + 2 ^ 63) mod 2 ^ 64 - 2 ^ 63) + 2 ^ 63)
    with ((a + 2 ^ 63) mod 2 ^ 64 - (b + 2 ^ 63) mod 2 ^ 64 + 2 ^ 63) by lia.
  rewrite <- Zplus_mod_idemp_l, <- Zminus_mod, Zplus_mod_idemp_l.
  f_equal. f_equal. lia.
Qed.

(** The model on some values computed by CPython: [0.1 + 0.2], [1 / 3],
    [float(2**53 + 1)], [3 / 2**1075] (a tie between two subnormal numbers)
    and [1 / 2**1075] (which rounds to zero), and the first integer beyond
    the doubles. *)
Example float_conformance :
  Float.add (Float.Fin (Q2Qc (3602879701896397 # 36028797018963968)))
            (Float.Fin (Q2Qc (3602879701896397 # 18014398509481984)))
  = Float.Fin (Q2Qc (1351079888211149 # 4503599627370496))
  /\ Float.div (Float.Fin 1) (Float.Fin (Float.of_Z 3))
     = Float.Fin (Q2Qc (6004799503160661 # 18014398509481984))
  /\ Float.round (Float.of_Z (2 ^ 53 + 1)) = Float.Fin (Float.of_Z (2 ^ 53))
  /\ Float.round (Q2Qc (3 # Z.to_pos (2 ^ 1075)))
     = Float.Fin (Q2Qc (1 # Z.to_pos (2 ^ 1073)))
  /\ Float.round (Q2Qc (1 # Z.to_pos (2 ^ 1075))) = Float.Fin 0
  /\ Float.round (Float.of_Z (2 ^ 1024 - 2 ^ 970 - 1))
     = Float.Fin (Float.of_Z (2 ^ 1024 - 2 ^ 971))
  /\ Float.round (Float.of_Z (2 ^ 1024 - 2 ^ 970)) = Float.PInf.
Proof.
  repeat split; vm_compute;
    repeat (f_equal; try (apply Qc_is_canon; reflexivity)).
Qed.

End FloatFacts.

(** ** Meter, exp_moving_avg, moving_average *)

Module MetricsFacts.
Import Metrics MetricsSpec QcFacts FloatFacts.
Import Number(PyInt, PyFloat).
Local Open Scope Qc_scope.
#[local] Set Warnings "-clear-no-such-hyp".

Lemma of_int_zero z : of_int z = 0 <-> z = 0%Z.
Proof.
  unfold of_int. change 0 with (Q2Qc 0). rewrite Q2Qc_eq_iff.
  unfold Qeq. simpl. lia.
Qed.

(** *** The order of the numbers *)

Lemma float_le_refl x : x <> Float.NaN -> float_le x x.
Proof.
  destruct x; cbn; intros H; try congruence; try exact I. apply Qcle_refl.
Qed.

Lemma ltb_le x y : Float.ltb x y = true -> float_le x y.
Proof.
  destruct x, y; cbn; intros H; try congruence; try exact I.
  apply Qcltb_lt in H. apply Qclt_le_weak, H.
Qed.

Lemma ltb_false_le x y :
  x <> Float.NaN -> y <> Float.NaN -> Float.ltb x y = false -> float_le y x.
Proof.
  destruct x, y; cbn; intros Hx Hy H; try congruence; try exact I.
  apply Qcltb_ge in H. exact H.
Qed.

Lemma float_le_trans x y z : float_le x y -> float_le y z -> float_le x z.
Proof.
  destruct x, y, z; cbn; try tauto. apply Qcle_trans.
Qed.

Lemma is_max_snoc_new hi l x :
  is_max_number hi l -> Number.gt x hi = true -> is_max_number x (l ++ [x]).
Proof.
  intros [_ Hall] Hlt. apply ltb_le in Hlt. split; [set_solver|].
  assert (Hx : float_le (Number.exact x) (Number.exact x)).
  { apply float_le_refl. intros E. rewrite E in Hlt.
    destruct (Number.exact hi); exact Hlt. }
  apply Forall_app. split; [|constructor; [exact Hx|constructor]].
  eapply Forall_impl; [exact Hall|]. intros y Hy.
  exact (float_le_trans _ _ _ Hy Hlt).
Qed.

Lemma is_max_snoc_old hi l x :
  is_max_number hi l -> not_nan x -> not_nan hi -> Number.gt x hi = false ->
  is_max_number hi (l ++ [x]).
Proof.
  intros [Hin Hall] Hx Hhi Hle. split; [set_solver|].
  apply Forall_app. split; [exact Hall|].
  constructor; [|constructor]. apply ltb_false_le; assumption.
Qed.

Lemma is_min_snoc_new lo l x :
  is_min_number lo l -> Number.lt x lo = true -> is_min_number x (l ++ [x]).
Proof.
  intros [_ Hall] Hlt. apply ltb_le in Hlt. split; [set_solver|].
  assert (Hx : float_le (Number.exact x) (Number.exact x)).
  { apply float_le_refl. intros E. rewrite E in Hlt. exact Hlt. }
  apply Forall_app. split; [|constructor; [exact Hx|constructor]].
  eapply Forall_impl; [exact Hall|]. intros y Hy.
  exact (float_le_trans _ _ _ Hlt Hy).
Qed.

Lemma is_min_snoc_old lo l x :
  is_min_number lo l -> not_nan x -> not_nan lo -> Number.lt x lo = false ->
  is_min_number lo (l ++ [x]).
Proof.
  intros [Hin Hall] Hx Hlo Hle. split; [set_solver|].
  apply Forall_app. split; [exact Hall|].
  constructor; [|constructor]. apply ltb_false_le; assumption.
Qed.

Lemma is_max_singleton x : not_nan x -> is_max_number x [x].
Proof.
  intros Hx. split; [set_solver|].
  constructor; [apply float_le_refl, Hx|constructor].
Qed.

Lemma is_min_singleton x : not_nan x -> is_min_number x [x].
Proof.
  intros Hx. split; [set_solver|].
  constructor; [apply float_le_refl, Hx|constructor].
Qed.

(** *** The sum *)

Lemma sum_from_snoc l : forall acc x,
  Number.sum_from acc (l ++ [x]) = (s <-! Number.sum_from acc l; Number.add s x).
Proof.
  induction l as [|y l IH]; intros acc x; cbn [app Number.sum_from bind_result].
  - destruct (Number.add acc x); reflexivity.
  - destruct (Number.add acc y) as [s|e]; cbn [bind_result]; [apply IH|reflexivity].
Qed.

Lemma sum_from_ints l : forall a,
  Number.sum_from (PyInt a) (ints l) = Ok (PyInt (a + sum_Z l)).
Proof.
  induction l as [|x l IH]; intros a; cbn [ints map Number.sum_from sum_Z fold_right].
  - do 2 f_equal. lia.
  - cbn [Number.add bind_result]. fold (ints l). rewrite IH.
    do 2 f_equal. fold (sum_Z l). lia.
Qed.

Lemma sum_ints l : Number.sum (ints l) = Ok (PyInt (sum_Z l)).
Proof. unfold Number.sum. rewrite sum_from_ints. reflexivity. Qed.

(** *** Meter *)

(** One successful update keeps the meter in step with the sequence seen so
    far. *)
Lemma update_summarises m l x m' :
  summarises m l -> Forall not_nan l -> not_nan x ->
  Meter.update m x = (m', Ok tt) ->
  summarises m' (l ++ [x]).
Proof.
  intros (Hc & Hs & Hm) Hl Hx Hup. unfold Meter.update in Hup.
  destruct (Number.add (Meter.sum m) x) as [s|e] eqn:Hadd; [|discriminate].
  inversion Hup; subst m'; clear Hup.
  unfold summarises. cbn [Meter.count Meter.sum Meter.max Meter.min].
  rewrite length_app. cbn [length].
  split; [lia|]. split.
  { unfold Number.sum in *. rewrite sum_from_snoc, Hs. exact Hadd. }
  destruct l as [|y l].
  - destruct Hm as [-> ->]. cbn [app].
    exists x, x. auto using is_max_singleton, is_min_singleton.
  - destruct Hm as (hi & lo & -> & Hhi & -> & Hlo).
    cbn [app]. change (y :: l ++ [x]) with ((y :: l) ++ [x]).
    assert (Hnhi : not_nan hi).
    { destruct Hhi as [Hin _]. rewrite Forall_forall in Hl. apply Hl, Hin. }
    assert (Hnlo : not_nan lo).
    { destruct Hlo as [Hin _]. rewrite Forall_forall in Hl. apply Hl, Hin. }
    destruct (Number.gt x hi) eqn:Hhx; destruct (Number.lt x lo) eqn:Hxl;
      eexists _, _;
      (split; [reflexivity|split; [|split; [reflexivity|]]]);
      eauto using is_max_snoc_new, is_max_snoc_old,
                  is_min_snoc_new, is_min_snoc_old.
Qed.

Lemma observe_from_summarises l : forall m p m',
  summarises m p -> Forall not_nan (p ++ l) ->
  observe_from m l = (m', Ok tt) ->
  summarises m' (p ++ l).
Proof.
  induction l as [|x l IH]; intros m p m' H Hn Hobs; cbn [observe_from] in Hobs.
  - inversion Hobs; subst. rewrite app_nil_r. exact H.
  - destruct (Meter.update m x) as [m1 [[]|e]] eqn:Hup; [|discriminate].
    replace (p ++ x :: l) with ((p ++ [x]) ++ l) in *
      by (rewrite <- app_assoc; reflexivity).
    apply Forall_app in Hn as Hn'. destruct Hn' as [Hpx _].
    apply Forall_app in Hpx as [Hp Hx]. inversion Hx; subst.
    eapply IH; [|exact Hn|exact Hobs].
    eapply update_summarises; eauto.
Qed.

Lemma init_summarises : summarises Meter.__init__ [].
Proof. repeat split. Qed.

Lemma observe_summarises l m :
  Forall not_nan l -> observe l = (m, Ok tt) -> summarises m l.
Proof.
  intros Hn Hobs.
  exact (observe_from_summarises l Meter.__init__ [] m init_summarises Hn Hobs).
Qed.

(** On [int]s no update raises. *)
Lemma observe_from_ints l : forall m s,
  Meter.sum m = PyInt s ->
  exists m', observe_from m (ints l) = (m', Ok tt).
Proof.
  induction l as [|x l IH]; intros m s Hs; cbn [ints map observe_from].
  - eauto.
  - unfold Meter.update. rewrite Hs. cbn [Number.add].
    eapply IH. reflexivity.
Qed.

Lemma ints_not_nan l : Forall not_nan (ints l).
Proof.
  unfold ints. apply Forall_map, Forall_forall. intros x _. discriminate.
Qed.

Lemma elem_of_ints x l : x ∈ ints l -> exists z, x = PyInt z /\ z ∈ l.
Proof.
  unfold ints. intros H. apply (list_elem_of_fmap_1 PyInt) in H.
  destruct H as (z & -> & Hz). eauto.
Qed.

Lemma number_le_ints y z : number_le (PyInt y) (PyInt z) <-> (y <= z)%Z.
Proof. unfold number_le. cbn. apply of_Z_le. Qed.

Lemma is_max_ints hi l :
  is_max_number hi (ints l) -> exists z, hi = PyInt z /\ is_max z l.
Proof.
  intros [Hin Hall]. destruct (elem_of_ints _ _ Hin) as (z & -> & Hz).
  exists z. split; [reflexivity|]. split; [exact Hz|].
  unfold ints in Hall. rewrite Forall_map in Hall.
  eapply Forall_impl; [exact Hall|]. intros y Hy. apply number_le_ints, Hy.
Qed.

Lemma is_min_ints lo l :
  is_min_number lo (ints l) -> exists z, lo = PyInt z /\ is_min z l.
Proof.
  intros [Hin Hall]. destruct (elem_of_ints _ _ Hin) as (z & -> & Hz).
  exists z. split; [reflexivity|]. split; [exact Hz|].
  unfold ints in Hall. rewrite Forall_map in Hall.
  eapply Forall_impl; [exact Hall|]. intros y Hy. apply number_le_ints, Hy.
Qed.

(** The division of two [int]s rounds the exact quotient. *)
Lemma truediv_ints a b :
  b <> 0%Z ->
  Number.truediv (PyInt a) (PyInt b) = nearest_float (of_int a / of_int b).
Proof.
  intros Hb. unfold Number.truediv, nearest_float.
  destruct (Z.eqb_spec b 0); [contradiction|]. reflexivity.
Qed.

(** A meter that has seen the [int]s of a non-empty sequence. *)
Lemma observe_ints x l :
  exists m hi lo,
    observe (ints (x :: l)) = (m, Ok tt)
    /\ Meter.max m = Some (PyInt hi) /\ is_max hi (x :: l)
    /\ Meter.min m = Some (PyInt lo) /\ is_min lo (x :: l)
    /\ Meter.sum m = PyInt (sum_Z (x :: l))
    /\ Meter.count m = Z.of_nat (length (x :: l))
    /\ Meter.average m = nearest_float (mean (x :: l)).
Proof.
  destruct (observe_from_ints (x :: l) Meter.__init__ 0 eq_refl) as [m Hm].
  fold (observe (ints (x :: l))) in Hm.
  destruct (observe_summarises _ _ (ints_not_nan _) Hm) as (Hc & Hs & Hx).
  change (ints (x :: l)) with (PyInt x :: ints l) in Hx.
  destruct Hx as (hi & lo & Hmax & Hhi & Hmin & Hlo).
  change (PyInt x :: ints l) with (ints (x :: l)) in Hhi, Hlo.
  destruct (is_max_ints _ _ Hhi) as (zhi & -> & Hzhi).
  destruct (is_min_ints _ _ Hlo) as (zlo & -> & Hzlo).
  rewrite sum_ints in Hs. inversion Hs as [Hsum].
  unfold ints in Hc. rewrite length_map in Hc.
  exists m, zhi, zlo. repeat (split; [assumption || reflexivity|]).
  split; [symmetry; exact Hsum|]. split; [exact Hc|].
  unfold Meter.average. rewrite <- Hsum, Hc.
  apply truediv_ints. cbn [length]. lia.
Qed.

(** C5, amended: after a fresh meter has been updated with the [int]s of a
    non-empty sequence, [max] and [min] are its maximum and minimum and
    [average()] returns its arithmetic mean rounded to the nearest float
    (OverflowError where there is none). After it has been updated with
    the [int]s and [float]s of a non-empty sequence without NaN, no update
    raising, [max] and [min] are its maximum and minimum and [average()] is
    the sum of the sequence, as Python adds it from left to right, divided
    by its length. On a meter without observations, fresh or reset,
    [average()] raises ZeroDivisionError. *)
Theorem meter_statistics :
  (forall (x : Z) (l : list Z),
     exists m hi lo,
       observe (ints (x :: l)) = (m, Ok tt)
       /\ Meter.max m = Some (PyInt hi) /\ is_max hi (x :: l)
       /\ Meter.min m = Some (PyInt lo) /\ is_min lo (x :: l)
       /\ Meter.average m = nearest_float (mean (x :: l)))
  /\ (forall (x : Number.t) (l : list Number.t) (m : Meter.t),
        Forall not_nan (x :: l) -> observe (x :: l) = (m, Ok tt) ->
        exists hi lo s,
          Meter.max m = Some hi /\ is_max_number hi (x :: l)
          /\ Meter.min m = Some lo /\ is_min_number lo (x :: l)
          /\ Number.sum (x :: l) = Ok s
          /\ Meter.average m
             = Number.truediv s (PyInt (Z.of_nat (length (x :: l)))))
  /\ Meter.average Meter.__init__ = Raise ZeroDivisionError
  /\ (forall m, Meter.average (Meter.reset m) = Raise ZeroDivisionError).
Proof.
  split; [|split; [|split; [reflexivity|intros m; reflexivity]]].
  - intros x l.
    destruct (observe_ints x l)
      as (m & hi & lo & Hm & Hmax & Hhi & Hmin & Hlo & _ & _ & Havg).
    exists m, hi, lo. auto 10.
  - intros x l m Hn Hobs.
    destruct (observe_summarises _ _ Hn Hobs)
      as (Hc & Hs & hi & lo & Hmax & Hhi & Hmin & Hlo).
    exists hi, lo, (Meter.sum m).
    repeat (split; [assumption|]).
    unfold Meter.average. rewrite Hc. reflexivity.
Qed.

Lemma meter_statistics_witness :
  (Forall not_nan [tenth; PyInt 1]
   /\ observe [tenth; PyInt 1] = (fst (observe [tenth; PyInt 1]), Ok tt))
  /\ exists hi lo s,
       Meter.max (fst (observe [tenth; PyInt 1])) = Some hi
       /\ is_max_number hi [tenth; PyInt 1]
       /\ Meter.min (fst (observe [tenth; PyInt 1])) = Some lo
       /\ is_min_number lo [tenth; PyInt 1]
       /\ Number.sum [tenth; PyInt 1] = Ok s
       /\ Meter.average (fst (observe [tenth; PyInt 1]))
          = Number.truediv s
              (PyInt (Z.of_nat (length [tenth; PyInt 1]))).
Proof.
  assert (Hn : Forall not_nan [tenth; PyInt 1])
    by (repeat constructor; discriminate).
  assert (Hobs : observe [tenth; PyInt 1]
                 = (fst (observe [tenth; PyInt 1]), Ok tt))
    by (vm_compute; reflexivity).
  split; [split; assumption|].
  exact (proj1 (proj2 meter_statistics) tenth [PyInt 1] _ Hn Hobs).
Defined.

(** The statistics of three observations of 0.1: the sum is rounded twice,
    and the average is the double above 0.1. *)
Example meter_three_tenths :
  exists m a,
    observe [tenth; tenth; tenth] = (m, Ok tt)
    /\ Meter.max m = Some tenth
    /\ Meter.average m = Ok a
    /\ a = PyFloat (Float.Fin (q 7205759403792795 72057594037927936))
    /\ Number.gt a tenth = true.
Proof.
  eexists _, _. split; [vm_compute; reflexivity|].
  split; [reflexivity|]. split; [vm_compute; reflexivity|].
  split; [do 2 f_equal|reflexivity].
Qed.

(** C5 as stated fails on [float]s: the average of three observations of
    0.1 is not 0.1, their mean. *)
Lemma meter_average_not_the_mean :
  ~ exact_statistics [tenth; tenth; tenth]
      (q 3602879701896397 36028797018963968).
Proof.
  intros (m & a & hi & lo & Hobs & Havg & Ha & _).
  destruct meter_three_tenths as (m' & a' & Hobs' & _ & Havg' & -> & _).
  rewrite Hobs' in Hobs. inversion Hobs; subst m'.
  rewrite Havg' in Havg. inversion Havg; subst a.
  cbn [Number.exact] in Ha. inversion Ha as [Hq].
Qed.

(** *** exp_moving_avg *)

Example exp_moving_avg_example :
  exp_moving_avg (q 10 1) (Some (q 5 1)) (q 1 10) None = Ok (q 11 2).
Proof. unfold exp_moving_avg. f_equal. Qed.

(** With a positive step count and [alpha**steps] other than 1, both the
    power and the division succeed. *)
Lemma exp_moving_avg_corrected cur prev alpha steps :
  (0 < steps)%Z -> alpha ^ Z.to_nat steps <> 1 ->
  exp_moving_avg cur (Some prev) alpha (Some steps)
  = Ok (blend cur prev alpha / (1 - alpha ^ Z.to_nat steps)).
Proof.
  intros Hs Hp. unfold exp_moving_avg, power, truediv.
  destruct (Z.eqb_spec steps 0); [lia|].
  destruct (Z.ltb_spec steps 0); [lia|]. cbn [bind_result].
  destruct (decide (1 - alpha ^ Z.to_nat steps = 0)) as [H0|_];
    [|reflexivity].
  exfalso. apply Hp. rewrite <- (Qcplus_0_l (alpha ^ Z.to_nat steps)).
  rewrite <- H0. ring.
Qed.

(** C6, amended: without a previous average the result is [cur]; with one
    and no step count it is [alpha*cur + prev*(1-alpha)]; with a step count
    other than zero it is that value divided by [1 - alpha**steps]; with a
    step count of zero it is that value itself. *)
Theorem exp_moving_avg_cases (cur prev alpha : Qc) (steps : Z)
    (Hsteps : steps <> 0%Z) :
  (forall s, exp_moving_avg cur None alpha s = Ok cur)
  /\ exp_moving_avg cur (Some prev) alpha None = Ok (blend cur prev alpha)
  /\ bias_corrected cur prev alpha steps
  /\ exp_moving_avg cur (Some prev) alpha (Some 0%Z)
     = Ok (blend cur prev alpha).
Proof.
  split; [reflexivity|]. split; [reflexivity|]. split; [|reflexivity].
  unfold bias_corrected, exp_moving_avg.
  destruct (Z.eqb_spec steps 0); [contradiction|reflexivity].
Qed.

Lemma exp_moving_avg_cases_witness :
  (2 <> 0)%Z /\ bias_corrected (q 10 1) (q 5 1) (q 1 10) 2.
Proof.
  split; [lia|].
  apply (exp_moving_avg_cases (q 10 1) (q 5 1) (q 1 10) 2); lia.
Defined.

(** C6 as stated fails for a step count of zero: the blended value is
    returned, where the division by [1 - alpha**0] would raise. *)
Lemma bias_correction_skipped_at_zero :
  ~ bias_corrected (q 10 1) (q 5 1) (q 1 10) 0.
Proof. unfold bias_corrected. vm_compute. discriminate. Qed.

(** *** moving_average *)

Lemma sum_Z_app a b : sum_Z (a ++ b) = (sum_Z a + sum_Z b)%Z.
Proof.
  induction a as [|x a IH]; cbn [app sum_Z fold_right]; [reflexivity|].
  fold (sum_Z (a ++ b)). fold (sum_Z a). lia.
Qed.

Lemma sum_Z_cons x l : sum_Z (x :: l) = (x + sum_Z l)%Z.
Proof. reflexivity. Qed.

(** The difference of two prefix sums is the sum of a window. *)
Lemma prefix_difference data (i k : nat) :
  (sum_Z (take (k + i) data) - sum_Z (take i data))%Z = window_sum data k i.
Proof.
  unfold window_sum. replace (k + i)%nat with (i + k)%nat by lia.
  rewrite <- (take_take_drop data i k), sum_Z_app. lia.
Qed.

Lemma lookup_map {A B} (f : A -> B) (l : list A) : forall i,
  map f l !! i = f <$> (l !! i).
Proof. induction l as [|x l IH]; intros [|i]; simpl; auto. Qed.

Lemma length_accumulate {A} (f : A -> A -> A) l : forall acc,
  length (np.accumulate f acc l) = length l.
Proof. induction l as [|x l IH]; intros acc; simpl; auto. Qed.

(** The two slices of an array of [n + 1] prefix sums, for a window [k]
    between 1 and [n + 1], have [n + 1 - k] entries each. *)
Lemma slices_broadcast {A B} (f : A -> A -> B) (C : list A) (n k : nat) :
  length C = S n -> (1 <= k <= S n)%nat ->
  np.broadcast f (drop (np.slice_index C (Z.of_nat k)) C)
    (take (np.slice_index C (- Z.of_nat k)) C)
  = Ok (zip_with f (drop k C) (take (S n - k) C)).
Proof.
  intros HC Hk. unfold np.slice_index. rewrite HC.
  destruct (Z.ltb_spec (Z.of_nat k) 0); [lia|].
  destruct (Z.ltb_spec (- Z.of_nat k) 0); [|lia].
  replace (Z.to_nat (Z.min (Z.of_nat k) (Z.of_nat (S n)))) with k by lia.
  replace (Z.to_nat (Z.max 0 (Z.of_nat (S n) + - Z.of_nat k)))
    with (S n - k)%nat by lia.
  unfold np.broadcast.
  destruct (decide (length (drop k C) = length (take (S n - k) C)))
    as [_|Hne]; [reflexivity|].
  exfalso. apply Hne. rewrite length_drop, length_take. lia.
Qed.

Lemma lookup_slices {A B} (f : A -> A -> B) (C : list A) (n k i : nat) a b :
  length C = S n -> (1 <= k <= S n)%nat ->
  C !! (k + i)%nat = Some a -> C !! i = Some b -> (i < S n - k)%nat ->
  zip_with f (drop k C) (take (S n - k) C) !! i = Some (f a b).
Proof.
  intros HC Hk Ha Hb Hi.
  rewrite lookup_zip_with, lookup_drop, lookup_take_lt by lia.
  rewrite Ha, Hb. reflexivity.
Qed.

(** [float(window)] for a window of fewer than 53 bits *)
Lemma to_float_whole w :
  (Z.abs w < 2 ^ 53)%Z -> Number.to_float (PyInt w) = Ok (whole w).
Proof.
  intros Hw. unfold Number.to_float, Utils.float_of_int.
  destruct (Z.ltb_spec (Z.abs w) (2 ^ 53)); [reflexivity|lia].
Qed.

(** The prefix sums of an int64 array, each wrapped. *)
Lemma lookup_accumulate_int64 data : forall acc i,
  (i < length data)%nat ->
  np.accumulate (fun a b => np.wrap (a + b)) acc data !! i
  = Some (np.wrap (acc + sum_Z (take (S i) data))).
Proof.
  induction data as [|x l IH]; intros acc i Hi; cbn [length] in Hi; [lia|].
  destruct i as [|i]; cbn [np.accumulate].
  - change (Some (np.wrap (acc + x)) = Some (np.wrap (acc + (x + 0)))).
    rewrite Z.add_0_r. reflexivity.
  - change (np.accumulate (fun a b => np.wrap (a + b)) (np.wrap (acc + x)) l
              !! i
            = Some (np.wrap (acc + sum_Z (take (S (S i)) (x :: l))))).
    rewrite IH by lia. rewrite wrap_add. do 2 f_equal.
    change (take (S (S i)) (x :: l)) with (x :: take (S i) l).
    rewrite sum_Z_cons. lia.
Qed.

Lemma lookup_cumsum_int64 data k :
  (k <= length data)%nat ->
  (0%Z :: np.accumulate (fun a b => np.wrap (a + b)) 0%Z data) !! k
  = Some (np.wrap (sum_Z (take k data))).
Proof.
  intros Hk. destruct k as [|k]; [reflexivity|].
  cbn [lookup list_lookup]. rewrite lookup_accumulate_int64 by lia.
  reflexivity.
Qed.

(** [moving_average] on an int64 array: every entry is the sum of its
    window, wrapped, converted and divided by the window. *)
Lemma moving_average_int64 (data : list Z) (w : Z) :
  (1 <= w <= Z.of_nat (length data) + 1)%Z -> (w < 2 ^ 53)%Z ->
  exists r : list Float.t,
    moving_average (np.int64 data) w = Ok (np.float64 r)
    /\ (Z.of_nat (length r) = Z.of_nat (length data) - w + 1)%Z
    /\ forall i : nat, (i < length r)%nat ->
         r !! i
         = Some (Float.div
                   (Float.round
                      (Float.of_Z (np.wrap (window_sum data (Z.to_nat w) i))))
                   (whole w)).
Proof.
  intros Hw Hw53. unfold moving_average.
  cbn [np.insert0 np.cumsum np.slice_from np.slice_to np.subtract].
  set (C := (0%Z :: np.accumulate (fun a b => np.wrap (a + b)) 0%Z data)).
  set (n := length data) in *.
  assert (HC : length C = S n).
  { subst C. cbn [length]. rewrite length_accumulate. reflexivity. }
  set (k := Z.to_nat w).
  assert (Hk : (1 <= k <= S n)%nat) by lia.
  assert (Hwk : w = Z.of_nat k) by lia. clearbody k. subst w.
  rewrite (slices_broadcast _ C n k HC Hk). cbn [bind_result].
  rewrite to_float_whole by lia. cbn [bind_result np.true_divide np.as_float64].
  eexists. split; [reflexivity|]. cbn [np.as_float64].
  rewrite !length_map, length_zip_with, length_drop, length_take, HC.
  split; [lia|]. intros i Hi.
  rewrite !lookup_map.
  rewrite (lookup_slices _ C n k i
             (np.wrap (sum_Z (take (k + i) data)))
             (np.wrap (sum_Z (take i data))) HC Hk)
    by (try apply lookup_cumsum_int64; lia).
  cbn [fmap option_fmap option_map]. rewrite wrap_sub, prefix_difference.
  reflexivity.
Qed.

(** Whole numbers of at most 53 bits are added and subtracted exactly. *)
Lemma whole_add a b :
  (Z.abs (a + b) <= 2 ^ 53)%Z ->
  Float.add (whole a) (whole b) = whole (a + b).
Proof.
  intros H. unfold whole. cbn [Float.add]. rewrite of_Z_add.
  apply round_whole, H.
Qed.

Lemma whole_sub a b :
  (Z.abs (a - b) <= 2 ^ 53)%Z ->
  Float.sub (whole a) (whole b) = whole (a - b).
Proof.
  intros H. unfold whole, Float.sub. cbn [Float.neg Float.add].
  rewrite of_Z_opp, of_Z_add. apply round_whole, H.
Qed.

(** Dividing two whole numbers rounds their quotient. *)
Lemma whole_div s w :
  w <> 0%Z ->
  Float.div (whole s) (whole w) = Float.round (of_int s / of_int w).
Proof.
  intros Hw. unfold whole. cbn [Float.div]. rewrite of_Z_num.
  destruct (Z.eqb_spec w 0); [contradiction|reflexivity].
Qed.

Lemma sum_abs_cons x l : sum_abs (x :: l) = (Z.abs x + sum_abs l)%Z.
Proof. reflexivity. Qed.

Lemma sum_abs_app a b : sum_abs (a ++ b) = (sum_abs a + sum_abs b)%Z.
Proof. unfold sum_abs. rewrite map_app. apply sum_Z_app. Qed.

Lemma sum_abs_nonneg l : (0 <= sum_abs l)%Z.
Proof.
  induction l as [|x l IH]; [reflexivity|]. rewrite sum_abs_cons. lia.
Qed.

Lemma abs_sum_Z l : (Z.abs (sum_Z l) <= sum_abs l)%Z.
Proof.
  induction l as [|x l IH]; [reflexivity|].
  rewrite sum_abs_cons, sum_Z_cons. lia.
Qed.

Lemma sum_abs_take l i : (sum_abs (take i l) <= sum_abs l)%Z.
Proof.
  rewrite <- (take_drop i l) at 2. rewrite sum_abs_app.
  pose proof (sum_abs_nonneg (drop i l)). lia.
Qed.

Lemma sum_abs_drop l i : (sum_abs (drop i l) <= sum_abs l)%Z.
Proof.
  rewrite <- (take_drop i l) at 2. rewrite sum_abs_app.
  pose proof (sum_abs_nonneg (take i l)). lia.
Qed.

Lemma abs_window_sum data k i :
  (Z.abs (window_sum data k i) <= sum_abs data)%Z.
Proof.
  unfold window_sum.
  pose proof (abs_sum_Z (take k (drop i data))).
  pose proof (sum_abs_take (drop i data) k).
  pose proof (sum_abs_drop data i). lia.
Qed.

(** The prefix sums of a float64 array of whole numbers are exact while the
    magnitudes sum to at most 53 bits. *)
Lemma lookup_accumulate_whole zs : forall a i,
  (Z.abs a + sum_abs zs <= 2 ^ 53)%Z -> (i < length zs)%nat ->
  np.accumulate Float.add (whole a) (map whole zs) !! i
  = Some (whole (a + sum_Z (take (S i) zs))).
Proof.
  induction zs as [|x l IH]; intros a i Hb Hi; cbn [length] in Hi; [lia|].
  rewrite sum_abs_cons in Hb. pose proof (sum_abs_nonneg l).
  cbn [map np.accumulate]. rewrite whole_add by lia.
  destruct i as [|i].
  - change (Some (whole (a + x)) = Some (whole (a + (x + 0)))).
    rewrite Z.add_0_r. reflexivity.
  - change (np.accumulate Float.add (whole (a + x)) (map whole l) !! i
            = Some (whole (a + sum_Z (take (S (S i)) (x :: l))))).
    rewrite IH by lia. do 2 f_equal.
    change (take (S (S i)) (x :: l)) with (x :: take (S i) l).
    rewrite sum_Z_cons. lia.
Qed.

Lemma lookup_cumsum_whole zs k :
  (sum_abs zs <= 2 ^ 53)%Z -> (k <= length zs)%nat ->
  (Float.Fin 0 :: np.accumulate Float.add (Float.Fin 0) (map whole zs)) !! k
  = Some (whole (sum_Z (take k zs))).
Proof.
  intros Hb Hk. destruct k as [|k]; [reflexivity|].
  cbn [lookup list_lookup].
  change (Float.Fin 0) with (whole 0).
  rewrite lookup_accumulate_whole by lia. reflexivity.
Qed.

(** [moving_average] on a float64 array: every entry is the difference of
    two entries of the prefix sums, divided by the window. *)
Lemma moving_average_float64 (data : list Float.t) (w : Z) :
  (1 <= w <= Z.of_nat (length data) + 1)%Z -> (w < 2 ^ 53)%Z ->
  exists r : list Float.t,
    moving_average (np.float64 data) w = Ok (np.float64 r)
    /\ (Z.of_nat (length r) = Z.of_nat (length data) - w + 1)%Z
    /\ forall (i : nat) a b, (i < length r)%nat ->
         (Float.Fin 0 :: np.accumulate Float.add (Float.Fin 0) data)
           !! (Z.to_nat w + i)%nat = Some a ->
         (Float.Fin 0 :: np.accumulate Float.add (Float.Fin 0) data) !! i
           = Some b ->
         r !! i = Some (Float.div (Float.sub a b) (whole w)).
Proof.
  intros Hw Hw53. unfold moving_average.
  cbn [np.insert0 np.cumsum np.slice_from np.slice_to np.subtract
       np.as_float64].
  set (C := (Float.Fin 0 :: np.accumulate Float.add (Float.Fin 0) data)).
  set (n := length data) in *.
  assert (HC : length C = S n).
  { subst C. cbn [length]. rewrite length_accumulate. reflexivity. }
  set (k := Z.to_nat w).
  assert (Hk : (1 <= k <= S n)%nat) by lia.
  assert (Hwk : w = Z.of_nat k) by lia. clearbody k. subst w.
  rewrite (slices_broadcast _ C n k HC Hk). cbn [bind_result].
  rewrite to_float_whole by lia. cbn [bind_result np.true_divide].
  eexists. split; [reflexivity|]. cbn [np.as_float64].
  rewrite !length_map, length_zip_with, length_drop, length_take, HC.
  split; [lia|]. intros i a b Hi Ha Hb.
  rewrite !lookup_map.
  rewrite (lookup_slices _ C n k i a b HC Hk Ha Hb) by lia.
  reflexivity.
Qed.

(** The result has [len(data) - w + 1] entries, whatever the array holds. *)
Lemma moving_average_length (a : np.ndarray) (w : Z) :
  (1 <= w <= Z.of_nat (np.size a) + 1)%Z -> (w < 2 ^ 53)%Z ->
  trailing_length a w.
Proof.
  intros Hw Hw53. unfold trailing_length. destruct a as [data|data].
  - destruct (moving_average_int64 data w Hw Hw53) as (r & Hr & Hlen & _).
    eauto.
  - destruct (moving_average_float64 data w Hw Hw53) as (r & Hr & Hlen & _).
    eauto.
Qed.

(** C7, amended: for a window [w] between 1 and [len(data) + 1] (and of
    fewer than 53 bits), the result of [moving_average] has
    [len(data) - w + 1] entries, on every array; on an int64 array whose
    windows have sums of at most 53 bits, and on a float64 array of whole
    numbers whose magnitudes sum to at most 53 bits, each entry is the
    double nearest to the mean of its window of [w] consecutive
    elements. *)
Theorem moving_average_means (data : list Z) (w : Z)
    (Hw : (1 <= w <= Z.of_nat (length data) + 1)%Z)
    (Hw53 : (w < 2 ^ 53)%Z) :
  (windows_within data w -> trailing_means (np.int64 data) data w)
  /\ ((sum_abs data <= 2 ^ 53)%Z ->
      trailing_means (np.float64 (map whole data)) data w)
  /\ (forall a : np.ndarray, np.size a = length data -> trailing_length a w).
Proof.
  split; [|split].
  - intros Hwin.
    destruct (moving_average_int64 data w Hw Hw53) as (r & Hr & Hlen & Hent).
    exists r. split; [exact Hr|]. split; [exact Hlen|].
    intros i Hi. rewrite (Hent i Hi).
    specialize (Hwin i ltac:(lia)).
    assert (2 ^ 53 < 2 ^ 63)%Z by (apply Z.pow_lt_mono_r; lia).
    rewrite wrap_small by lia. rewrite round_whole by exact Hwin.
    fold (whole (window_sum data (Z.to_nat w) i)).
    rewrite whole_div by lia.
    unfold window_mean. rewrite Z2Nat.id by lia. reflexivity.
  - intros Hsum.
    destruct (moving_average_float64 (map whole data) w
                ltac:(rewrite length_map; exact Hw) Hw53)
      as (r & Hr & Hlen & Hent).
    rewrite length_map in Hlen.
    exists r. split; [exact Hr|]. split; [exact Hlen|].
    intros i Hi.
    rewrite (Hent i (whole (sum_Z (take (Z.to_nat w + i) data)))
               (whole (sum_Z (take i data))) Hi)
      by (apply lookup_cumsum_whole; lia).
    pose proof (abs_window_sum data (Z.to_nat w) i) as Hws.
    rewrite <- prefix_difference in Hws.
    rewrite whole_sub by lia. rewrite prefix_difference.
    rewrite whole_div by lia.
    unfold window_mean. rewrite Z2Nat.id by lia. reflexivity.
  - intros a Ha. apply moving_average_length; [rewrite Ha; exact Hw|exact Hw53].
Qed.

Lemma moving_average_means_witness :
  ((1 <= 2 <= Z.of_nat (length [1; 2; 3; 4]%Z) + 1)%Z /\ (2 < 2 ^ 53)%Z)
  /\ (sum_abs [1; 2; 3; 4]%Z <= 2 ^ 53)%Z
  /\ trailing_means (np.float64 (map whole [1; 2; 3; 4]%Z)) [1; 2; 3; 4]%Z 2.
Proof.
  split; [split; [cbn [length]; lia|lia]|].
  split; [vm_compute; discriminate|].
  apply (moving_average_means [1; 2; 3; 4]%Z 2);
    [cbn [length]; lia|lia|vm_compute; discriminate].
Defined.

Example moving_average_example :
  moving_average (np.int64 [1; 2; 3; 4]%Z) 2
  = Ok (np.float64 [Float.Fin (q 3 2); Float.Fin (q 5 2); Float.Fin (q 7 2)])
  /\ moving_average (np.float64 (map whole [1; 2; 3; 4]%Z)) 2
     = Ok (np.float64
             [Float.Fin (q 3 2); Float.Fin (q 5 2); Float.Fin (q 7 2)]).
Proof.
  split; vm_compute;
    repeat (f_equal; try (apply Qc_is_canon; reflexivity)).
Qed.

(** A window of zero elements does not broadcast against the data. *)
Example moving_average_window_zero :
  moving_average (np.int64 [1; 2; 3]%Z) 0 = Raise ValueError.
Proof. reflexivity. Qed.

(** Nor is an entry near the mean of its window on every float64 array: in
    the prefix sums of [1e16, 1, 1] the two ones are lost, and the mean of
    the window [1, 1] comes out as 0. *)
Example moving_average_cancellation :
  moving_average
    (np.float64 [whole 10000000000000000; whole 1; whole 1]) 2
  = Ok (np.float64 [whole 5000000000000000; whole 0]).
Proof. vm_compute. do 2 f_equal. Qed.

(** C7 as stated fails for a window longer than [len(data) + 1]: the result
    is empty, and its length is not [len(data) - w + 1]. *)
Lemma moving_average_long_window :
  ~ trailing_means (np.int64 [1; 2; 3]%Z) [1; 2; 3]%Z 5.
Proof.
  intros (r & Hr & Hlen & _).
  assert (Hcode : moving_average (np.int64 [1; 2; 3]%Z) 5
                  = Ok (np.float64 []))
    by reflexivity.
  rewrite Hcode in Hr. inversion Hr; subst r. discriminate Hlen.
Qed.

End MetricsFacts.

(** ** The Checkpoint callback *)

Module CheckpointFacts.
Import Checkpoint.

Section WithTrainer.
Context {T : Type}.

Lemma on_epoch_end_cases (self : Checkpoint.t) (epoch : Z) (trainer : T) :
  on_epoch_end self epoch trainer
  = if freq self =? 0 then Raise ZeroDivisionError
    else if epoch mod freq self =? 0 then Ok [checkpoint trainer None]
    else Ok [].
Proof.
  unfold on_epoch_end, mod_. destruct (freq self =? 0); reflexivity.
Qed.

(** C9: on an epoch-end event the callback calls [trainer.checkpoint()],
    once and without a name, exactly when [epoch % freq] is zero, and makes
    no call otherwise; with [freq = 2] and the epochs 0, 1, 2, 3 the call is
    made for 0 and 2 only; every other event is a no-op. *)
Theorem checkpoint_on_schedule :
  (forall (self : Checkpoint.t) (epoch : Z) (trainer : T),
     (on_epoch_end self epoch trainer = Ok [checkpoint trainer None]
      <-> mod_ epoch (freq self) = Ok 0)
     /\ (on_epoch_end self epoch trainer = Ok [checkpoint trainer None]
         \/ on_epoch_end self epoch trainer = Ok []
         \/ on_epoch_end self epoch trainer = Raise ZeroDivisionError))
  /\ (forall trainer : T,
        map (fun epoch => handle (__init__ 2) (epoch_end epoch) trainer)
            [0; 1; 2; 3]
        = [Ok [checkpoint trainer None]; Ok [];
           Ok [checkpoint trainer None]; Ok []])
  /\ (forall (self : Checkpoint.t) (ev : event) (trainer : T),
        match ev with
        | epoch_end epoch =>
            handle self ev trainer = on_epoch_end self epoch trainer
        | _ => handle self ev trainer = Ok []
        end).
Proof.
  split; [|split; [reflexivity|intros self []; reflexivity]].
  intros self epoch trainer. rewrite on_epoch_end_cases. unfold mod_.
  destruct (Z.eqb_spec (freq self) 0) as [|Hf].
  - split; [split; discriminate|auto].
  - destruct (Z.eqb_spec (epoch mod freq self) 0) as [Hm|Hm].
    + split; [|auto]. rewrite Hm. split; reflexivity.
    + split; [|auto]. split; [discriminate|].
      intros H. inversion H. contradiction.
Qed.

End WithTrainer.

End CheckpointFacts.

(** ** RangeMap *)

Module RangeMapFacts.
Import Utils RangeMapSpec QcFacts.
Local Open Scope Qc_scope.

Lemma below_false mn x : below mn x = false <-> lower_ok mn x.
Proof. destruct mn; simpl; [tauto|apply Qcltb_ge]. Qed.

Lemma above_false mx x : above mx x = false <-> upper_ok mx x.
Proof. destruct mx; simpl; [tauto|apply Qcltb_ge]. Qed.

Lemma contains_pair mn mx x :
  contains (KTuple [mn; mx]) x
  <-> below mn x = false /\ above mx x = false.
Proof.
  rewrite below_false, above_false. split.
  - intros (mn' & mx' & Heq & Hl & Hu). inversion Heq; subst. auto.
  - intros [Hl Hu]. exists mn, mx. auto.
Qed.

Section WithValues.
Context {V : Type}.
Implicit Types (d : list (key * V)) (v : V).

(** One turn of the loop on an interval key. *)
Lemma scan_interval mn mx v d x :
  scan ((KTuple [mn; mx], v) :: d) x
  = if below mn x then scan d x
    else if above mx x then scan d x else Ok v.
Proof. reflexivity. Qed.

Lemma scan_skip mn mx v d x :
  ~ contains (KTuple [mn; mx]) x ->
  scan ((KTuple [mn; mx], v) :: d) x = scan d x.
Proof.
  rewrite contains_pair, scan_interval. intros H.
  destruct (below mn x); [reflexivity|].
  destruct (above mx x); [reflexivity|]. tauto.
Qed.

Lemma scan_hit mn mx v d x :
  contains (KTuple [mn; mx]) x ->
  scan ((KTuple [mn; mx], v) :: d) x = Ok v.
Proof.
  rewrite contains_pair, scan_interval. intros [-> ->]. reflexivity.
Qed.

Lemma contains_decide mn mx x :
  contains (KTuple [mn; mx]) x \/ ~ contains (KTuple [mn; mx]) x.
Proof.
  rewrite contains_pair.
  destruct (below mn x), (above mx x); intuition congruence.
Qed.

Lemma scan_found d x v :
  intervals_only d -> scan d x = Ok v <-> first_containing d x v.
Proof.
  intros Hd. induction Hd as [|[k v'] d (mn & mx & Hk) Hd IH].
  - split; [discriminate|].
    intros (d1 & k & d2 & Heq & _). destruct d1; discriminate.
  - simpl in Hk. subst k.
    destruct (contains_decide mn mx x) as [Hc|Hc].
    + rewrite scan_hit by exact Hc. split.
      * intros H. inversion H; subst.
        exists [], (KTuple [mn; mx]), d. repeat split; auto. constructor.
      * intros (d1 & k & d2 & Heq & Hk & Hnone).
        destruct d1 as [|kv d1]; cbn [app] in Heq; inversion Heq; subst.
        -- reflexivity.
        -- inversion Hnone; subst. contradiction.
    + rewrite scan_skip by exact Hc. rewrite IH. split.
      * intros (d1 & k & d2 & Heq & Hk & Hnone). subst d.
        exists ((KTuple [mn; mx], v') :: d1), k, d2.
        repeat split; auto. constructor; auto.
      * intros (d1 & k & d2 & Heq & Hk & Hnone).
        destruct d1 as [|kv d1]; cbn [app] in Heq; inversion Heq; subst.
        -- contradiction.
        -- inversion Hnone; subst. exists d1, k, d2. auto.
Qed.

Lemma scan_not_found d x :
  intervals_only d -> scan d x = Raise KeyError <-> none_contains d x.
Proof.
  intros Hd. induction Hd as [|[k v'] d (mn & mx & Hk) Hd IH].
  - split; [constructor|reflexivity].
  - simpl in Hk. subst k.
    destruct (contains_decide mn mx x) as [Hc|Hc].
    + rewrite scan_hit by exact Hc. split; [discriminate|].
      intros H. inversion H; subst. contradiction.
    + rewrite scan_skip by exact Hc. rewrite IH. split.
      * intros H. constructor; auto.
      * intros H. inversion H; auto.
Qed.

Lemma dict_getitem_found d k v :
  dict_getitem d k = Ok v <-> stored_under d k v.
Proof.
  induction d as [|[k' v'] d IH]; cbn [dict_getitem].
  - split; [discriminate|]. intros (d1 & d2 & Heq & _).
    destruct d1; discriminate.
  - destruct (decide (k' = k)) as [->|Hne]; split.
    + intros H. inversion H; subst. exists [], d. split; [reflexivity|constructor].
    + intros (d1 & d2 & Heq & Hno).
      destruct d1 as [|kv d1]; cbn [app] in Heq; inversion Heq; subst.
      * reflexivity.
      * inversion Hno; subst. contradiction.
    + rewrite IH. intros (d1 & d2 & Heq & Hno). subst d.
      exists ((k', v') :: d1), d2. split; [reflexivity|constructor; auto].
    + intros (d1 & d2 & Heq & Hno). apply IH.
      destruct d1 as [|kv d1]; cbn [app] in Heq; inversion Heq; subst.
      * contradiction.
      * inversion Hno; subst. exists d1, d2. auto.
Qed.

Lemma dict_getitem_not_found d k :
  dict_getitem d k = Raise KeyError <-> no_key d k.
Proof.
  induction d as [|[k' v'] d IH]; cbn [dict_getitem].
  - split; [constructor|reflexivity].
  - destruct (decide (k' = k)) as [->|Hne]; split.
    + discriminate.
    + intros H. inversion H; subst. contradiction.
    + rewrite IH. intros H. constructor; auto.
    + intros H. inversion H; subst. apply IH. auto.
Qed.

(** A map built from intervals has only intervals as keys. *)
Lemma dict_setitem_intervals d k v :
  intervals_only d -> is_interval k -> intervals_only (dict_setitem d k v).
Proof.
  intros Hd Hk. induction Hd as [|[k' v'] d Hk' Hd IH]; cbn [dict_setitem].
  - repeat constructor. exact Hk.
  - destruct (decide (k' = k)); constructor; auto.
Qed.

Lemma RangeMap_intervals (items : list (key * V)) :
  Forall (fun kv => is_interval (fst kv)) items ->
  intervals_only (RangeMap items).
Proof.
  unfold RangeMap. assert (H0 : intervals_only ([] : list (key * V)))
    by constructor.
  revert H0. generalize ([] : list (key * V)) as d.
  induction items as [|[k v] items IH]; intros d Hd Hitems; cbn [fold_left].
  - exact Hd.
  - inversion Hitems; subst. apply IH; [|assumption].
    apply dict_setitem_intervals; assumption.
Qed.


End WithValues.

Lemma low_high_intervals : intervals_only low_high.
Proof.
  repeat constructor; simpl; unfold is_interval; eauto.
Qed.


(** The example of the specification. *)
Example low_high_lookups :
  __getitem__ low_high (KAtom (ANum (Q2Qc 5))) = Ok "low"%string
  /\ __getitem__ low_high (KAtom (ANum (Q2Qc 15))) = Ok "high"%string
  /\ __getitem__ low_high (KAtom (ANum (Q2Qc 25))) = Raise KeyError.
Proof. repeat split. Qed.

End RangeMapFacts.

(** ** pretty_size *)

Module PrettySizeFacts.
Import Utils PrettySizeSpec.

Lemma round_half_even_bounds n d :
  n / d <= round_half_even n d <= n / d + 1.
Proof.
  unfold round_half_even.
  destruct (2 * (n mod d) <? d); [lia|].
  destruct (d <? 2 * (n mod d)); [lia|].
  destruct (Z.even (n / d)); lia.
Qed.

(** The rounded quotient is within half a unit of the exact one. *)
Lemma round_half_even_nearest n d :
  0 < d -> 2 * Z.abs (n - round_half_even n d * d) <= d.
Proof.
  intros Hd. unfold round_half_even.
  pose proof (Z.div_mod n d ltac:(lia)) as Hdm.
  pose proof (Z.mod_pos_bound n d Hd) as Hmod.
  destruct (Z.ltb_spec (2 * (n mod d)) d); [nia|].
  destruct (Z.ltb_spec d (2 * (n mod d))); [nia|].
  destruct (Z.even (n / d)); nia.
Qed.

Lemma float_of_int_small b :
  Z.abs b < 2 ^ 53 -> float_of_int b = Ok (inject_Z b).
Proof.
  intros H. unfold float_of_int.
  destruct (Z.ltb_spec (Z.abs b) (2 ^ 53)); [reflexivity|lia].
Qed.

(** One turn of the loop on a float [n/d]. *)
Lemma loop_float n d unit us :
  pretty_size_loop (NFloat (n # d)) (unit :: us)
  = if n <? 1024 * Zpos d
    then Ok (Some (format_1f (n # d) ++ " " ++ unit)%string)
    else pretty_size_loop (NFloat (n # (d * 1024))) us.
Proof.
  cbn [pretty_size_loop lt_1024 to_float bind_result].
  unfold Qle_bool. cbn [Qnum Qden inject_Z].
  replace (1024 * Z.pos d <=? n * 1) with (negb (n <? 1024 * Z.pos d))
    by (rewrite Z.mul_1_r, Z.leb_antisym; reflexivity).
  rewrite negb_involutive.
  destruct (n <? 1024 * Z.pos d); [reflexivity|].
  unfold Qdiv, Qmult, Qinv. cbn [Qnum Qden inject_Z].
  rewrite Z.mul_1_r. reflexivity.
Qed.

Lemma format_1f_nonneg n d :
  0 <= n ->
  format_1f (n # d) = one_decimal (round_half_even (10 * n) (Zpos d)).
Proof.
  intros Hn. unfold format_1f, one_decimal. cbn [Qnum Qden].
  rewrite Z.abs_eq by lia.
  destruct (Z.ltb_spec n 0); [lia|reflexivity].
Qed.

(** The first turn of the loop, on the integer. *)
Lemma loop_int b unit us :
  pretty_size_loop (NInt b) (unit :: us)
  = if b <? 1024
    then f <-! float_of_int b; Ok (Some (format_1f f ++ " " ++ unit)%string)
    else f <-! float_of_int b;
         pretty_size_loop (NFloat (f / inject_Z 1024)%Q) us.
Proof. reflexivity. Qed.

(** The first division, of the integer. *)
Lemma first_division b :
  (inject_Z b / inject_Z 1024)%Q = b # 1024.
Proof.
  unfold Qdiv, Qmult, Qinv. cbn [Qnum Qden inject_Z].
  rewrite Z.mul_1_r. reflexivity.
Qed.

Ltac norm_pow :=
  repeat match goal with
    | |- context [1024 ^ Z.of_nat ?k] =>
        let c := eval vm_compute in (1024 ^ Z.of_nat k) in
        change (1024 ^ Z.of_nat k) with c
    end.

Ltac report k unit :=
  exists k, unit;
  split; [reflexivity|];
  split; [first [left; reflexivity | right; norm_pow; lia]|];
  split; [norm_pow; lia|];
  split; [apply round_half_even_nearest; norm_pow; lia|];
  rewrite ?format_1f_nonneg by lia; reflexivity.

(** Below [1024^5] the size is reported in one of the five units. *)
Lemma pretty_size_formatted b : 0 <= b < 1024 ^ 5 -> sized b.
Proof.
  intros Hb. unfold sized, pretty_size, units.
  rewrite loop_int, float_of_int_small by lia. cbn [bind_result].
  destruct (Z.ltb_spec b 1024).
  { change (inject_Z b) with (b # 1). report 0%nat "bytes"%string. }
  rewrite first_division, loop_float.
  destruct (Z.ltb_spec b (1024 * Z.pos 1024)).
  { report 1%nat "KB"%string. }
  rewrite loop_float.
  destruct (Z.ltb_spec b (1024 * Z.pos (1024 * 1024))).
  { report 2%nat "MB"%string. }
  rewrite loop_float.
  destruct (Z.ltb_spec b (1024 * Z.pos (1024 * 1024 * 1024))).
  { report 3%nat "GB"%string. }
  rewrite loop_float.
  destruct (Z.ltb_spec b (1024 * Z.pos (1024 * 1024 * 1024 * 1024))).
  { report 4%nat "TB"%string. }
  lia.
Qed.

(** An integer from [2^53] up to the overflow threshold converts to a float
    that is an integer of at least [2^52]. *)
Lemma float_of_int_rounds b :
  2 ^ 53 <= b < float_overflow ->
  exists m, float_of_int b = Ok (inject_Z m) /\ 2 ^ 52 <= m.
Proof.
  intros [Hlo Hhi]. unfold float_of_int, float_overflow in *.
  rewrite (Z.abs_eq b) by lia.
  destruct (Z.ltb_spec b (2 ^ 53)); [lia|].
  assert (Hb : 0 < b) by lia.
  pose proof (Z.log2_spec b Hb) as [HL1 HL2].
  assert (HL53 : 53 <= Z.log2 b) by (apply Z.log2_le_pow2; lia).
  assert (HL1023 : Z.log2 b < 1024) by (apply Z.log2_lt_pow2; lia).
  set (e := Z.log2 b - 52) in *.
  assert (He : 1 <= e <= 971) by lia.
  assert (HP : 0 < 2 ^ e) by (apply Z.pow_pos_nonneg; lia).
  assert (HLe : 2 ^ Z.log2 b = 2 ^ 52 * 2 ^ e).
  { replace (Z.log2 b) with (52 + e) by lia.
    rewrite Z.pow_add_r by lia. reflexivity. }
  assert (HLe' : 2 ^ Z.succ (Z.log2 b) = 2 ^ 53 * 2 ^ e).
  { replace (Z.succ (Z.log2 b)) with (53 + e) by lia.
    rewrite Z.pow_add_r by lia. reflexivity. }
  rewrite HLe in HL1. rewrite HLe' in HL2.
  pose proof (round_half_even_bounds b (2 ^ e)) as [Hr1 Hr2].
  assert (Hq1 : 2 ^ 52 <= b / 2 ^ e)
    by (apply Z.div_le_lower_bound; lia).
  assert (Hq2 : b / 2 ^ e < 2 ^ 53)
    by (apply Z.div_lt_upper_bound; lia).
  set (r := round_half_even b (2 ^ e)) in *.
  assert (Hm : r * 2 ^ e < 2 ^ 1024).
  { destruct (Z.eq_dec e 971) as [E|E].
    - subst r. unfold round_half_even in *. rewrite E in *.
      pose proof (Z.div_mod b (2 ^ 971) ltac:(lia)) as Hdm.
      pose proof (Z.mod_pos_bound b (2 ^ 971) ltac:(lia)) as Hmod.
      set (q := b / 2 ^ 971) in *. set (t := b mod 2 ^ 971) in *.
      change (2 ^ 1024) with (2 ^ 53 * 2 ^ 971) in *.
      change (2 ^ 970) with (2 ^ 970 * 1) in Hhi.
      assert (Hpow : 2 ^ 971 = 2 * 2 ^ 970) by reflexivity.
      destruct (Z.ltb_spec (2 * t) (2 ^ 971)); [nia|].
      assert (q < 2 ^ 53 - 1) by nia.
      destruct (Z.ltb_spec (2 ^ 971) (2 * t)); [nia|].
      destruct (Z.even q); nia.
    - assert (Hpe : 2 ^ e <= 2 ^ 970) by (apply Z.pow_le_mono_r; lia).
      change (2 ^ 1024) with (2 ^ 54 * 2 ^ 970).
      assert (r * 2 ^ e <= 2 ^ 53 * 2 ^ 970)
        by (apply Z.mul_le_mono_nonneg; lia).
      lia. }
  destruct (Z.leb_spec (2 ^ 1024) (r * 2 ^ e)); [lia|].
  exists (Z.sgn b * (r * 2 ^ e)). split; [reflexivity|].
  rewrite Z.sgn_pos by lia. nia.
Qed.

(** From [1024^5] up to the overflow threshold, no unit applies. *)
Lemma pretty_size_none b :
  1024 ^ 5 <= b < float_overflow -> pretty_size b = Ok None.
Proof.
  intros Hb.
  assert (Hf : exists m, float_of_int b = Ok (inject_Z m) /\ 1024 ^ 5 <= m).
  { destruct (Z.lt_ge_cases b (2 ^ 53)).
    - exists b. split; [apply float_of_int_small|]; lia.
    - destruct (float_of_int_rounds b ltac:(lia)) as (m & Hm & Hge).
      exists m. split; [exact Hm|]. lia. }
  destruct Hf as (m & Hm & Hge).
  unfold pretty_size, units. rewrite loop_int, Hm. cbn [bind_result].
  destruct (Z.ltb_spec b 1024); [lia|].
  rewrite first_division.
  repeat (rewrite loop_float;
          match goal with
          | |- context [?x <? ?y] => destruct (Z.ltb_spec x y); [lia|]
          end).
  reflexivity.
Qed.

(** C10, amended: a byte count from 0 to below [1024^5] is reported as its
    value in the unit reached by successive division by 1024, to one decimal
    place; from [1024^5] to below the least integer that does not convert to
    a float, the result is [None]. *)
Theorem pretty_size_cases (b : Z) (Hb : 0 <= b < float_overflow) :
  if b <? 1024 ^ 5 then sized b else pretty_size b = Ok None.
Proof.
  destruct (Z.ltb_spec b (1024 ^ 5)).
  - apply pretty_size_formatted. lia.
  - apply pretty_size_none. lia.
Qed.

Lemma pretty_size_cases_witness :
  0 <= 2048 < float_overflow /\ sized 2048.
Proof.
  split; [unfold float_overflow; lia|].
  apply (pretty_size_cases 2048). unfold float_overflow. lia.
Defined.

(** The examples of the specification. *)
Example pretty_size_examples :
  pretty_size 500 = Ok (Some "500.0 bytes"%string)
  /\ pretty_size 2048 = Ok (Some "2.0 KB"%string)
  /\ pretty_size (1024 * 1024 * 3) = Ok (Some "3.0 MB"%string).
Proof. repeat split; vm_compute; reflexivity. Qed.

(** The threshold is exact. *)
Example pretty_size_at_threshold :
  pretty_size (float_overflow - 1) = Ok None
  /\ pretty_size float_overflow = Raise OverflowError.
Proof. split; vm_compute; reflexivity. Qed.

Example pretty_size_huge : pretty_size (2 ^ 1024) = Raise OverflowError.
Proof. vm_compute. reflexivity. Qed.

(** C10 as stated fails for an integer that does not convert to a float:
    the first division raises OverflowError, and nothing is returned. *)
Lemma pretty_size_overflow :
  1024 ^ 5 <= 2 ^ 1024 /\ pretty_size (2 ^ 1024) <> Ok None.
Proof. split; [lia|]. rewrite pretty_size_huge. discriminate. Qed.

End PrettySizeFacts.

(** ** More on the utilities *)

Module UtilsMoreFacts.
Import Utils UtilsMore UtilsMoreSpec CounterSpec RangeMapSpec.
#[local] Set Warnings "-clear-no-such-hyp".

(** *** counter *)

(** X11: with a step that does not ascend and a nonzero bound above the
    start, [counter] never stops: it yields every term of the progression. *)
Theorem counter_never_stops (start e step : Z)
    (He : e <> 0) (Hstep : step <= 0) (Hstart : start < e) :
  forall n : nat,
    take_gen counter_next n (counter start (Some e) step)
    = (terms start step n, false).
Proof. intros n. apply CounterFacts.counter_not_ascending; assumption. Qed.

Lemma counter_never_stops_witness :
  (5 <> 0 /\ -1 <= 0 /\ 0 < 5)
  /\ take_gen counter_next 3 (counter 0 (Some 5) (-1)) = ([0; -1; -2], false).
Proof.
  split; [lia|]. apply (counter_never_stops 0 5 (-1)); lia.
Defined.

(** X1: a bounded [counter] yields nothing at all exactly when the bound is
    zero or the start is not below the bound. *)
Theorem counter_empty_iff (start e step : Z) (fuel : nat) :
  take_gen counter_next (S fuel) (counter start (Some e) step) = ([], true)
  <-> e = 0 \/ e <= start.
Proof.
  cbn [take_gen]. rewrite CounterFacts.counter_next_bounded.
  destruct (Z.eqb_spec e 0); [tauto|].
  destruct (Z.ltb_spec start e).
  - destruct (take_gen _ _ _) as [l fin]. split; [discriminate|lia].
  - split; [lia|reflexivity].
Qed.

(** *** truthy *)

(** X2: [truthy] keeps exactly the truthy items, in their order: every item
    of the result is truthy, an item is in the result exactly when it is a
    truthy item of the input, filtering twice changes nothing, and the
    result of a concatenation is the concatenation of the results. *)
Theorem truthy_filter (items more : list Supervised.value) :
  Forall (fun x => Supervised.truth x = true) (truthy items)
  /\ (forall x, x ∈ truthy items <-> x ∈ items /\ Supervised.truth x = true)
  /\ truthy items `sublist_of` items
  /\ truthy (truthy items) = truthy items
  /\ truthy (items ++ more) = truthy items ++ truthy more.
Proof.
  unfold truthy. split; [|split; [|split; [|split]]].
  - apply Forall_forall. intros x Hx.
    apply list_elem_of_filter in Hx. tauto.
  - intros x. rewrite list_elem_of_filter. tauto.
  - apply sublist_filter.
  - induction items as [|x items IH]; [reflexivity|].
    rewrite filter_cons. destruct (decide (Supervised.truth x = true)) as [H|H].
    + rewrite filter_cons, decide_True by exact H. f_equal. exact IH.
    + exact IH.
  - apply filter_app.
Qed.

(** *** str2bool *)

Lemma lower_upper_ascii c : lower_ascii (upper_ascii c) = lower_ascii c.
Proof. destruct c as [[] [] [] [] [] [] [] []]; reflexivity. Qed.

Lemma lower_lower_ascii c : lower_ascii (lower_ascii c) = lower_ascii c.
Proof. destruct c as [[] [] [] [] [] [] [] []]; reflexivity. Qed.

Lemma lower_upper s : lower (upper s) = lower s.
Proof.
  induction s as [|c s IH]; [reflexivity|].
  cbn [upper lower]. rewrite lower_upper_ascii, IH. reflexivity.
Qed.

Lemma lower_lower s : lower (lower s) = lower s.
Proof.
  induction s as [|c s IH]; [reflexivity|].
  cbn [lower]. rewrite lower_lower_ascii, IH. reflexivity.
Qed.

(** [str2bool] does not depend on the case of the letters: a string, its
    upper-case form and its lower-case form give the same result; and a
    boolean is returned as it is. *)
Theorem str2bool_case_insensitive (s : string) (b : bool) :
  str2bool (a_str (upper s)) = str2bool (a_str s)
  /\ str2bool (a_str (lower s)) = str2bool (a_str s)
  /\ str2bool (a_bool b) = returns b.
Proof.
  unfold str2bool. rewrite lower_upper, lower_lower. auto.
Qed.

(** *** progress *)

Lemma progress_loop_lookup {A} (text : Z -> string) (it : list A) :
  forall (n : Z) (i : nat),
    progress_loop text n it !! i
    = (fun x => (text (n + Z.of_nat i), x)) <$> it !! i.
Proof.
  induction it as [|x it IH]; intros n i; [reflexivity|].
  destruct i as [|i]; cbn [progress_loop].
  - cbn. rewrite Z.add_0_r. reflexivity.
  - change ((text n, x) :: progress_loop text (n + 1) it) with
      ([(text n, x)] ++ progress_loop text (n + 1) it).
    change (x :: it) with ([x] ++ it).
    rewrite !(lookup_app_r [_]) by (cbn [length]; lia).
    cbn [length]. replace (S i - 1)%nat with i by lia.
    rewrite IH. replace (n + 1 + Z.of_nat i) with (n + Z.of_nat (S i)) by lia.
    reflexivity.
Qed.

Lemma progress_loop_items {A} (text : Z -> string) (it : list A) :
  forall n, map snd (progress_loop text n it) = it.
Proof.
  induction it as [|x it IH]; intros n; [reflexivity|].
  cbn [progress_loop map snd]. rewrite IH. reflexivity.
Qed.

(** X3: [progress] yields the items of [it] unchanged and in order, and
    writes one text before each: a carriage return and the 1-based position
    of the item, followed by [" / total"] when there is a total other than
    zero; the total is [num] if it is given and not zero, and else
    [len(it)] if [it] has a length. *)
Theorem progress_passes_items {A} (it : list A) (has_len : bool)
    (num : option Z) :
  map snd (progress it has_len num) = it
  /\ forall i : nat,
       progress it has_len num !! i
       = (fun x => (progress_text (shown_total it has_len num) i, x))
           <$> it !! i.
Proof.
  split.
  - unfold progress.
    destruct (progress_num it has_len num) as [t|]; [destruct (t =? 0)|];
      apply progress_loop_items.
  - intros i. unfold progress, progress_num, shown_total, progress_text.
    assert (Hloop : forall text : Z -> string,
              progress_loop text 1 it !! i
              = (fun x => (text (Z.of_nat i + 1), x)) <$> it !! i).
    { intros text. rewrite progress_loop_lookup.
      replace (1 + Z.of_nat i) with (Z.of_nat i + 1) by lia. reflexivity. }
    destruct num as [n|]; cbv zeta.
    + destruct (Z.eqb_spec n 0) as [->|Hn].
      * change (0 =? 0) with true. cbv iota.
        destruct has_len; [|apply Hloop].
        destruct (Z.of_nat (length it) =? 0); apply Hloop.
      * destruct (Z.eqb_spec n 0); [contradiction|]. apply Hloop.
    + change (0 =? 0) with true. cbv iota.
      destruct has_len; [|apply Hloop].
      destruct (Z.of_nat (length it) =? 0); apply Hloop.
Qed.

(** *** Obj *)

Section ObjFacts.
Context {V : Type} (class_attr : string -> option V).

Lemma Obj_getattr_setattr (self : Obj) k (v : V) name :
  Obj_getattr (Obj_setattr self k v) name
  = if decide (k = name) then Ok v else Obj_getattr self name.
Proof.
  unfold Obj_getattr, Obj_setattr, Obj in *.
  destruct (decide (k = name)) as [->|Hne].
  - rewrite lookup_insert_eq. reflexivity.
  - rewrite lookup_insert_ne by exact Hne. reflexivity.
Qed.

Lemma Obj_getattr_assign_all items : forall (self : Obj) name,
  Obj_getattr (Obj_assign_all self items) name
  = match last_value items name with
    | Some v => Ok (v : V)
    | None => Obj_getattr self name
    end.
Proof.
  induction items as [|[k v] items IH]; intros self name; [reflexivity|].
  unfold Obj_assign_all in *. cbn [fold_left fst snd last_value].
  rewrite IH. destruct (last_value items name); [reflexivity|].
  rewrite Obj_getattr_setattr. destruct (decide (k = name)); reflexivity.
Qed.

(** X4: on an [Obj], reading an attribute after some assignments gives the
    attribute of the class ([dict] or [object]) when the name is one, and
    else the value last assigned to the name; a name that was not assigned
    reads as before the assignments; and reading raises KeyError exactly
    when the name is neither on the class nor stored. *)
Theorem Obj_assign_read (self : Obj) (items : list (string * V))
    (name : string) :
  Obj_read class_attr (Obj_assign_all self items) name
  = match class_attr name with
    | Some m => Ok m
    | None =>
        match last_value items name with
        | Some v => Ok v
        | None => Obj_read class_attr self name
        end
    end
  /\ (Obj_read class_attr self name = Raise KeyError
      <-> class_attr name = None /\ self !! name = None).
Proof.
  unfold Obj_read. split.
  - destruct (class_attr name); [reflexivity|].
    apply Obj_getattr_assign_all.
  - unfold Obj_getattr, Obj in *.
    destruct (class_attr name); [split; [discriminate|intros [? _]; discriminate]|].
    destruct (self !! name); split; try discriminate; auto.
    intros [_ ?]. discriminate.
Qed.

End ObjFacts.

(** *** RangeMap *)

Section RangeMapMore.
Context {V : Type}.
Implicit Types (d items : list (key * V)) (k : key) (v : V).

Lemma dict_get_set_eq d k v : dict_getitem (dict_setitem d k v) k = Ok v.
Proof.
  induction d as [|[k' v'] d IH]; cbn [dict_setitem dict_getitem].
  - rewrite decide_True by reflexivity. reflexivity.
  - destruct (decide (k' = k)) as [->|Hne]; cbn [dict_getitem].
    + rewrite decide_True by reflexivity. reflexivity.
    + rewrite decide_False by exact Hne. exact IH.
Qed.

Lemma dict_get_set_ne d k k' v :
  k <> k' -> dict_getitem (dict_setitem d k v) k' = dict_getitem d k'.
Proof.
  intros Hne. induction d as [|[k0 v0] d IH]; cbn [dict_setitem dict_getitem].
  - rewrite decide_False by exact Hne. reflexivity.
  - destruct (decide (k0 = k)) as [->|Hne0]; cbn [dict_getitem].
    + rewrite !decide_False by exact Hne. reflexivity.
    + destruct (decide (k0 = k')); [reflexivity|exact IH].
Qed.

Lemma dict_get_fold items : forall d k,
  dict_getitem
    (fold_left (fun d kv => dict_setitem d (fst kv) (snd kv)) items d) k
  = match last_assigned items k with
    | Some v => Ok v
    | None => dict_getitem d k
    end.
Proof.
  induction items as [|[k0 v0] items IH]; intros d k; [reflexivity|].
  cbn [fold_left last_assigned fst snd]. rewrite IH.
  destruct (last_assigned items k); [reflexivity|].
  destruct (decide (k0 = k)) as [->|Hne].
  - apply dict_get_set_eq.
  - apply dict_get_set_ne. exact Hne.
Qed.

(** X5: looking a tuple key up in a map built from [items] gives the value
    of the last item with that key, and raises KeyError when no item has
    it. *)
Theorem RangeMap_last_assignment items (t : list atom) :
  __getitem__ (RangeMap items) (KTuple t)
  = match last_assigned items (KTuple t) with
    | Some v => Ok v
    | None => Raise KeyError
    end.
Proof. unfold RangeMap. cbn [__getitem__]. rewrite dict_get_fold. reflexivity. Qed.

Lemma keys_setitem d k v :
  keys (dict_setitem d k v)
  = if decide (k ∈ keys d) then keys d else keys d ++ [k].
Proof.
  unfold keys. induction d as [|[k' v'] d IH]; cbn [dict_setitem map fst].
  - rewrite decide_False by set_solver. reflexivity.
  - destruct (decide (k' = k)) as [->|Hne]; cbn [map fst].
    + rewrite decide_True by set_solver. reflexivity.
    + rewrite IH. destruct (decide (k ∈ map fst d)).
      * rewrite decide_True by set_solver. reflexivity.
      * rewrite decide_False by set_solver. reflexivity.
Qed.

Lemma keys_fold items : forall d,
  NoDup (keys d) ->
  let d' := fold_left (fun d kv => dict_setitem d (fst kv) (snd kv)) items d in
  NoDup (keys d') /\ forall k, k ∈ keys d' <-> k ∈ keys d \/ k ∈ map fst items.
Proof.
  induction items as [|[k0 v0] items IH]; intros d Hd; cbn [fold_left fst snd].
  - split; [exact Hd|]. intros k. cbn [map]. set_solver.
  - assert (Hd' : NoDup (keys (dict_setitem d k0 v0))).
    { rewrite keys_setitem. destruct (decide (k0 ∈ keys d)); [exact Hd|].
      apply NoDup_app. split; [exact Hd|]. split; [set_solver|].
      apply NoDup_singleton. }
    destruct (IH _ Hd') as [Hnd Hk]. split; [exact Hnd|].
    intros k. rewrite Hk, keys_setitem. cbn [map fst].
    destruct (decide (k0 ∈ keys d)); set_solver.
Qed.

(** X6: the keys of a map built from [items] are distinct, and they are the
    keys of the items. *)
Theorem RangeMap_keys items :
  NoDup (keys (RangeMap items))
  /\ forall k, k ∈ keys (RangeMap items) <-> k ∈ map fst items.
Proof.
  unfold RangeMap.
  destruct (keys_fold items [] (NoDup_nil_2 : NoDup (keys ([] : list (key * V)))))
    as [Hnd Hk].
  split; [exact Hnd|]. intros k. rewrite Hk. cbn [keys map]. set_solver.
Qed.

Lemma head_fold items : forall k v d,
  exists d',
    fold_left (fun d kv => dict_setitem d (fst kv) (snd kv)) items ((k, v) :: d)
    = (k, default v (last_assigned items k)) :: d'.
Proof.
  induction items as [|[k0 v0] items IH]; intros k v d;
    cbn [fold_left last_assigned fst snd dict_setitem].
  - eauto.
  - destruct (decide (k = k0)) as [->|Hne].
    + rewrite decide_True by reflexivity.
      destruct (IH k0 v0 d) as [d' Hd']. exists d'. rewrite Hd'.
      destruct (last_assigned items k0); reflexivity.
    + rewrite !(decide_False (P := k0 = k)) by congruence.
      destruct (IH k v (dict_setitem d k0 v0)) as [d' Hd']. exists d'.
      rewrite Hd'. destruct (last_assigned items k); reflexivity.
Qed.

(** X7: when the first item of the construction is an interval that
    contains the number looked up, the lookup returns the value last
    assigned to that interval: a later assignment to the same interval
    changes its value and keeps its priority over the other intervals. *)
Theorem RangeMap_first_interval_wins (mn mx : atom) (v : V) items (x : Qc)
    (Hx : contains (KTuple [mn; mx]) x) :
  __getitem__ (RangeMap ((KTuple [mn; mx], v) :: items)) (KAtom (ANum x))
  = Ok (default v (last_assigned items (KTuple [mn; mx]))).
Proof.
  destruct (head_fold items (KTuple [mn; mx]) v []) as [d' Hd'].
  unfold RangeMap, dict.
  change (fold_left (fun d kv => dict_setitem d (fst kv) (snd kv))
            ((KTuple [mn; mx], v) :: items) [])
    with (fold_left (fun d kv => dict_setitem d (fst kv) (snd kv))
            items [(KTuple [mn; mx], v)]).
  rewrite Hd'. apply RangeMapFacts.scan_hit. exact Hx.
Qed.

(** X8: a key that is not a pair stops the lookup of a number with an
    error, when no interval before it contains the number: TypeError for a
    key that is not a tuple, ValueError for a tuple of another length. *)
Theorem RangeMap_malformed_key d1 d2 k v (x : Qc)
    (Hd1 : intervals_only d1) (Hnone : none_contains d1 x) :
  __getitem__ (d1 ++ (k, v) :: d2) (KAtom (ANum x))
  = match k with
    | KAtom _ => Raise TypeError
    | KTuple [_; _] => scan ((k, v) :: d2) x
    | KTuple _ => Raise ValueError
    end.
Proof.
  cbn [__getitem__].
  induction Hd1 as [|[k1 v1] d1 (mn & mx & Hk) Hd1 IH]; cbn [app].
  - destruct k as [a|[|a [|b [|c t]]]]; reflexivity.
  - simpl in Hk. subst k1. inversion Hnone; subst.
    rewrite RangeMapFacts.scan_skip by assumption. apply IH. assumption.
Qed.

End RangeMapMore.

Lemma RangeMap_first_interval_wins_witness :
  contains (KTuple [ANum (Q2Qc 0); ANum (Q2Qc 10)]) (Q2Qc 5)
  /\ __getitem__
       (RangeMap [(KTuple [ANum (Q2Qc 0); ANum (Q2Qc 10)], "low");
                  (KTuple [ANone; ANone], "any");
                  (KTuple [ANum (Q2Qc 0); ANum (Q2Qc 10)], "LOW")]%string)
       (KAtom (ANum (Q2Qc 5)))
     = Ok "LOW"%string.
Proof.
  assert (H : contains (KTuple [ANum (Q2Qc 0); ANum (Q2Qc 10)]) (Q2Qc 5)).
  { exists (ANum (Q2Qc 0)), (ANum (Q2Qc 10)).
    split; [reflexivity|]. split; discriminate. }
  split; [exact H|].
  exact (RangeMap_first_interval_wins _ _ "low"%string
           [(KTuple [ANone; ANone], "any"%string);
            (KTuple [ANum (Q2Qc 0); ANum (Q2Qc 10)], "LOW"%string)] _ H).
Defined.

Lemma RangeMap_malformed_key_witness :
  (intervals_only ([] : list (key * string))
   /\ none_contains ([] : list (key * string)) (Q2Qc 5))
  /\ __getitem__ ([(KAtom (ANum (Q2Qc 3)), "three"%string)])
       (KAtom (ANum (Q2Qc 5)))
     = Raise TypeError.
Proof.
  assert (H1 : intervals_only ([] : list (key * string))) by constructor.
  assert (H2 : none_contains ([] : list (key * string)) (Q2Qc 5))
    by constructor.
  split; [split; assumption|].
  exact (RangeMap_malformed_key [] [] (KAtom (ANum (Q2Qc 3))) "three"%string
           (Q2Qc 5) H1 H2).
Defined.

(** *** pretty_size *)

Lemma round_half_even_unit n : round_half_even n 1 = n.
Proof.
  unfold round_half_even. rewrite Z.mod_1_r, Z.div_1_r. reflexivity.
Qed.

(** X9: an integer below 1024, negative ones included (down to where
    integers convert to floats exactly), is never scaled: it is printed
    whole, with its sign, one decimal [0] and the unit [bytes]. *)
Theorem pretty_size_whole_bytes (b : Z) (Hb : - 2 ^ 53 < b < 1024) :
  pretty_size b = Ok (Some (whole_bytes b)).
Proof.
  unfold pretty_size, units.
  rewrite PrettySizeFacts.loop_int, PrettySizeFacts.float_of_int_small by lia.
  cbn [bind_result].
  destruct (Z.ltb_spec b 1024); [|lia].
  unfold format_1f, whole_bytes, inject_Z. cbn [Qnum Qden].
  rewrite round_half_even_unit.
  replace (10 * Z.abs b / 10) with (Z.abs b)
    by (symmetry; rewrite Z.mul_comm; apply Z.div_mul; lia).
  replace ((10 * Z.abs b) mod 10) with 0
    by (symmetry; rewrite Z.mul_comm; apply Z.mod_mul; lia).
  reflexivity.
Qed.

Lemma pretty_size_whole_bytes_witness :
  - 2 ^ 53 < -5 < 1024 /\ pretty_size (-5) = Ok (Some "-5.0 bytes"%string).
Proof.
  split; [lia|]. apply (pretty_size_whole_bytes (-5)). lia.
Defined.

(** X10: from 1024 to below [1024^5], the figure printed is between 1.0 and
    1024.0 and its unit is not [bytes]: the result is the text of a number
    of tenths between 10 and 10240, followed by KB, MB, GB or TB. *)
Theorem pretty_size_scaled_range (b : Z) (Hb : 1024 <= b < 1024 ^ 5) :
  exists (t : Z) (unit : string),
    pretty_size b
    = Ok (Some (PrettySizeSpec.one_decimal t ++ " " ++ unit)%string)
    /\ 10 <= t <= 10240
    /\ unit ∈ ["KB"; "MB"; "GB"; "TB"]%string.
Proof.
  destruct (PrettySizeFacts.pretty_size_formatted b ltac:(lia))
    as (k & unit & Hu & Hk & Hlt & _ & Heq).
  exists (PrettySizeSpec.tenths b k), unit. split; [exact Heq|].
  unfold PrettySizeSpec.tenths.
  pose proof (PrettySizeFacts.round_half_even_bounds (10 * b)
                (1024 ^ Z.of_nat k)) as [Hr1 Hr2].
  destruct k as [|[|[|[|[|k]]]]]; try discriminate Hu;
    inversion Hu; subst unit;
    (destruct Hk as [Hk|Hk]; [try discriminate Hk|]);
    try (exfalso; change (1024 ^ Z.of_nat 1) with 1024 in Hlt; lia);
    match type of Hr1 with
    | context [1024 ^ Z.of_nat ?j] =>
        let c := eval vm_compute in (1024 ^ Z.of_nat j) in
        change (1024 ^ Z.of_nat j) with c in *
    end;
    match type of Hlt with
    | context [1024 ^ Z.of_nat ?j] =>
        let c := eval vm_compute in (1024 ^ Z.of_nat j) in
        change (1024 ^ Z.of_nat j) with c in *
    end;
    (split; [|set_solver]);
    match type of Hr1 with
    | ?q <= _ =>
        assert (10 <= q) by (apply Z.div_le_lower_bound; lia);
        assert (q < 10240) by (apply Z.div_lt_upper_bound; lia)
    end; lia.
Qed.

Lemma pretty_size_scaled_range_witness :
  1024 <= 2048 < 1024 ^ 5
  /\ exists (t : Z) (unit : string),
       pretty_size 2048
       = Ok (Some (PrettySizeSpec.one_decimal t ++ " " ++ unit)%string)
       /\ 10 <= t <= 10240
       /\ unit ∈ ["KB"; "MB"; "GB"; "TB"]%string.
Proof.
  split; [lia|]. apply (pretty_size_scaled_range 2048). lia.
Defined.

(** From [2^1024 - 2^970] on, an [int] does not convert to a [float]. *)
Lemma float_of_int_overflows b :
  (PrettySizeSpec.float_overflow <= b)%Z ->
  Utils.float_of_int b = Raise OverflowError.
Proof.
  intros Hb. unfold PrettySizeSpec.float_overflow in Hb.
  set (P := (2 ^ 970)%Z) in *.
  assert (HP : (0 < P)%Z) by (subst P; apply Z.pow_pos_nonneg; lia).
  assert (H1024 : (2 ^ 1024 = 2 ^ 54 * P)%Z)
    by (subst P; rewrite <- Z.pow_add_r by lia; reflexivity).
  assert (H1023 : (2 ^ 1023 = 2 ^ 53 * P)%Z)
    by (subst P; rewrite <- Z.pow_add_r by lia; reflexivity).
  assert (H971 : (2 ^ 971 = 2 * P)%Z)
    by (subst P; change (2 ^ 971)%Z with (2 ^ (1 + 970))%Z;
        rewrite Z.pow_add_r by lia; reflexivity).
  assert (H53 : (2 ^ 53 < 2 ^ 1023)%Z) by (apply Z.pow_lt_mono_r; lia).
  rewrite H1024 in Hb.
  unfold Utils.float_of_int. rewrite (Z.abs_eq b) by lia.
  destruct (Z.ltb_spec b (2 ^ 53)); [lia|].
  assert (Hb0 : (0 < b)%Z) by lia.
  pose proof (Z.log2_spec b Hb0) as [Hlo Hhi].
  set (L := Z.log2 b) in *.
  assert (HL : (1023 <= L)%Z).
  { destruct (Z.lt_ge_cases L 1023) as [Hlt|]; [exfalso|lia].
    assert (2 ^ Z.succ L <= 2 ^ 1023)%Z by (apply Z.pow_le_mono_r; lia).
    change (2 ^ 54)%Z with (2 * 2 ^ 53)%Z in Hb. lia. }
  set (e := (L - 52)%Z).
  assert (He : (0 < 2 ^ e)%Z) by (apply Z.pow_pos_nonneg; lia).
  assert (HLe : (2 ^ L = 2 ^ 52 * 2 ^ e)%Z)
    by (subst e; rewrite <- Z.pow_add_r by lia; f_equal; lia).
  pose proof (PrettySizeFacts.round_half_even_bounds b (2 ^ e)) as [Hm _].
  assert (Hq : (2 ^ 52 <= b / 2 ^ e)%Z)
    by (apply Z.div_le_lower_bound; lia).
  destruct (Z.lt_ge_cases 1023 L) as [Hbig|Heq].
  - assert (2 ^ 1024 <= 2 ^ L)%Z by (apply Z.pow_le_mono_r; lia).
    destruct (Z.leb_spec (2 ^ 1024)
                (Utils.round_half_even b (2 ^ e) * 2 ^ e));
      [reflexivity|nia].
  - assert (L = 1023%Z) by lia. subst e. replace (L - 52)%Z with 971%Z in * by lia.
    replace (Z.succ L) with 1024%Z in Hhi by lia.
    rewrite H971 in *. rewrite H1024 in Hhi.
    assert (Hdiv : (b / (2 * P) = 2 ^ 53 - 1)%Z).
    { change (2 ^ 54)%Z with (2 * 2 ^ 53)%Z in *.
      apply Z.le_antisymm.
      - apply Z.lt_succ_r, Z.div_lt_upper_bound; lia.
      - apply Z.div_le_lower_bound; lia. }
    assert (Hr : (2 * P <= 2 * (b mod (2 * P)))%Z).
    { pose proof (Z.div_mod b (2 * P) ltac:(lia)) as Hdm.
      rewrite Hdiv in Hdm. change (2 ^ 54)%Z with (2 * 2 ^ 53)%Z in *. lia. }
    assert (Hrhe : Utils.round_half_even b (2 * P) = (2 ^ 53)%Z).
    { unfold Utils.round_half_even. rewrite Hdiv.
      destruct (Z.ltb_spec (2 * (b mod (2 * P))) (2 * P)); [lia|].
      destruct (Z.ltb_spec (2 * P) (2 * (b mod (2 * P)))); [reflexivity|].
      reflexivity. }
    rewrite Hrhe.
    destruct (Z.leb_spec (2 ^ 1024) (2 ^ 53 * (2 * P))); [reflexivity|].
    change (2 ^ 54)%Z with (2 * 2 ^ 53)%Z in *. lia.
Qed.

(** X14: for a byte count that is not negative, [pretty_size] raises
    OverflowError exactly from [2^1024 - 2^970] on, the first integer that
    does not convert to a float; below it returns. *)
Theorem pretty_size_overflow_threshold (b : Z) (Hb : 0 <= b) :
  pretty_size b = Raise OverflowError <-> PrettySizeSpec.float_overflow <= b.
Proof.
  split.
  - intros H.
    destruct (Z.lt_ge_cases b PrettySizeSpec.float_overflow) as [Hlt|];
      [exfalso|assumption].
    destruct (Z.lt_ge_cases b (1024 ^ 5)) as [Hsmall|Hlarge].
    + destruct (PrettySizeFacts.pretty_size_formatted b ltac:(lia))
        as (k & unit & _ & _ & _ & _ & Heq).
      rewrite Heq in H. discriminate H.
    + rewrite (PrettySizeFacts.pretty_size_none b ltac:(lia)) in H.
      discriminate H.
  - intros H. unfold pretty_size, units.
    rewrite PrettySizeFacts.loop_int, float_of_int_overflows by exact H.
    assert (1024 <= b) by (unfold PrettySizeSpec.float_overflow in H; lia).
    destruct (Z.ltb_spec b 1024); [lia|reflexivity].
Qed.

Lemma pretty_size_overflow_threshold_witness :
  0 <= 2 ^ 1024
  /\ (pretty_size (2 ^ 1024) = Raise OverflowError
      <-> PrettySizeSpec.float_overflow <= 2 ^ 1024).
Proof.
  split; [lia|]. apply (pretty_size_overflow_threshold (2 ^ 1024)). lia.
Defined.

End UtilsMoreFacts.
(** ** More on the meters and the averages *)

Module MetricsMoreFacts.
Import Metrics MetricsSpec MetricsMoreSpec QcFacts FloatFacts.
Import Number(PyInt, PyFloat).
Local Open Scope Qc_scope.
#[local] Set Warnings "-clear-no-such-hyp".

Lemma of_int_pos z : (0 < z)%Z -> 0 < of_int z.
Proof.
  intros Hz. unfold of_int, Qclt. cbn [this Q2Qc].
  rewrite !Qred_correct. unfold Qlt. simpl. lia.
Qed.

Lemma Qcle_div_r a b c : 0 < c -> a <= b * c -> a / c <= b.
Proof.
  intros Hc H. apply (Qcmult_le_mono_pos_r _ _ c Hc).
  rewrite test_field; [exact H|].
  intros ->. apply (Qclt_not_eq _ _ Hc). reflexivity.
Qed.

Lemma Qcle_div_l a b c : 0 < c -> a * c <= b -> a <= b / c.
Proof.
  intros Hc H. apply (Qcmult_le_mono_pos_r _ _ c Hc).
  rewrite test_field; [exact H|].
  intros ->. apply (Qclt_not_eq _ _ Hc). reflexivity.
Qed.

(** *** Meter *)

Lemma is_max_perm hi hi' (l l' : list Z) :
  l ≡ₚ l' -> is_max hi l -> is_max hi' l' -> hi = hi'.
Proof.
  intros Hp [Hin Hall] [Hin' Hall'].
  rewrite Forall_forall in Hall, Hall'.
  rewrite Hp in Hin. rewrite <- Hp in Hin'.
  specialize (Hall _ Hin'). specialize (Hall' _ Hin). lia.
Qed.

Lemma is_min_perm lo lo' (l l' : list Z) :
  l ≡ₚ l' -> is_min lo l -> is_min lo' l' -> lo = lo'.
Proof.
  intros Hp [Hin Hall] [Hin' Hall'].
  rewrite Forall_forall in Hall, Hall'.
  rewrite Hp in Hin. rewrite <- Hp in Hin'.
  specialize (Hall _ Hin'). specialize (Hall' _ Hin). lia.
Qed.

Lemma sum_Z_perm l l' : l ≡ₚ l' -> sum_Z l = sum_Z l'.
Proof.
  induction 1 as [|x l l' _ IH|x y l|l l' l'' _ IH1 _ IH2];
    rewrite ?MetricsFacts.sum_Z_cons; try lia; congruence.
Qed.

(** With [float]s the order of the observations shows: the small one is
    lost when it is added to the large one. *)
Example meter_order_floats :
  Meter.sum (fst (observe [PyFloat (whole 10000000000000000);
                           PyFloat (whole 1);
                           PyFloat (whole (- 10000000000000000))]))
  = PyFloat (whole 0)
  /\ Meter.sum (fst (observe [PyFloat (whole 10000000000000000);
                              PyFloat (whole (- 10000000000000000));
                              PyFloat (whole 1)]))
     = PyFloat (whole 1).
Proof.
  split; vm_compute;
    repeat (f_equal; try (apply Qc_is_canon; reflexivity)).
Qed.

(** X12: a meter of [int] observations does not depend on their order: two
    sequences that are permutations of each other leave equal meters. (On
    [float]s the sum is rounded at every update, and the order shows.) *)
Theorem meter_order_independent (l l' : list Z) (Hp : l ≡ₚ l') :
  observe (ints l) = observe (ints l').
Proof.
  destruct l as [|x l], l' as [|x' l'].
  - reflexivity.
  - apply Permutation_length in Hp. discriminate Hp.
  - apply Permutation_length in Hp. discriminate Hp.
  - destruct (MetricsFacts.observe_ints x l)
      as (m & hi & lo & -> & Hmax & Hhi & Hmin & Hlo & Hs & Hc & _).
    destruct (MetricsFacts.observe_ints x' l')
      as (m' & hi' & lo' & -> & Hmax' & Hhi' & Hmin' & Hlo' & Hs' & Hc' & _).
    f_equal. destruct m as [mx mn sm ct], m' as [mx' mn' sm' ct'].
    cbn [Meter.count Meter.sum Meter.max Meter.min] in *. subst.
    rewrite (is_max_perm _ _ _ _ Hp Hhi Hhi'),
            (is_min_perm _ _ _ _ Hp Hlo Hlo'),
            (sum_Z_perm _ _ Hp), (Permutation_length Hp).
    reflexivity.
Qed.

Lemma meter_order_independent_witness :
  [3; 1; 2]%Z ≡ₚ [1; 3; 2]%Z
  /\ observe (ints [3; 1; 2]%Z) = observe (ints [1; 3; 2]%Z).
Proof.
  assert (H : [3; 1; 2]%Z ≡ₚ [1; 3; 2]%Z) by apply perm_swap.
  split; [exact H|]. exact (meter_order_independent _ _ H).
Defined.

(** *** MovingAvgMeter *)

Lemma queue_fold w l : forall q,
  (length q <= w)%nat ->
  MovingAvgMeter.queue
    (fold_left MovingAvgMeter.update l
       {| MovingAvgMeter.maxlen := Some w; MovingAvgMeter.queue := q |})
  = last_n w (q ++ l)
  /\ MovingAvgMeter.maxlen
       (fold_left MovingAvgMeter.update l
          {| MovingAvgMeter.maxlen := Some w; MovingAvgMeter.queue := q |})
     = Some w.
Proof.
  unfold last_n.
  induction l as [|x l IH]; intros q0 Hq; cbn [fold_left].
  - rewrite app_nil_r. cbn [MovingAvgMeter.queue MovingAvgMeter.maxlen].
    replace (length q0 - w)%nat with 0%nat by lia. auto.
  - unfold MovingAvgMeter.update at 2 4.
    cbn [MovingAvgMeter.queue MovingAvgMeter.maxlen MovingAvgMeter.append].
    set (a := (length (q0 ++ [x]) - w)%nat).
    assert (Ha : (a <= length (q0 ++ [x]))%nat) by lia.
    assert (Hlen : length (drop a (q0 ++ [x])) = (length (q0 ++ [x]) - a)%nat)
      by apply length_drop.
    assert (Hq' : (length (drop a (q0 ++ [x])) <= w)%nat) by lia.
    destruct (IH _ Hq') as [IHq IHm]. split; [|exact IHm].
    rewrite IHq.
    replace (q0 ++ x :: l) with ((q0 ++ [x]) ++ l)
      by (rewrite <- app_assoc; reflexivity).
    rewrite <- (drop_app_le (q0 ++ [x]) l a Ha), drop_drop.
    f_equal. subst a. rewrite length_drop, !length_app in *.
    cbn [length] in *. lia.
Qed.

Lemma observe_window_queue w l :
  MovingAvgMeter.queue (observe_window w l) = last_n w l.
Proof.
  destruct (queue_fold w l [] ltac:(cbn [length]; lia)) as [Hq _].
  exact Hq.
Qed.

Lemma last_n_ints w zs : last_n w (ints zs) = ints (last_n w zs).
Proof.
  unfold last_n, ints. rewrite length_map.
  change (map PyInt) with (fmap (M := list) PyInt). rewrite fmap_drop.
  reflexivity.
Qed.

(** X13: a moving-average meter of window [w] holds the last [w]
    observations (all of them while there are fewer), never more than [w];
    on [int] observations its value is the mean of those it holds, rounded
    to the nearest float, and [None] while it holds none. *)
Theorem moving_avg_meter_window (w : nat) (l : list Number.t) (zs : list Z) :
  MovingAvgMeter.queue (observe_window w l) = last_n w l
  /\ (length (MovingAvgMeter.queue (observe_window w l)) <= w)%nat
  /\ MovingAvgMeter.value (observe_window w (ints zs))
     = match last_n w zs with
       | [] => Ok None
       | _ => v <-! nearest_float (mean (last_n w zs)); Ok (Some v)
       end.
Proof.
  pose proof (observe_window_queue w l) as Hq.
  split; [exact Hq|]. split.
  - rewrite Hq. unfold last_n. rewrite length_drop. lia.
  - unfold MovingAvgMeter.value.
    rewrite observe_window_queue, last_n_ints.
    destruct (last_n w zs) as [|z q0] eqn:E; [reflexivity|].
    change (ints (z :: q0)) with (PyInt z :: ints q0) at 1.
    cbv iota. rewrite MetricsFacts.sum_ints. cbn [bind_result].
    unfold ints at 1. rewrite length_map.
    rewrite MetricsFacts.truediv_ints by (cbn [length]; lia).
    reflexivity.
Qed.

(** *** exp_moving_avg *)

Lemma Qcpower_le_1 a n : 0 <= a <= 1 -> a ^ n <= 1.
Proof.
  intros [H0 H1]. induction n as [|n IH]; cbn [Qcpower].
  - apply Qcle_refl.
  - apply Qcle_trans with (a * 1).
    + apply Qcmult_le_mono_nonneg_l; assumption.
    + rewrite Qcmult_1_r. exact H1.
Qed.

Lemma Qcpower_lt_1 a n : 0 <= a -> a < 1 -> n <> 0%nat -> a ^ n < 1.
Proof.
  intros H0 H1 Hn. destruct n as [|n]; [contradiction|]. cbn [Qcpower].
  apply Qcle_lt_trans with (a * 1).
  - apply Qcmult_le_mono_nonneg_l; [exact H0|].
    apply Qcpower_le_1. split; [exact H0|]. apply Qclt_le_weak, H1.
  - rewrite Qcmult_1_r. exact H1.
Qed.



(** With [alpha = 1] every step count other than zero makes the bias
    correction divide by zero: ZeroDivisionError is raised. *)
Theorem exp_moving_avg_alpha_one (cur prev : Qc) (steps : Z)
    (Hs : steps <> 0%Z) :
  exp_moving_avg cur (Some prev) 1 (Some steps) = Raise ZeroDivisionError.
Proof.
  unfold exp_moving_avg, power.
  destruct (Z.eqb_spec steps 0); [contradiction|].
  assert (E : forall k, truediv (1 * cur + prev * (1 - 1)) (1 - 1 ^ k)
                        = Raise ZeroDivisionError).
  { intros k. unfold truediv. rewrite Qcpower_1.
    destruct (decide (1 - 1 = 0)) as [_|H]; [reflexivity|].
    exfalso. apply H. ring. }
  destruct (steps <? 0)%Z.
  - destruct (decide (1 = 0)) as [H|_]; [discriminate H|].
    cbn [bind_result]. rewrite Qcpower_1.
    replace (/ 1) with (1 ^ 0) by reflexivity. apply E.
  - cbn [bind_result]. apply E.
Qed.

Lemma exp_moving_avg_alpha_one_witness :
  (3 <> 0)%Z
  /\ exp_moving_avg (q 10 1) (Some (q 5 1)) 1 (Some 3%Z)
     = Raise ZeroDivisionError.
Proof.
  split; [lia|]. apply (exp_moving_avg_alpha_one (q 10 1) (q 5 1) 3). lia.
Defined.

(** *** moving_average *)

Lemma unit_window data (i : nat) x :
  data !! i = Some x -> window_sum data 1 i = x.
Proof.
  intros Hx. unfold window_sum.
  rewrite (drop_S data x i Hx).
  change (take 1 (x :: drop (S i) data)) with [x]. cbn. lia.
Qed.

Lemma whole_div_1 x : (Z.abs x <= 2 ^ 53)%Z ->
  Float.div (whole x) (whole 1) = whole x.
Proof.
  intros Hx. rewrite MetricsFacts.whole_div by lia.
  replace (of_int x / of_int 1) with (Float.of_Z x).
  - apply round_whole, Hx.
  - change (of_int 1) with 1. unfold of_int, Float.of_Z. field.
    discriminate.
Qed.

(** X16: with a window of 1, the moving average of an int64 array whose
    elements have at most 53 bits is the array itself, as floats. *)
Theorem moving_average_window_one (data : list Z)
    (Hd : Forall (fun x => (Z.abs x <= 2 ^ 53)%Z) data) :
  moving_average (np.int64 data) 1 = Ok (np.float64 (map whole data)).
Proof.
  destruct (MetricsFacts.moving_average_int64 data 1 ltac:(lia) ltac:(lia))
    as (r & -> & Hlen & Hent).
  do 2 f_equal. apply list_eq. intros i.
  destruct (data !! i) as [x|] eqn:Hx.
  - assert (Hi : (i < length r)%nat).
    { apply lookup_lt_Some in Hx. lia. }
    rewrite (Hent i Hi), MetricsFacts.lookup_map, Hx.
    cbn [fmap option_fmap option_map]. f_equal.
    change (Z.to_nat 1) with 1%nat. rewrite (unit_window _ _ _ Hx).
    rewrite Forall_forall in Hd.
    assert (Hb : (Z.abs x <= 2 ^ 53)%Z).
    { apply Hd. eapply list_elem_of_lookup_2, Hx. }
    assert (2 ^ 53 < 2 ^ 63)%Z by (apply Z.pow_lt_mono_r; lia).
    rewrite wrap_small by lia. rewrite round_whole by exact Hb.
    apply whole_div_1, Hb.
  - rewrite MetricsFacts.lookup_map, Hx. cbn.
    apply lookup_ge_None. apply lookup_ge_None in Hx. lia.
Qed.

Lemma moving_average_window_one_witness :
  Forall (fun x => (Z.abs x <= 2 ^ 53)%Z) [5; -3; 4]%Z
  /\ moving_average (np.int64 [5; -3; 4]%Z) 1
     = Ok (np.float64 (map whole [5; -3; 4]%Z)).
Proof.
  assert (H : Forall (fun x => (Z.abs x <= 2 ^ 53)%Z) [5; -3; 4]%Z)
    by (repeat constructor; vm_compute; discriminate).
  split; [exact H|]. exact (moving_average_window_one _ H).
Defined.

(** The mean of integers whose sum has at most 53 bits is within the
    doubles. *)
Lemma mean_small s n :
  (Z.abs s <= 2 ^ 53)%Z -> (1 <= n)%Z ->
  (Z.abs (Qnum (of_int s / of_int n)%Qc)
   <= 2 ^ 53 * Zpos (Qden (of_int s / of_int n)%Qc))%Z.
Proof.
  intros Hs Hn.
  assert (Hpos : 0 < of_int n) by (apply of_int_pos; lia).
  assert (Hhi : of_int s / of_int n <= Float.of_Z (2 ^ 53)).
  { apply Qcle_div_r; [exact Hpos|].
    change (of_int s) with (Float.of_Z s).
    change (of_int n) with (Float.of_Z n).
    rewrite of_Z_mul. apply of_Z_le. nia. }
  assert (Hlo : Float.of_Z (- 2 ^ 53) <= of_int s / of_int n).
  { apply Qcle_div_l; [exact Hpos|].
    change (of_int s) with (Float.of_Z s).
    change (of_int n) with (Float.of_Z n).
    rewrite of_Z_mul. apply of_Z_le. nia. }
  unfold Qcle, Qle in Hhi, Hlo.
  rewrite of_Z_num, of_Z_den in Hhi, Hlo. lia.
Qed.

Lemma whole_window data : window_sum data (length data) 0 = sum_Z data.
Proof.
  unfold window_sum. rewrite drop_0, firstn_all. reflexivity.
Qed.

(** X17: with a window of the whole length, the moving average of a
    non-empty int64 array whose sum has at most 53 bits has one entry, the
    average that a [Meter] reports after observing the same integers. *)
Theorem moving_average_full_window (x : Z) (l : list Z)
    (Hsum : (Z.abs (sum_Z (x :: l)) <= 2 ^ 53)%Z)
    (Hlen : (Z.of_nat (length (x :: l)) < 2 ^ 53)%Z) :
  exists (f : Float.t) (m : Meter.t),
    moving_average (np.int64 (x :: l)) (Z.of_nat (length (x :: l)))
    = Ok (np.float64 [f])
    /\ observe (ints (x :: l)) = (m, Ok tt)
    /\ Meter.average m = Ok (PyFloat f).
Proof.
  set (data := x :: l) in *.
  assert (Hn : (1 <= Z.of_nat (length data))%Z) by (subst data; cbn [length]; lia).
  destruct (MetricsFacts.moving_average_int64 data (Z.of_nat (length data))
              ltac:(lia) Hlen) as (r & Hr & Hlr & Hent).
  destruct (MetricsFacts.observe_ints x l)
    as (m & _ & _ & Hm & _ & _ & _ & _ & _ & _ & Havg).
  fold data in Hm, Havg.
  destruct (round_small_finite (mean data)
              (mean_small _ _ Hsum Hn)) as [q0 Hq0].
  exists (Float.Fin q0), m. split; [|split; [exact Hm|]].
  - rewrite Hr. do 2 f_equal.
    destruct r as [|f [|f' r]]; cbn [length] in Hlr; try lia.
    f_equal. specialize (Hent 0%nat ltac:(cbn [length]; lia)).
    cbn [lookup list_lookup] in Hent. inversion Hent as [Hf].
    rewrite Nat2Z.id, whole_window.
    assert (2 ^ 53 < 2 ^ 63)%Z by (apply Z.pow_lt_mono_r; lia).
    rewrite wrap_small by lia. rewrite round_whole by exact Hsum.
    fold (whole (sum_Z data)). rewrite MetricsFacts.whole_div by lia.
    exact Hq0.
  - rewrite Havg. unfold nearest_float. rewrite Hq0. reflexivity.
Qed.

Lemma moving_average_full_window_witness :
  ((Z.abs (sum_Z [1; 2; 4]%Z) <= 2 ^ 53)%Z
   /\ (Z.of_nat (length [1; 2; 4]%Z) < 2 ^ 53)%Z)
  /\ exists (f : Float.t) (m : Meter.t),
       moving_average (np.int64 [1; 2; 4]%Z) (Z.of_nat (length [1; 2; 4]%Z))
       = Ok (np.float64 [f])
       /\ observe (ints [1; 2; 4]%Z) = (m, Ok tt)
       /\ Meter.average m = Ok (PyFloat f).
Proof.
  assert (H1 : (Z.abs (sum_Z [1; 2; 4]%Z) <= 2 ^ 53)%Z)
    by (vm_compute; discriminate).
  assert (H2 : (Z.of_nat (length [1; 2; 4]%Z) < 2 ^ 53)%Z)
    by (vm_compute; reflexivity).
  split; [auto|]. exact (moving_average_full_window 1 [2; 4]%Z H1 H2).
Defined.

(** [float(window)] below the threshold *)
Lemma to_float_window w :
  (0 <= w < PrettySizeSpec.float_overflow)%Z ->
  exists f, Number.to_float (PyInt w) = Ok f.
Proof.
  intros Hw. unfold Number.to_float.
  destruct (Z.lt_ge_cases w (2 ^ 53)).
  - rewrite PrettySizeFacts.float_of_int_small by lia. eauto.
  - destruct (PrettySizeFacts.float_of_int_rounds w ltac:(lia))
      as (m & -> & _). eauto.
Qed.

Lemma empty_slices {A} (C : list A) (w : Z) :
  (Z.of_nat (length C) <= w)%Z ->
  drop (np.slice_index C w) C = [] /\ take (np.slice_index C (- w)) C = [].
Proof.
  intros Hw. unfold np.slice_index.
  destruct (Z.ltb_spec w 0); [lia|].
  split.
  - apply drop_ge. lia.
  - destruct (Z.ltb_spec (- w) 0).
    + replace (Z.to_nat (Z.max 0 (Z.of_nat (length C) + - w))) with 0%nat
        by lia. reflexivity.
    + replace (Z.to_nat (Z.min (- w) (Z.of_nat (length C)))) with 0%nat
        by lia. reflexivity.
Qed.

(** X18: a window longer than the data, [window >= len(data) + 1], gives
    the empty result, unless the window is so large that [float(window)]
    raises OverflowError, from [2^1024 - 2^970] on. *)
Theorem moving_average_window_too_long (data : np.ndarray) (w : Z)
    (Hw : (Z.of_nat (np.size data) + 1 <= w)%Z) :
  moving_average data w
  = if (w <? PrettySizeSpec.float_overflow)%Z then Ok (np.float64 [])
    else Raise OverflowError.
Proof.
  assert (Hto : Number.to_float (PyInt w)
                = (if (w <? PrettySizeSpec.float_overflow)%Z
                   then Number.to_float (PyInt w) else Raise OverflowError)).
  { destruct (Z.ltb_spec w PrettySizeSpec.float_overflow); [reflexivity|].
    unfold Number.to_float. rewrite UtilsMoreFacts.float_of_int_overflows by lia.
    reflexivity. }
  unfold moving_average.
  destruct data as [data|data];
    cbn [np.insert0 np.cumsum np.slice_from np.slice_to np.subtract
         np.as_float64 np.size] in *.
  - set (C := (0%Z :: np.accumulate (fun a b => np.wrap (a + b)) 0%Z data)).
    destruct (empty_slices C w) as [-> ->].
    { subst C. cbn [length]. rewrite MetricsFacts.length_accumulate. lia. }
    cbn [np.broadcast bind_result]. rewrite Hto.
    destruct (Z.ltb_spec w PrettySizeSpec.float_overflow); [|reflexivity].
    destruct (to_float_window w ltac:(lia)) as [f ->]. reflexivity.
  - set (C := (Float.Fin 0 :: np.accumulate Float.add (Float.Fin 0) data)).
    destruct (empty_slices C w) as [-> ->].
    { subst C. cbn [length]. rewrite MetricsFacts.length_accumulate. lia. }
    cbn [np.broadcast bind_result]. rewrite Hto.
    destruct (Z.ltb_spec w PrettySizeSpec.float_overflow); [|reflexivity].
    destruct (to_float_window w ltac:(lia)) as [f ->]. reflexivity.
Qed.

Lemma moving_average_window_too_long_witness :
  (Z.of_nat (np.size (np.int64 [1; 2; 3]%Z)) + 1 <= 5)%Z
  /\ moving_average (np.int64 [1; 2; 3]%Z) 5 = Ok (np.float64 []).
Proof.
  split; [cbn; lia|].
  exact (moving_average_window_too_long (np.int64 [1; 2; 3]%Z) 5
           ltac:(cbn; lia)).
Defined.

(** X19: a window of zero fails on every non-empty array, with the
    ValueError of two arrays that do not broadcast; on an empty array it
    gives the empty result. *)
Theorem moving_average_window_zero_fails :
  (forall (x : Z) (l : list Z),
     moving_average (np.int64 (x :: l)) 0 = Raise ValueError)
  /\ (forall (x : Float.t) (l : list Float.t),
        moving_average (np.float64 (x :: l)) 0 = Raise ValueError)
  /\ moving_average (np.int64 []) 0 = Ok (np.float64 [])
  /\ moving_average (np.float64 []) 0 = Ok (np.float64 []).
Proof.
  split; [|split; [|split; reflexivity]]; intros x l; reflexivity.
Qed.

End MetricsMoreFacts.

(** ** More on the Checkpoint callback *)

Module CheckpointMoreFacts.
Import Checkpoint CheckpointMoreSpec.

Section WithTrainer.
Context {T : Type}.

Lemma calls_made_app (self : Checkpoint.t) (trainer : T) es1 es2 :
  freq self <> 0 ->
  calls_made self trainer (es1 ++ es2)
  = calls_made self trainer es1 ++ calls_made self trainer es2.
Proof.
  intros Hf. induction es1 as [|e es1 IH]; [reflexivity|].
  cbn [app calls_made handle].
  rewrite CheckpointFacts.on_epoch_end_cases.
  destruct (Z.eqb_spec (freq self) 0); [contradiction|].
  destruct (e mod freq self =? 0); rewrite IH, ?app_assoc; reflexivity.
Qed.

Lemma div_step n f :
  0 < f -> 0 <= n ->
  (n + 1 + f - 1) / f
  = (n + f - 1) / f + (if n mod f =? 0 then 1 else 0).
Proof.
  intros Hf Hn.
  pose proof (Z.div_mod n f ltac:(lia)) as Hdm.
  pose proof (Z.mod_pos_bound n f Hf) as Hmod.
  set (q := n / f) in *. set (r := n mod f) in *.
  destruct (Z.eqb_spec r 0) as [Hr|Hr].
  - rewrite <- (Z.div_unique (n + 1 + f - 1) f (q + 1) 0) by lia.
    rewrite <- (Z.div_unique (n + f - 1) f q (f - 1)) by lia. lia.
  - rewrite <- (Z.div_unique (n + 1 + f - 1) f (q + 1) r) by lia.
    rewrite <- (Z.div_unique (n + f - 1) f (q + 1) (r - 1)) by lia. lia.
Qed.

(** X20: with a frequency above zero, the epoch-end events of the first [n]
    epochs make the callback write [n / freq] rounded up checkpoints: one at
    epoch 0 and one every [freq] epochs after it. *)
Theorem checkpoint_count (f : Z) (n : nat) (trainer : T) (Hf : 0 < f) :
  Z.of_nat (length (calls_made (__init__ f) trainer (first_epochs n)))
  = (Z.of_nat n + f - 1) / f.
Proof.
  unfold first_epochs. induction n as [|n IH].
  - cbn [seq map calls_made length].
    symmetry. apply Z.div_small. lia.
  - rewrite seq_S, map_app, calls_made_app by (cbn [freq __init__]; lia).
    rewrite length_app, Nat2Z.inj_add, IH.
    cbn [map calls_made handle Nat.add].
    rewrite CheckpointFacts.on_epoch_end_cases. cbn [freq __init__].
    destruct (Z.eqb_spec f 0); [lia|].
    replace (Z.of_nat (S n) + f - 1) with (Z.of_nat n + 1 + f - 1) by lia.
    rewrite (div_step (Z.of_nat n) f) by lia.
    destruct (Z.of_nat n mod f =? 0); reflexivity.
Qed.

(** X21: the sign of the frequency does not matter, a frequency of 1 writes
    a checkpoint at every epoch, and epoch 0 writes one for every frequency
    other than zero. *)
Theorem checkpoint_frequency (f epoch : Z) (trainer : T) :
  on_epoch_end (__init__ (- f)) epoch trainer
  = on_epoch_end (__init__ f) epoch trainer
  /\ on_epoch_end (__init__ 1) epoch trainer = Ok [checkpoint trainer None]
  /\ on_epoch_end (__init__ f) 0 trainer
     = (if f =? 0 then Raise ZeroDivisionError
        else Ok [checkpoint trainer None]).
Proof.
  rewrite !CheckpointFacts.on_epoch_end_cases. cbn [freq __init__].
  split; [|split].
  - destruct (Z.eqb_spec f 0) as [->|Hf]; [reflexivity|].
    destruct (Z.eqb_spec (- f) 0); [lia|].
    assert (H : epoch mod - f = 0 <-> epoch mod f = 0).
    { rewrite !Z.mod_divide by lia. split; intros [c Hc].
      - exists (- c). lia.
      - exists (- c). lia. }
    destruct (Z.eqb_spec (epoch mod - f) 0), (Z.eqb_spec (epoch mod f) 0);
      tauto || reflexivity.
  - rewrite Z.mod_1_r. reflexivity.
  - rewrite Zmod_0_l. destruct (f =? 0); reflexivity.
Qed.

End WithTrainer.

Lemma checkpoint_count_witness :
  0 < 2
  /\ Z.of_nat (length (calls_made (__init__ 2) tt (first_epochs 5)))
     = (Z.of_nat 5 + 2 - 1) / 2.
Proof. split; [lia|]. apply (checkpoint_count 2 5 tt). lia. Defined.

End CheckpointMoreFacts.

(** ** More on attribute assignment and on checkpoint metadata *)

Module SetattrMoreFacts.
Import Supervised SetattrSpec SetattrMoreSpec Checkpointing.
#[local] Set Warnings "-clear-no-such-hyp".

Lemma getattr_insert_eq (self : instance) k v :
  getattr (<[k := v]> self) k = Some v.
Proof. unfold getattr, instance in *. rewrite lookup_insert_eq. reflexivity. Qed.

Lemma getattr_insert_ne (self : instance) k k' v :
  k <> k' -> getattr (<[k := v]> self) k' = getattr self k'.
Proof.
  intros H. unfold getattr, instance in *.
  rewrite lookup_insert_ne by exact H. reflexivity.
Qed.

Lemma hasattr_loader (self : instance) : hasattr self "loader" = true.
Proof.
  unfold hasattr, getattr. destruct (self !! "loader"%string); reflexivity.
Qed.

Lemma assoc_set_assoc_eq attrs name v :
  assoc (set_assoc attrs name v) name = Some v.
Proof.
  induction attrs as [|[n v'] attrs IH]; cbn [set_assoc assoc].
  - rewrite String.eqb_refl. reflexivity.
  - destruct (String.eqb n name) eqn:E; cbn [assoc]; rewrite E; auto.
Qed.

Lemma assoc_set_assoc_ne attrs name name' v :
  name <> name' ->
  assoc (set_assoc attrs name v) name' = assoc attrs name'.
Proof.
  intros Hne. induction attrs as [|[n v'] attrs IH]; cbn [set_assoc assoc].
  - destruct (String.eqb_spec name name'); [contradiction|reflexivity].
  - destruct (String.eqb_spec n name) as [->|Hn]; cbn [assoc].
    + destruct (String.eqb_spec name name'); [contradiction|reflexivity].
    + destruct (String.eqb n name'); [reflexivity|exact IH].
Qed.

(** A name that the method does not single out is assigned as it is. *)
Lemma setattr_other (self : instance) key v :
  String.eqb key "optimizer" = false ->
  String.eqb key "loader" = false ->
  String.eqb key "batch_size" = false ->
  bool_decide (key ∈ properties) = false ->
  __setattr__ self key v = Ok (<[key := v]> self).
Proof.
  intros H1 H2 H3 H4.
  unfold __setattr__, rebind_scheduler, copy_from_loader, guard,
    object_setattr.
  rewrite H1, H2, H3, H4. reflexivity.
Qed.

Lemma setattr_batch_size_cases (self : instance) v :
  __setattr__ self "batch_size" v
  = if batch_size_guarded self then Raise ValueError
    else Ok (<["batch_size" := v]> self).
Proof.
  unfold __setattr__.
  change (rebind_scheduler self "batch_size" v) with self.
  change (copy_from_loader self "batch_size" v) with (Ok self).
  cbn [bind_result]. unfold guard, batch_size_guarded, hasattr.
  change (String.eqb "batch_size" "batch_size") with true.
  change (String.eqb "batch_size" "dataset") with false.
  destruct (getattr self "batch_size") as [b|]; [|reflexivity].
  cbn [andb]. destruct (ne_str b "batch_size"); [|reflexivity].
  cbn [andb]. fold (hasattr self "loader"). rewrite hasattr_loader.
  cbn [andb]. destruct (attr_truth self "loader"); reflexivity.
Qed.

(** X22: assigning [batch_size] is refused, with ValueError, exactly when
    the trainer already has a [batch_size] that is not the string
    'batch_size' and its loader is truthy; in every other case, a falsy
    (empty) loader included, the value is assigned. The new value plays no
    part: the same batch size is refused too. *)
Theorem setattr_batch_size_refused (self : instance) (v : value) :
  (__setattr__ self "batch_size" v = Raise ValueError
   <-> exists b, getattr self "batch_size" = Some b
                 /\ ne_str b "batch_size" = true
                 /\ attr_truth self "loader" = true)
  /\ (__setattr__ self "batch_size" v = Raise ValueError
      \/ __setattr__ self "batch_size" v = Ok (<["batch_size" := v]> self)).
Proof.
  rewrite setattr_batch_size_cases. unfold batch_size_guarded.
  destruct (getattr self "batch_size") as [b|].
  - destruct (ne_str b "batch_size") eqn:E1,
             (attr_truth self "loader") eqn:E2; cbn [andb].
    + split; [split; [eauto|reflexivity]|auto].
    + split; [split; [discriminate|]|auto].
      intros (b' & Hb & H1 & H2). discriminate.
    + split; [split; [discriminate|]|auto].
      intros (b' & Hb & H1 & H2). inversion Hb; subst. congruence.
    + split; [split; [discriminate|]|auto].
      intros (b' & Hb & H1 & H2). discriminate.
  - split; [split; [discriminate|]|auto].
    intros (b' & Hb & _). discriminate.
Qed.

(** X23: assigning the optimizer binds the learning-rate scheduler to it:
    when the scheduler has an [optimizer] attribute, that attribute becomes
    the new optimizer and the other attributes of the scheduler stay;
    otherwise the scheduler is left as it is. The trainer's own [optimizer]
    is the new one in both cases. *)
Theorem setattr_optimizer_rebinds (self : instance) (v : value) :
  exists self',
    __setattr__ self "optimizer" v = Ok self'
    /\ getattr self' "optimizer" = Some v
    /\ match getattr self "lr_scheduler" with
       | Some s =>
           match value_getattr s "optimizer" with
           | Some _ =>
               exists s', getattr self' "lr_scheduler" = Some s'
                 /\ value_getattr s' "optimizer" = Some v
                 /\ truth s' = truth s
                 /\ forall n, n <> "optimizer"%string ->
                      value_getattr s' n = value_getattr s n
           | None => getattr self' "lr_scheduler" = Some s
           end
       | None => getattr self' "lr_scheduler" = None
       end.
Proof.
  unfold __setattr__, rebind_scheduler.
  change (String.eqb "optimizer" "optimizer") with true. cbv iota.
  destruct (getattr self "lr_scheduler") as [s|] eqn:Hs.
  - destruct s as [| | | |t attrs];
      try (eexists; split; [reflexivity|];
           split; [apply getattr_insert_eq|];
           cbn [value_getattr];
           rewrite getattr_insert_ne by discriminate; exact Hs).
    cbn [value_getattr].
    destruct (assoc attrs "optimizer") as [o|] eqn:Ho.
    + eexists. split; [reflexivity|].
      split; [apply getattr_insert_eq|].
      eexists. split.
      * rewrite getattr_insert_ne by discriminate. apply getattr_insert_eq.
      * cbn [value_getattr truth]. split; [apply assoc_set_assoc_eq|].
        split; [reflexivity|]. intros n Hn.
        apply assoc_set_assoc_ne. congruence.
    + eexists. split; [reflexivity|].
      split; [apply getattr_insert_eq|].
      rewrite getattr_insert_ne by discriminate. exact Hs.
  - eexists. split; [reflexivity|].
    split; [apply getattr_insert_eq|].
    rewrite getattr_insert_ne by discriminate. exact Hs.
Qed.

(** X24: assigning a loader is never refused, even when a loader is already
    bound. It brings the trainer's [batch_size] in line with the loader's,
    when the loader has one, and the trainer's [dataset] in line with the
    loader's, when the loader has one and the trainer already has a
    [dataset] attribute. *)
Theorem setattr_loader_copies (self : instance) (v : value) :
  exists self',
    __setattr__ self "loader" v = Ok self'
    /\ getattr self' "loader" = Some v
    /\ getattr self' "batch_size"
       = match value_getattr v "batch_size" with
         | Some b => Some b
         | None => getattr self "batch_size"
         end
    /\ getattr self' "dataset"
       = match value_getattr v "dataset" with
         | Some d => if hasattr self "dataset" then Some d
                     else getattr self "dataset"
         | None => getattr self "dataset"
         end.
Proof.
  unfold __setattr__, copy_from_loader.
  change (rebind_scheduler self "loader" v) with self.
  change (String.eqb "loader" "loader") with true. cbv iota.
  destruct (value_getattr v "dataset") as [d|];
    [destruct (hasattr self "dataset")|];
    destruct (value_getattr v "batch_size") as [b|];
    cbn; eexists; (split; [reflexivity|]);
    (split; [apply getattr_insert_eq|]);
    rewrite ?(getattr_insert_ne _ "loader") by discriminate;
    rewrite ?getattr_insert_eq;
    rewrite ?(getattr_insert_ne _ "batch_size" "dataset") by discriminate;
    rewrite ?(getattr_insert_ne _ "dataset" "batch_size") by discriminate;
    rewrite ?getattr_insert_eq; split; reflexivity.
Qed.

(** *** Checkpoint metadata *)

Ltac plain_setattr :=
  rewrite setattr_other by reflexivity.

Ltac read_back :=
  repeat first
    [ rewrite getattr_insert_eq
    | rewrite getattr_insert_ne by discriminate ].

Lemma batch_size_guarded_insert (self : instance) k v :
  k <> "batch_size"%string -> k <> "loader"%string ->
  batch_size_guarded (<[k := v]> self) = batch_size_guarded self.
Proof.
  intros H1 H2. unfold batch_size_guarded, attr_truth.
  rewrite !getattr_insert_ne by assumption. reflexivity.
Qed.

(** X25: restoring the metadata of a checkpoint puts the identity and the
    progress counters of the trainer that wrote it (id, num_steps,
    num_samples, num_epochs, name, time_created) on the trainer that loads
    it, and its parameter hash as the attribute [param_hash]; the batch size
    of the checkpoint is taken too, unless assigning [batch_size] is refused
    on the loading trainer (a loader is bound), in which case the refusal is
    passed over and the trainer keeps its own; no other attribute is
    touched. *)
Theorem restore_metadata_round_trip (src dst : instance) (h : value)
    (md : list (string * value)) (Hmd : metadata src h = Ok md) :
  exists dst',
    restore_metadata dst md = Ok dst'
    /\ (forall k, k ∈ restored_names -> getattr dst' k = getattr src k)
    /\ getattr dst' "param_hash" = Some h
    /\ getattr dst' "batch_size"
       = (if batch_size_guarded dst then getattr dst "batch_size"
          else getattr src "batch_size")
    /\ (forall k, k ∉ metadata_names -> getattr dst' k = getattr dst k).
Proof.
  unfold metadata, read in Hmd.
  destruct (getattr src "id") as [v1|] eqn:E1; [|discriminate].
  destruct (getattr src "num_steps") as [v2|] eqn:E2; [|discriminate].
  destruct (getattr src "num_samples") as [v3|] eqn:E3; [|discriminate].
  destruct (getattr src "num_epochs") as [v4|] eqn:E4; [|discriminate].
  destruct (getattr src "batch_size") as [v5|] eqn:E5; [|discriminate].
  destruct (getattr src "name") as [v6|] eqn:E6; [|discriminate].
  destruct (getattr src "time_created") as [v7|] eqn:E7; [|discriminate].
  cbn [bind_result] in Hmd. inversion Hmd; subst md; clear Hmd.
  cbn [restore_metadata]. do 4 plain_setattr.
  rewrite setattr_batch_size_cases.
  rewrite !batch_size_guarded_insert by discriminate.
  assert (Hnames : forall k, k ∈ restored_names ->
            k = "id" \/ k = "num_steps" \/ k = "num_samples"
            \/ k = "num_epochs" \/ k = "name" \/ k = "time_created").
  { intros k Hk. unfold restored_names in Hk.
    repeat (apply elem_of_cons in Hk as [-> | Hk]; [tauto|]).
    apply elem_of_nil in Hk. contradiction. }
  assert (Hother : forall k, k ∉ metadata_names ->
            k <> "id" /\ k <> "num_steps" /\ k <> "num_samples"
            /\ k <> "num_epochs" /\ k <> "batch_size" /\ k <> "name"
            /\ k <> "time_created" /\ k <> "param_hash").
  { intros k Hk. unfold metadata_names in Hk.
    repeat split; intros ->; apply Hk; set_solver. }
  destruct (batch_size_guarded dst); do 3 plain_setattr;
    (eexists; split; [reflexivity|]); (split; [|split; [|split]]).
  - intros k Hk.
    destruct (Hnames k Hk) as [-> | [-> | [-> | [-> | [-> | ->]]]]]; read_back;
      congruence.
  - read_back. reflexivity.
  - read_back. reflexivity.
  - intros k Hk. destruct (Hother k Hk) as (? & ? & ? & ? & ? & ? & ? & ?).
    rewrite !getattr_insert_ne by congruence. reflexivity.
  - intros k Hk.
    destruct (Hnames k Hk) as [-> | [-> | [-> | [-> | [-> | ->]]]]]; read_back;
      congruence.
  - read_back. reflexivity.
  - read_back. congruence.
  - intros k Hk. destruct (Hother k Hk) as (? & ? & ? & ? & ? & ? & ? & ?).
    rewrite !getattr_insert_ne by congruence. reflexivity.
Qed.

Lemma restore_metadata_round_trip_witness :
  let src : instance :=
    list_to_map [("id", VStr "run"); ("num_steps", VInt 7);
                 ("num_samples", VInt 70); ("num_epochs", VInt 2);
                 ("batch_size", VInt 10); ("name", VStr "n");
                 ("time_created", VInt 0)]%string in
  exists md,
    metadata src (VStr "hash") = Ok md
    /\ exists dst',
         restore_metadata bound_trainer md = Ok dst'
         /\ getattr dst' "num_steps" = Some (VInt 7)
         /\ getattr dst' "batch_size" = Some (VInt 32).
Proof.
  intros src. eexists. split; [reflexivity|].
  match goal with
  | |- context [restore_metadata _ ?md] =>
      destruct (restore_metadata_round_trip src bound_trainer (VStr "hash")
                  md eq_refl) as (dst' & H1 & H2 & _ & H4 & _)
  end.
  exists dst'. split; [exact H1|]. split.
  - rewrite H2 by (unfold restored_names; set_solver). reflexivity.
  - rewrite H4. reflexivity.
Defined.

End SetattrMoreFacts.

(** ** More on epochs and run *)

Module TrainerMoreFacts.
Import Supervised TrainerSpec TrainerMoreSpec CounterSpec.

Lemma terms_app start step n m :
  terms start step (n + m)
  = terms start step n ++ terms (start + Z.of_nat n * step) step m.
Proof.
  revert start. induction n as [|n IH]; intros start.
  - cbn [Nat.add terms app]. f_equal. lia.
  - cbn [Nat.add terms app]. rewrite IH. do 3 f_equal. lia.
Qed.

(** *** epochs *)

(** X26: [epochs] is restartable: consuming [epochs(a)] to its end and then
    [epochs(b)] on the same trainer yields the same indices, and leaves the
    same trainer, as consuming [epochs(a + b)]. *)
Theorem epochs_restartable (self : Trainer) (a b : nat)
    (Hne : 0 <= num_epochs self) :
  let '(l1, t1, r1) :=
    epochs_take (S a) (epochs self (Some (Z.of_nat a))) self in
  let '(l2, t2, r2) :=
    epochs_take (S b) (epochs t1 (Some (Z.of_nat b))) t1 in
  epochs_take (S (a + b)) (epochs self (Some (Z.of_nat (a + b)))) self
  = (l1 ++ l2, t2, r2)
  /\ r1 = Ok true.
Proof.
  rewrite (TrainerFacts.epochs_bounded self (Z.of_nat a) (S a)) by lia.
  rewrite (TrainerFacts.epochs_bounded _ (Z.of_nat b) (S b))
    by (cbn [num_epochs set_num_epochs]; lia).
  rewrite (TrainerFacts.epochs_bounded self (Z.of_nat (a + b)) (S (a + b)))
    by lia.
  split; [|reflexivity].
  cbn [num_epochs set_num_epochs]. rewrite !Nat2Z.id, terms_app, map_app.
  rewrite Z.mul_1_r.
  replace (num_epochs self + Z.of_nat (a + b))
    with (num_epochs self + Z.of_nat a + Z.of_nat b) by lia.
  reflexivity.
Qed.

Lemma epochs_restartable_witness :
  0 <= num_epochs (__init__ false false)
  /\ epochs_take 4 (epochs (__init__ false false) (Some 3))
       (__init__ false false)
     = ([(0, 0); (1, 1); (2, 2)],
        set_num_epochs (set_num_epochs (__init__ false false) 1) 3, Ok true).
Proof.
  split; [cbn; lia|].
  exact (proj1 (epochs_restartable (__init__ false false) 1 2
                  ltac:(cbn; lia))).
Defined.

Lemma epochs_take_partial e fuel : forall cur self,
  0 <= cur ->
  cur + Z.of_nat fuel <= e ->
  num_epochs self = cur - 1 ->
  epochs_take fuel (epochs_yielded (Utils.counter cur (Some e) 1)) self
  = (map (fun i => (i, i)) (terms cur 1 fuel),
     set_num_epochs self (num_epochs self + Z.of_nat fuel), Ok false).
Proof.
  induction fuel as [|fuel IH]; intros cur self Hcur He Hself.
  - cbn [epochs_take terms map]. rewrite TrainerFacts.set_num_epochs_id by lia.
    reflexivity.
  - cbn [epochs_take epochs_next]. unfold epochs_for.
    rewrite CounterFacts.counter_next_bounded.
    destruct (Z.eqb_spec e 0); [lia|].
    destruct (Z.ltb_spec cur e); [|lia].
    rewrite (IH (cur + 1)); cbn [num_epochs set_num_epochs]; try lia.
    replace (num_epochs self + 1) with cur by lia.
    cbn [terms map].
    replace (cur + Z.of_nat fuel) with (num_epochs self + Z.of_nat (S fuel))
      by lia.
    reflexivity.
Qed.

(** X27: a consumer that leaves the loop over [epochs(num)] after receiving
    [k] indices, [1 <= k <= num], has received the [k] indices from the
    epoch counter on, and the counter has advanced by [k - 1] only: the
    epoch in which the loop is left is not counted. *)
Theorem epochs_left_early (self : Trainer) (num : Z) (k : nat)
    (Hne : 0 <= num_epochs self) (Hk : 1 <= Z.of_nat k <= num) :
  epochs_take k (epochs self (Some num)) self
  = (map (fun i => (i, i)) (terms (num_epochs self) 1 k),
     set_num_epochs self (num_epochs self + Z.of_nat k - 1), Ok false).
Proof.
  destruct k as [|k]; [lia|].
  cbn [epochs_take epochs epochs_next]. unfold epochs_for.
  rewrite CounterFacts.counter_next_bounded.
  destruct (Z.eqb_spec (num_epochs self + num) 0); [lia|].
  destruct (Z.ltb_spec (num_epochs self) (num_epochs self + num)); [|lia].
  rewrite (epochs_take_partial _ k) by lia.
  cbn [terms map].
  replace (num_epochs self + Z.of_nat (S k) - 1)
    with (num_epochs self + Z.of_nat k) by lia.
  reflexivity.
Qed.

Lemma epochs_left_early_witness :
  (0 <= num_epochs (__init__ false false) /\ 1 <= Z.of_nat 2 <= 5)
  /\ epochs_take 2 (epochs (__init__ false false) (Some 5))
       (__init__ false false)
     = ([(0, 0); (1, 1)], set_num_epochs (__init__ false false) 1, Ok false).
Proof.
  split; [cbn; lia|].
  exact (epochs_left_early (__init__ false false) 5 2
           ltac:(cbn; lia) ltac:(lia)).
Defined.

(** *** run *)

Lemma samples_of_app bs1 bs2 :
  samples_of (bs1 ++ bs2) = samples_of bs1 + samples_of bs2.
Proof.
  induction bs1 as [|b bs1 IH]; cbn [app].
  - rewrite TrainerFacts.samples_of_nil. lia.
  - rewrite !TrainerFacts.samples_of_cons, IH. lia.
Qed.

Lemma advanced_by_nil self : advanced_by self self [].
Proof.
  unfold advanced_by. rewrite TrainerFacts.samples_of_nil. cbn [length]. lia.
Qed.

Lemma advanced_by_app self t u bs1 bs2 :
  advanced_by self t bs1 -> advanced_by t u bs2 ->
  advanced_by self u (bs1 ++ bs2).
Proof.
  unfold advanced_by. rewrite samples_of_app, length_app. lia.
Qed.

(** The quiet batches at the head of a loop are completed one by one. *)
Lemma batches_loop_quiet_prefix done : forall self rest,
  Forall quiet_batch done -> _stop self = false ->
  exists t,
    batches_loop self (done ++ rest) = batches_loop t rest
    /\ advanced_by self t done
    /\ _stop t = false
    /\ val_loader t = val_loader self.
Proof.
  induction done as [|b done IH]; intros self rest Hq Hstop.
  - exists self. cbn [app]. auto using advanced_by_nil.
  - inversion Hq as [|? ? [Hout Hhook] Hq']; subst.
    cbn [app batches_loop]. rewrite Hhook. cbn [notify]. unfold step.
    rewrite Hout.
    set (s0 := if training self then self else set_training self true).
    assert (Hs0 : _stop s0 = false /\ val_loader s0 = val_loader self
                  /\ advanced_by self (advance s0 b) [b]).
    { subst s0. unfold advanced_by.
      rewrite TrainerFacts.samples_of_cons, TrainerFacts.samples_of_nil.
      destruct (training self); cbn; repeat split; lia || assumption. }
    destruct Hs0 as (Hs0 & Hv0 & Hadv).
    change (_stop (advance s0 b)) with (_stop s0). rewrite Hs0.
    destruct (IH (advance s0 b) rest Hq' Hs0) as (t & Ht & Hadv' & Hst & Hvt).
    exists t. split; [exact Ht|].
    split; [exact (advanced_by_app _ _ _ [b] done Hadv Hadv')|].
    split; [exact Hst|]. rewrite Hvt. exact Hv0.
Qed.

Lemma batches_loop_plain_quiet_prefix done : forall self rest,
  Forall quiet_batch done ->
  exists t,
    batches_loop_plain self (done ++ rest) = batches_loop_plain t rest
    /\ advanced_by self t done
    /\ _stop t = _stop self
    /\ val_loader t = val_loader self.
Proof.
  induction done as [|b done IH]; intros self rest Hq.
  - exists self. cbn [app]. auto using advanced_by_nil.
  - inversion Hq as [|? ? [Hout Hhook] Hq']; subst.
    cbn [app batches_loop_plain]. unfold step. rewrite Hout.
    set (s0 := if training self then self else set_training self true).
    assert (Hs0 : _stop s0 = _stop self /\ val_loader s0 = val_loader self
                  /\ advanced_by self (advance s0 b) [b]).
    { subst s0. unfold advanced_by.
      rewrite TrainerFacts.samples_of_cons, TrainerFacts.samples_of_nil.
      destruct (training self); cbn; repeat split; lia. }
    destruct Hs0 as (Hs0 & Hv0 & Hadv).
    destruct (IH (advance s0 b) rest Hq') as (t & Ht & Hadv' & Hst & Hvt).
    exists t. split; [exact Ht|].
    split; [exact (advanced_by_app _ _ _ [b] done Hadv Hadv')|].
    split; [rewrite Hst; exact Hs0|]. rewrite Hvt. exact Hv0.
Qed.

(** After the batches of a quiet epoch, validation keeps the counters and
    the stop flag. *)
Lemma after_validation t :
  let s := if val_loader t then validate t else t in
  advanced_by t s [] /\ _stop s = _stop t.
Proof.
  unfold validate, advanced_by. rewrite TrainerFacts.samples_of_nil.
  destruct (val_loader t), (training t); cbn; repeat split; lia.
Qed.

(** One quiet epoch of the loop with callbacks. *)
Lemma quiet_epoch_step world fuel g self self1 cur g' :
  epochs_next g self = (self1, Ok (Some cur), g') ->
  quiet_epoch (world cur) -> _stop self1 = false ->
  exists s,
    epochs_loop (S fuel) g self world = epochs_loop fuel g' s world
    /\ advanced_by self1 s (batches (world cur))
    /\ _stop s = false.
Proof.
  intros Hnext (Hq & Hstart & Hend & Hafter) Hstop.
  cbn [epochs_loop]. rewrite Hnext, Hstart, Hend, Hafter. cbn [notify].
  destruct (batches_loop_quiet_prefix (batches (world cur)) self1 [] Hq Hstop)
    as (t & Ht & Hadv & Hst & Hvt).
  rewrite app_nil_r in Ht. rewrite Ht. cbn [batches_loop]. rewrite Hst.
  destruct (after_validation t) as [Hadv' Hst'].
  eexists. split; [reflexivity|]. split.
  - rewrite <- (app_nil_r (batches (world cur))).
    exact (advanced_by_app _ _ _ _ [] Hadv Hadv').
  - rewrite Hst'. exact Hst.
Qed.

Lemma quiet_epoch_step_plain world fuel g self self1 cur g' :
  epochs_next g self = (self1, Ok (Some cur), g') ->
  quiet_epoch (world cur) ->
  exists s,
    epochs_loop_plain (S fuel) g self world = epochs_loop_plain fuel g' s world
    /\ advanced_by self1 s (batches (world cur))
    /\ _stop s = _stop self1.
Proof.
  intros Hnext (Hq & Hstart & Hend & Hafter).
  cbn [epochs_loop_plain]. rewrite Hnext, Hafter.
  destruct (batches_loop_plain_quiet_prefix (batches (world cur)) self1 [] Hq)
    as (t & Ht & Hadv & Hst & Hvt).
  rewrite app_nil_r in Ht. rewrite Ht. cbn [batches_loop_plain].
  destruct (after_validation t) as [Hadv' Hst'].
  eexists. split; [reflexivity|]. split.
  - rewrite <- (app_nil_r (batches (world cur))).
    exact (advanced_by_app _ _ _ _ [] Hadv Hadv').
  - rewrite Hst'. exact Hst.
Qed.

Lemma epochs_next_yielded cur e self :
  0 <= cur -> cur < e ->
  epochs_next (epochs_yielded (Utils.counter cur (Some e) 1)) self
  = (set_num_epochs self (num_epochs self + 1), Ok (Some cur),
     epochs_yielded (Utils.counter (cur + 1) (Some e) 1)).
Proof.
  intros H0 Hlt. cbn [epochs_next]. unfold epochs_for.
  rewrite CounterFacts.counter_next_bounded.
  destruct (Z.eqb_spec e 0); [lia|].
  destruct (Z.ltb_spec cur e); [reflexivity|lia].
Qed.

Lemma epochs_next_exhausted cur e self :
  e <= cur ->
  epochs_next (epochs_yielded (Utils.counter cur (Some e) 1)) self
  = (set_num_epochs self (num_epochs self + 1), Ok None, epochs_finished).
Proof.
  intros Hle. cbn [epochs_next]. unfold epochs_for.
  rewrite CounterFacts.counter_next_bounded.
  destruct (Z.eqb_spec e 0); [reflexivity|].
  destruct (Z.ltb_spec cur e); [lia|reflexivity].
Qed.

Lemma quiet_tail world cur m :
  quiet world cur (S m) ->
  quiet_epoch (world cur) /\ quiet world (cur + 1) m.
Proof.
  intros H. split.
  - apply H. lia.
  - intros i Hi. apply H. lia.
Qed.

Lemma epochs_loop_quiet world e m : forall cur self fuel,
  0 <= cur -> e = cur + Z.of_nat m -> num_epochs self = cur - 1 ->
  quiet world cur m -> _stop self = false -> (m < fuel)%nat ->
  exists t,
    epochs_loop fuel (epochs_yielded (Utils.counter cur (Some e) 1)) self world
    = Some (t, Ok tt)
    /\ completed self t (batches_of world cur m) e
    /\ _stop t = false.
Proof.
  induction m as [|m IH]; intros cur self fuel Hcur He Hself Hq Hstop Hfuel;
    (destruct fuel as [|fuel]; [lia|]).
  - cbn [epochs_loop]. rewrite epochs_next_exhausted by lia.
    eexists. split; [reflexivity|]. unfold completed.
    cbn [batches_of length num_steps num_samples num_epochs set_num_epochs _stop].
    rewrite TrainerFacts.samples_of_nil. repeat split; lia || assumption.
  - destruct (quiet_tail _ _ _ Hq) as [Hq1 Hq2].
    destruct (quiet_epoch_step world fuel _ self _ cur _
                (epochs_next_yielded cur e self Hcur ltac:(lia)) Hq1 Hstop)
      as (s & Hs & (A1 & A2 & A3) & Hss).
    rewrite Hs. cbn [num_steps num_samples num_epochs set_num_epochs] in *.
    destruct (IH (cur + 1) s fuel ltac:(lia) ltac:(lia) ltac:(lia) Hq2 Hss
                ltac:(lia)) as (t & Ht & (C1 & C2 & C3) & Hst).
    exists t. split; [exact Ht|]. split; [|exact Hst].
    unfold completed. cbn [batches_of].
    rewrite length_app, samples_of_app. repeat split; lia.
Qed.

Lemma epochs_loop_plain_quiet world e m : forall cur self fuel,
  0 <= cur -> e = cur + Z.of_nat m -> num_epochs self = cur - 1 ->
  quiet world cur m -> (m < fuel)%nat ->
  exists t,
    epochs_loop_plain fuel (epochs_yielded (Utils.counter cur (Some e) 1))
      self world
    = Some (t, Ok tt)
    /\ completed self t (batches_of world cur m) e
    /\ _stop t = _stop self.
Proof.
  induction m as [|m IH]; intros cur self fuel Hcur He Hself Hq Hfuel;
    (destruct fuel as [|fuel]; [lia|]).
  - cbn [epochs_loop_plain]. rewrite epochs_next_exhausted by lia.
    eexists. split; [reflexivity|]. unfold completed.
    cbn [batches_of length num_steps num_samples num_epochs set_num_epochs _stop].
    rewrite TrainerFacts.samples_of_nil. repeat split; lia.
  - destruct (quiet_tail _ _ _ Hq) as [Hq1 Hq2].
    destruct (quiet_epoch_step_plain world fuel _ self _ cur _
                (epochs_next_yielded cur e self Hcur ltac:(lia)) Hq1)
      as (s & Hs & (A1 & A2 & A3) & Hss).
    rewrite Hs. cbn [num_steps num_samples num_epochs set_num_epochs _stop] in *.
    destruct (IH (cur + 1) s fuel ltac:(lia) ltac:(lia) ltac:(lia) Hq2
                ltac:(lia)) as (t & Ht & (C1 & C2 & C3) & Hst).
    exists t. split; [exact Ht|]. split; [|congruence].
    unfold completed. cbn [batches_of].
    rewrite length_app, samples_of_app. repeat split; lia.
Qed.

Lemma epochs_next_created self n :
  0 <= num_epochs self -> 0 < n ->
  epochs_next (epochs self (Some n)) self
  = (self, Ok (Some (num_epochs self)),
     epochs_yielded
       (Utils.counter (num_epochs self + 1) (Some (num_epochs self + n)) 1)).
Proof.
  intros H0 Hn. cbn [epochs epochs_next]. unfold epochs_for.
  rewrite CounterFacts.counter_next_bounded.
  destruct (Z.eqb_spec (num_epochs self + n) 0); [lia|].
  destruct (Z.ltb_spec (num_epochs self) (num_epochs self + n));
    [reflexivity|lia].
Qed.

(** X28: when nothing goes wrong (every step returns, no callback asks to
    stop, nothing raises), [run(epochs=n)] returns normally, with
    [num_epochs] advanced by [n], [num_steps] by the number of batches of
    those [n] epochs and [num_samples] by the number of their samples, and
    with the stop flag cleared; whether callbacks are defined or not. *)
Theorem run_completes (self : Trainer) (n : nat) (world : Z -> epoch_env)
    (Hne : 0 <= num_epochs self) (Hq : quiet world (num_epochs self) n) :
  exists t,
    run self (Some (Z.of_nat n)) world = Some (t, Ok tt)
    /\ num_epochs t = num_epochs self + Z.of_nat n
    /\ num_steps t
       = num_steps self
         + Z.of_nat (length (batches_of world (num_epochs self) n))
    /\ num_samples t
       = num_samples self + samples_of (batches_of world (num_epochs self) n)
    /\ _stop t = false.
Proof.
  unfold run, run_fuel. rewrite Nat2Z.id.
  set (self0 := stop self false).
  assert (H0 : num_epochs self0 = num_epochs self /\ _stop self0 = false
               /\ num_steps self0 = num_steps self
               /\ num_samples self0 = num_samples self) by (cbn; auto).
  destruct H0 as (E0 & S0 & N0 & M0).
  change (callbacks self0) with (callbacks self).
  destruct n as [|n].
  - destruct (callbacks self); cbn [epochs_loop epochs_loop_plain];
      cbn [epochs epochs_next]; unfold epochs_for;
      rewrite CounterFacts.counter_next_bounded;
      (destruct (Z.eqb_spec (num_epochs self0 + Z.of_nat 0) 0);
       [|destruct (Z.ltb_spec (num_epochs self0)
                    (num_epochs self0 + Z.of_nat 0)); [lia|]]);
      (eexists; split; [reflexivity|]);
      cbn [batches_of length]; rewrite TrainerFacts.samples_of_nil;
      repeat split; lia || assumption.
  - destruct (quiet_tail _ _ _ Hq) as [Hq1 Hq2].
    pose proof (epochs_next_created self0 (Z.of_nat (S n))
                  ltac:(lia) ltac:(lia)) as Hnext.
    rewrite E0 in Hnext.
    destruct (callbacks self).
    + destruct (quiet_epoch_step world (S n) _ self0 _ _ _ Hnext
                  Hq1 S0)
        as (s & Hs & (A1 & A2 & A3) & Hss).
      rewrite Hs.
      destruct (epochs_loop_quiet world (num_epochs self + Z.of_nat (S n)) n
                  (num_epochs self + 1) s (S n)
                  ltac:(lia) ltac:(lia) ltac:(lia) Hq2 Hss ltac:(lia))
        as (t & Ht & (C1 & C2 & C3) & Hst).
      exists t. split; [exact Ht|]. cbn [batches_of].
      rewrite length_app, samples_of_app. repeat split; lia || assumption.
    + destruct (quiet_epoch_step_plain world (S n) _ self0 _ _ _ Hnext
                  Hq1)
        as (s & Hs & (A1 & A2 & A3) & Hss).
      rewrite Hs.
      destruct (epochs_loop_plain_quiet world
                  (num_epochs self + Z.of_nat (S n)) n
                  (num_epochs self + 1) s (S n)
                  ltac:(lia) ltac:(lia) ltac:(lia) Hq2 ltac:(lia))
        as (t & Ht & (C1 & C2 & C3) & Hst).
      exists t. split; [exact Ht|]. cbn [batches_of].
      rewrite length_app, samples_of_app.
      repeat split; lia || congruence.
Qed.

Lemma calm_world_quiet e k : quiet calm_world e k.
Proof.
  intros i _. unfold quiet_epoch, quiet_batch, calm_world, calm_batch.
  cbn. repeat split; repeat constructor.
Qed.

Lemma run_completes_witness :
  (0 <= num_epochs (__init__ true false)
   /\ quiet calm_world (num_epochs (__init__ true false)) 2)
  /\ exists t,
       run (__init__ true false) (Some (Z.of_nat 2)) calm_world
       = Some (t, Ok tt)
       /\ num_epochs t = num_epochs (__init__ true false) + Z.of_nat 2
       /\ num_steps t
          = num_steps (__init__ true false)
            + Z.of_nat (length (batches_of calm_world
                                  (num_epochs (__init__ true false)) 2))
       /\ num_samples t
          = num_samples (__init__ true false)
            + samples_of (batches_of calm_world
                            (num_epochs (__init__ true false)) 2)
       /\ _stop t = false.
Proof.
  split.
  - split; [cbn; lia|]. apply calm_world_quiet.
  - exact (run_completes (__init__ true false) 2 calm_world
             ltac:(cbn; lia) (calm_world_quiet _ _)).
Defined.

(** The batch loop with callbacks, when the step of a batch raises after
    quiet batches. *)
Lemma batches_loop_fails self done b rest e :
  Forall quiet_batch done -> _stop self = false ->
  outcome b = step_raises e ->
  exists t,
    batches_loop self (done ++ b :: rest)
    = match e with
      | KeyboardInterrupt => (stop t true, broke)
      | _ => if stop_in_step_hooks b then (t, broke) else (t, raised e)
      end
    /\ advanced_by self t done
    /\ _stop t = stop_in_step_hooks b.
Proof.
  intros Hq Hstop Hout.
  destruct (batches_loop_quiet_prefix done self (b :: rest) Hq Hstop)
    as (t & Ht & Hadv & Hst & _).
  rewrite Ht. cbn [batches_loop]. unfold step. rewrite Hout.
  set (s := notify (stop_in_step_hooks b) t).
  set (s' := if training s then s else set_training s true).
  assert (Hs' : advanced_by t s' [] /\ _stop s' = stop_in_step_hooks b).
  { subst s' s. unfold notify, advanced_by.
    rewrite TrainerFacts.samples_of_nil.
    destruct (stop_in_step_hooks b); cbn; destruct (training t); cbn;
      repeat split; lia || assumption || reflexivity. }
  destruct Hs' as [Hadv' Hs'].
  exists s'. split.
  - rewrite Hs'. destruct e; reflexivity.
  - split; [|exact Hs'].
    rewrite <- (app_nil_r done). exact (advanced_by_app _ _ _ _ [] Hadv Hadv').
Qed.

(** The batch loop without callbacks, in the same situation. *)
Lemma batches_loop_plain_fails self done b rest e :
  Forall quiet_batch done -> outcome b = step_raises e ->
  exists t,
    batches_loop_plain self (done ++ b :: rest) = (t, raised e)
    /\ advanced_by self t done
    /\ _stop t = _stop self.
Proof.
  intros Hq Hout.
  destruct (batches_loop_plain_quiet_prefix done self (b :: rest) Hq)
    as (t & Ht & Hadv & Hst & _).
  rewrite Ht. cbn [batches_loop_plain]. unfold step. rewrite Hout.
  set (s' := if training t then t else set_training t true).
  assert (Hs' : advanced_by t s' [] /\ _stop s' = _stop t).
  { subst s'. unfold advanced_by. rewrite TrainerFacts.samples_of_nil.
    destruct (training t); cbn; repeat split; lia. }
  destruct Hs' as [Hadv' Hs'].
  exists s'. split; [reflexivity|]. split; [|congruence].
  rewrite <- (app_nil_r done). exact (advanced_by_app _ _ _ _ [] Hadv Hadv').
Qed.

(** [run] up to the batch loop of its first epoch. *)
Lemma run_first_epoch self n world :
  0 <= num_epochs self -> 0 < n ->
  run self (Some n) world
  = let self0 := stop self false in
    let env := world (num_epochs self) in
    let g' := epochs_yielded
                (Utils.counter (num_epochs self + 1)
                   (Some (num_epochs self + n)) 1) in
    if callbacks self then
      match batches_loop (notify (stop_in_epoch_start env) self0)
              (batches env) with
      | (s, raised e) => Some (s, Raise e)
      | (s, _) =>
          if _stop s then Some (s, Ok tt)
          else
            let s := if val_loader s then validate s else s in
            let s := notify (stop_in_epoch_end env) s in
            match after_batches env with
            | Some KeyboardInterrupt => Some (stop s true, Ok tt)
            | Some e => Some (s, Raise e)
            | None => epochs_loop (Z.to_nat n) g' s world
            end
      end
    else
      match batches_loop_plain self0 (batches env) with
      | (s, raised e) => Some (s, Raise e)
      | (s, _) =>
          let s := if val_loader s then validate s else s in
          match after_batches env with
          | Some e => Some (s, Raise e)
          | None => epochs_loop_plain (Z.to_nat n) g' s world
          end
      end.
Proof.
  intros Hne Hn. unfold run, run_fuel.
  pose proof (epochs_next_created (stop self false) n Hne Hn) as Hnext.
  change (num_epochs (stop self false)) with (num_epochs self) in Hnext.
  change (callbacks (stop self false)) with (callbacks self).
  cbv zeta. destruct (callbacks self);
    cbn [epochs_loop epochs_loop_plain]; rewrite Hnext; reflexivity.
Qed.

(** X29: a [KeyboardInterrupt] raised by [step] in the first epoch of
    [run(epochs=n)], after batches that went through quietly.  With
    callbacks the run ends normally with the stop flag set; without
    callbacks the interrupt leaves [run].  Either way the counters count
    the completed batches only and [num_epochs] is unchanged. *)
Theorem run_interrupted (self : Trainer) (n : Z) (world : Z -> epoch_env)
    (done : list batch) (b : batch)
    (Hne : 0 <= num_epochs self) (Hn : 0 < n)
    (Hf : fails_at (world (num_epochs self)) done b KeyboardInterrupt) :
  exists t,
    run self (Some n) world
    = Some (t, if callbacks self then Ok tt else Raise KeyboardInterrupt)
    /\ advanced_by self t done
    /\ _stop t = callbacks self.
Proof.
  destruct Hf as (Hstart & [rest Hbs] & Hq & Hout).
  rewrite (run_first_epoch self n world Hne Hn). cbv zeta.
  rewrite Hstart, Hbs. cbn [notify].
  destruct (callbacks self).
  - destruct (batches_loop_fails (stop self false) done b rest
                KeyboardInterrupt Hq eq_refl Hout) as (t & Ht & Hadv & _).
    rewrite Ht. exists (stop t true). split; [reflexivity|].
    split; [|reflexivity]. exact Hadv.
  - destruct (batches_loop_plain_fails (stop self false) done b rest
                KeyboardInterrupt Hq Hout) as (t & Ht & Hadv & Hst).
    rewrite Ht. exists t. split; [reflexivity|].
    split; [exact Hadv|exact Hst].
Qed.

Lemma failing_world_fails e stops i :
  fails_at (failing_world e stops i) [calm_batch 4] (failing_batch e stops) e.
Proof.
  split; [reflexivity|]. split; [exists [calm_batch 3]; reflexivity|].
  split; [|reflexivity]. repeat constructor.
Qed.

Lemma run_interrupted_witness :
  (0 <= num_epochs (__init__ true false) /\ 0 < 3
   /\ fails_at
        (failing_world KeyboardInterrupt false
           (num_epochs (__init__ true false)))
        [calm_batch 4] (failing_batch KeyboardInterrupt false)
        KeyboardInterrupt)
  /\ exists t,
       run (__init__ true false) (Some 3)
         (failing_world KeyboardInterrupt false)
       = Some (t, Ok tt)
       /\ advanced_by (__init__ true false) t [calm_batch 4]
       /\ _stop t = true.
Proof.
  split.
  - split; [cbn; lia|]. split; [lia|]. apply failing_world_fails.
  - exact (run_interrupted (__init__ true false) 3
             (failing_world KeyboardInterrupt false) [calm_batch 4]
             (failing_batch KeyboardInterrupt false)
             ltac:(cbn; lia) ltac:(lia) (failing_world_fails _ _ _)).
Defined.

(** X30: any other exception raised by [step] in the first epoch of
    [run(epochs=n)], after batches that went through quietly.  It leaves
    [run], except when callbacks are defined and one of them asked to stop
    around that step: then the exception is dropped and the run ends
    normally with the stop flag set.  The counters count the completed
    batches only. *)
Theorem run_step_error (self : Trainer) (n : Z) (world : Z -> epoch_env)
    (done : list batch) (b : batch) (e : exn)
    (Hne : 0 <= num_epochs self) (Hn : 0 < n)
    (He : e <> KeyboardInterrupt)
    (Hf : fails_at (world (num_epochs self)) done b e) :
  exists t,
    run self (Some n) world
    = Some (t, if callbacks self && stop_in_step_hooks b
               then Ok tt else Raise e)
    /\ advanced_by self t done
    /\ _stop t = callbacks self && stop_in_step_hooks b.
Proof.
  destruct Hf as (Hstart & [rest Hbs] & Hq & Hout).
  rewrite (run_first_epoch self n world Hne Hn). cbv zeta.
  rewrite Hstart, Hbs. cbn [notify].
  destruct (callbacks self); cbn [andb].
  - destruct (batches_loop_fails (stop self false) done b rest e
                Hq eq_refl Hout) as (t & Ht & Hadv & Hst).
    rewrite Ht. exists t.
    split; [|split; [exact Hadv|exact Hst]].
    destruct e; try contradiction;
      (destruct (stop_in_step_hooks b); [rewrite Hst|]; reflexivity).
  - destruct (batches_loop_plain_fails (stop self false) done b rest e
                Hq Hout) as (t & Ht & Hadv & Hst).
    rewrite Ht. exists t. split; [reflexivity|].
    split; [exact Hadv|exact Hst].
Qed.

Lemma run_step_error_witness :
  (0 <= num_epochs (__init__ true false) /\ 0 < 3
   /\ ValueError <> KeyboardInterrupt
   /\ fails_at
        (failing_world ValueError true (num_epochs (__init__ true false)))
        [calm_batch 4] (failing_batch ValueError true) ValueError)
  /\ exists t,
       run (__init__ true false) (Some 3) (failing_world ValueError true)
       = Some (t, Ok tt)
       /\ advanced_by (__init__ true false) t [calm_batch 4]
       /\ _stop t = true.
Proof.
  split.
  - split; [cbn; lia|]. split; [lia|]. split; [discriminate|].
    apply failing_world_fails.
  - exact (run_step_error (__init__ true false) 3
             (failing_world ValueError true) [calm_batch 4]
             (failing_batch ValueError true) ValueError
             ltac:(cbn; lia) ltac:(lia) ltac:(discriminate)
             (failing_world_fails _ _ _)).
Defined.

End TrainerMoreFacts.
(** ** The progress counters *)

Module ProgressFacts.
Import Supervised TrainerSpec TrainerMoreSpec CounterSpec.

Lemma advanced_by_same self t u bs :
  same_counters self t -> advanced_by t u bs -> advanced_by self u bs.
Proof. unfold same_counters, advanced_by. lia. Qed.

Lemma advanced_by_same_r self t u bs :
  advanced_by self t bs -> same_counters t u -> advanced_by self u bs.
Proof. unfold same_counters, advanced_by. lia. Qed.

Lemma advanced_by_cons self s t b bs :
  same_counters self s ->
  advanced_by (advance s b) t bs -> advanced_by self t (b :: bs).
Proof.
  unfold same_counters, advanced_by.
  rewrite TrainerFacts.samples_of_cons. cbn [length].
  pose proof (TrainerFacts.advance_counters s b). lia.
Qed.

Lemma raises_at_cons b bs k e :
  raises_at bs k e -> raises_at (b :: bs) (S k) e.
Proof. intros (b' & Hb & He). exists b'. auto. Qed.

Lemma raises_at_head b bs e :
  outcome b = step_raises e -> raises_at (b :: bs) 0 e.
Proof. intros He. exists b. auto. Qed.

(** What [step] leaves in the trainer. *)
Lemma step_state self b :
  same_counters self (fst (step self b))
  /\ _stop (fst (step self b)) = _stop self
  /\ snd (step self b) = outcome b.
Proof.
  unfold step, same_counters. destruct (training self); cbn; auto.
Qed.

(** The loop over the batches when callbacks are defined. *)
Lemma batches_loop_steps bs : forall self,
  exists k : nat,
    (k <= length bs)%nat
    /\ Forall returned (take k bs)
    /\ advanced_by self (fst (batches_loop self bs)) (take k bs)
    /\ match snd (batches_loop self bs) with
       | exhausted => k = length bs
       | raised e => raises_at bs k e
       | broke => _stop (fst (batches_loop self bs)) = true
                  /\ ((exists e, raises_at bs k e) \/ (0 < k)%nat)
       end.
Proof.
  induction bs as [|b bs IH]; intros self.
  { exists 0%nat. cbn [batches_loop fst snd length take].
    split; [lia|]. split; [constructor|].
    split; [apply TrainerMoreFacts.advanced_by_nil|reflexivity]. }
  cbn [batches_loop].
  set (s0 := notify (stop_in_step_hooks b) self).
  assert (Hs0 : same_counters self s0) by apply TrainerFacts.notify_same.
  destruct (step_state s0 b) as (Hst & Hstop & Hout).
  destruct (step s0 b) as [s1 o]. cbn [fst snd] in Hst, Hstop, Hout. subst o.
  assert (H01 : same_counters self s1).
  { unfold same_counters in *. lia. }
  assert (Hnil : forall u, same_counters s1 u ->
                   advanced_by self u (take 0 (b :: bs))).
  { intros u Hu. cbn [take]. unfold same_counters, advanced_by in *.
    rewrite TrainerFacts.samples_of_nil. cbn [length]. lia. }
  destruct (outcome b) as [|e] eqn:Hb.
  - (* the step returns *)
    pose proof (TrainerFacts.advance_stop s1 b) as Hadv.
    destruct (_stop (advance s1 b)) eqn:Hs.
    + exists 1%nat. cbn [length take fst snd].
      split; [lia|]. split; [repeat constructor; exact Hb|].
      split.
      * apply (advanced_by_cons self s1 _ b []); [exact H01|].
        apply TrainerMoreFacts.advanced_by_nil.
      * split; [exact Hs|]. right. lia.
    + destruct (IH (advance s1 b)) as (k & Hk & Hret & Hadvd & Hexit).
      exists (S k). cbn [length take].
      split; [lia|]. split; [constructor; [exact Hb|exact Hret]|].
      split; [exact (advanced_by_cons self s1 _ b _ H01 Hadvd)|].
      destruct (snd (batches_loop (advance s1 b) bs)) as [| |e].
      * lia.
      * destruct Hexit as [Hx [[e He]|Hpos]]; (split; [exact Hx|]).
        -- left. exists e. apply raises_at_cons, He.
        -- right. lia.
      * apply raises_at_cons, Hexit.
  - (* the step raises *)
    assert (Hhead : raises_at (b :: bs) 0 e) by (apply raises_at_head, Hb).
    assert (Hrefl : same_counters s1 s1) by (repeat split).
    pose proof (TrainerFacts.stop_same s1 true) as Hstopped.
    destruct e; try destruct (_stop s1) eqn:Hs1;
      exists 0%nat; cbn [fst snd];
      (split; [cbn [length]; lia|]); (split; [constructor|]);
      (split; [apply Hnil; assumption|]);
      first [exact Hhead | split; [assumption || reflexivity|left; eauto]].
Qed.

(** The same loop when no callbacks are defined. *)
Lemma batches_loop_plain_steps bs : forall self,
  exists k : nat,
    (k <= length bs)%nat
    /\ Forall returned (take k bs)
    /\ advanced_by self (fst (batches_loop_plain self bs)) (take k bs)
    /\ match snd (batches_loop_plain self bs) with
       | exhausted => k = length bs
       | raised e => raises_at bs k e
       | broke => False
       end.
Proof.
  induction bs as [|b bs IH]; intros self.
  { exists 0%nat. cbn [batches_loop_plain fst snd length take].
    split; [lia|]. split; [constructor|].
    split; [apply TrainerMoreFacts.advanced_by_nil|reflexivity]. }
  cbn [batches_loop_plain].
  destruct (step_state self b) as (Hst & _ & Hout).
  destruct (step self b) as [s1 o]. cbn [fst snd] in Hst, Hout. subst o.
  destruct (outcome b) as [|e] eqn:Hb.
  - destruct (IH (advance s1 b)) as (k & Hk & Hret & Hadvd & Hexit).
    exists (S k). cbn [length take].
    split; [lia|]. split; [constructor; [exact Hb|exact Hret]|].
    split; [exact (advanced_by_cons self s1 _ b _ Hst Hadvd)|].
    destruct (snd (batches_loop_plain (advance s1 b) bs)) as [| |e].
    + lia.
    + exact Hexit.
    + apply raises_at_cons, Hexit.
  - exists 0%nat. cbn [fst snd length take].
    split; [lia|]. split; [constructor|]. split.
    + unfold same_counters, advanced_by in *.
      rewrite TrainerFacts.samples_of_nil. cbn [length]. lia.
    + apply raises_at_head, Hb.
Qed.

Lemma validated_same t :
  same_counters t (if val_loader t then validate t else t).
Proof.
  destruct (val_loader t); [apply TrainerFacts.validate_same|repeat split].
Qed.

Lemma ends_with_stop env k t : _stop t = true -> ends_in env k t (Ok tt).
Proof. intros H. split; [auto|]. intros x Hx. discriminate Hx. Qed.

Lemma ends_with_step_error env k t e :
  raises_at (batches env) k e -> ends_in env k t (Raise e).
Proof.
  intros H. split; [discriminate|]. intros x Hx. inversion Hx; subst. auto.
Qed.

Lemma ends_with_late_error env t e :
  after_batches env = Some e ->
  ends_in env (length (batches env)) t (Raise e).
Proof.
  intros H. split; [discriminate|]. intros x Hx. inversion Hx; subst. auto.
Qed.

(** One epoch of the loop of [run] when callbacks are defined. *)
Lemma epoch_with_callbacks world fuel g self self1 cur g' :
  epochs_next g self = (self1, Ok (Some cur), g') ->
  epoch_outcome (epochs_loop (S fuel) g self world)
    (fun s => epochs_loop fuel g' s world) self1 (world cur).
Proof.
  intros Hnext. cbn [epochs_loop]. rewrite Hnext.
  set (env := world cur).
  set (s0 := notify (stop_in_epoch_start env) self1).
  assert (Hs0 : same_counters self1 s0) by apply TrainerFacts.notify_same.
  destruct (batches_loop_steps (batches env) s0)
    as (k & Hk & Hret & Hadv & Hexit).
  destruct (batches_loop s0 (batches env)) as [t exit].
  cbn [fst snd] in Hadv, Hexit.
  pose proof (advanced_by_same _ _ _ _ Hs0 Hadv) as Hadv1.
  assert (Hend : forall r, ends_in env k t r ->
            epoch_outcome (Some (t, r))
              (fun s => epochs_loop fuel g' s world) self1 env).
  { intros r Hr. right. exists t, r, k. auto 10. }
  destruct exit as [| |e].
  - subst k. rewrite firstn_all in Hret, Hadv1.
    destruct (_stop t) eqn:Hstop.
    { apply Hend, ends_with_stop, Hstop. }
    set (s1 := if val_loader t then validate t else t).
    assert (Hs1 : same_counters t s1) by apply validated_same.
    set (s2 := notify (stop_in_epoch_end env) s1).
    assert (Hs2 : same_counters s1 s2) by apply TrainerFacts.notify_same.
    assert (Hadv2 : advanced_by self1 s2 (batches env)).
    { unfold same_counters, advanced_by in *. lia. }
    destruct (after_batches env) as [e|] eqn:Hafter.
    + assert (Hlate : epoch_outcome (Some (s2, Raise e))
                        (fun s => epochs_loop fuel g' s world) self1 env).
      { right. exists s2, (Raise e), (length (batches env)).
        rewrite firstn_all.
        auto 10 using ends_with_late_error. }
      destruct e; try exact Hlate.
      right. exists (stop s2 true), (Ok tt), (length (batches env)).
      rewrite firstn_all. split; [reflexivity|]. split; [lia|].
      split; [exact Hret|]. split.
      * eapply advanced_by_same_r; [exact Hadv2|].
        apply TrainerFacts.stop_same.
      * apply ends_with_stop. reflexivity.
    + left. exists s2. auto 10.
  - destruct Hexit as [Hstop _]. rewrite Hstop.
    apply Hend, ends_with_stop, Hstop.
  - apply Hend, ends_with_step_error, Hexit.
Qed.

(** One epoch of the loop of [run] when no callbacks are defined. *)
Lemma epoch_without_callbacks world fuel g self self1 cur g' :
  epochs_next g self = (self1, Ok (Some cur), g') ->
  epoch_outcome (epochs_loop_plain (S fuel) g self world)
    (fun s => epochs_loop_plain fuel g' s world) self1 (world cur).
Proof.
  intros Hnext. cbn [epochs_loop_plain]. rewrite Hnext.
  set (env := world cur).
  destruct (batches_loop_plain_steps (batches env) self1)
    as (k & Hk & Hret & Hadv & Hexit).
  destruct (batches_loop_plain self1 (batches env)) as [t exit].
  cbn [fst snd] in Hadv, Hexit.
  destruct exit as [| |e]; [|contradiction|].
  - subst k. rewrite firstn_all in Hret, Hadv.
    set (s1 := if val_loader t then validate t else t).
    assert (Hs1 : same_counters t s1) by apply validated_same.
    assert (Hadv1 : advanced_by self1 s1 (batches env)).
    { unfold same_counters, advanced_by in *. lia. }
    destruct (after_batches env) as [e|] eqn:Hafter.
    + right. exists s1, (Raise e), (length (batches env)).
      rewrite firstn_all. auto 10 using ends_with_late_error.
    + left. exists s1. auto 10.
  - right. exists t, (Raise e), k. auto 10 using ends_with_step_error.
Qed.

(** The loop over the epochs, for both loops of [run]. *)
Section EpochsLoop.
Variable world : Z -> epoch_env.
Variable loop : nat -> epochs_gen -> Trainer -> option (Trainer * result unit).
Hypothesis loop_end : forall fuel g self s g',
  epochs_next g self = (s, Ok None, g') ->
  loop (S fuel) g self = Some (s, Ok tt).
Hypothesis loop_epoch : forall fuel g self self1 cur g',
  epochs_next g self = (self1, Ok (Some cur), g') ->
  epoch_outcome (loop (S fuel) g self) (loop fuel g') self1 (world cur).

(** An epoch in which the run ends. *)
Lemma accounts_end cur m self self1 t r k :
  num_steps self1 = num_steps self -> num_samples self1 = num_samples self ->
  num_epochs self1 = cur ->
  (k <= length (batches (world cur)))%nat ->
  Forall returned (take k (batches (world cur))) ->
  advanced_by self1 t (take k (batches (world cur))) ->
  ends_in (world cur) k t r ->
  accounts world cur m self t r 0 k.
Proof.
  intros H1 H2 H3 Hk Hret (A1 & A2 & A3) [Hok Hraise].
  unfold accounts. cbn [batches_of app Z.of_nat]. rewrite Z.add_0_r.
  split; [lia|]. split; [exact Hret|].
  split; [lia|]. split; [lia|]. split; [lia|].
  split; [|exact Hraise].
  intros Hr Hs. rewrite (Hok Hr) in Hs. discriminate Hs.
Qed.

(** An epoch after which the loop goes on. *)
Lemma accounts_next cur m self self1 s t r j k :
  num_steps self1 = num_steps self -> num_samples self1 = num_samples self ->
  Forall returned (batches (world cur)) ->
  advanced_by self1 s (batches (world cur)) ->
  accounts world (cur + 1) m s t r j k ->
  accounts world cur (S m) self t r (S j) k.
Proof.
  intros H1 H2 Hret (A1 & A2 & A3) (Hj & Hdone & B1 & B2 & B3 & Hok & Hraise).
  unfold accounts in *. cbn [batches_of].
  replace (cur + Z.of_nat (S j)) with (cur + 1 + Z.of_nat j) by lia.
  rewrite <- app_assoc.
  split; [lia|]. split; [apply Forall_app; auto|].
  rewrite length_app, TrainerMoreFacts.samples_of_app.
  split; [lia|]. split; [lia|]. split; [lia|].
  split; [|exact Hraise].
  intros Hr Hs. destruct (Hok Hr Hs). split; [lia|assumption].
Qed.

Lemma loop_accounts e m : forall cur self fuel,
  0 <= cur -> e = cur + Z.of_nat m -> num_epochs self = cur - 1 ->
  (m < fuel)%nat ->
  exists t r j k,
    loop fuel (epochs_yielded (Utils.counter cur (Some e) 1)) self
    = Some (t, r)
    /\ accounts world cur m
         (set_num_epochs self (num_epochs self + 1)) t r j k.
Proof.
  induction m as [|m IH]; intros cur self fuel Hcur He Hself Hfuel;
    (destruct fuel as [|fuel]; [lia|]).
  - rewrite (loop_end fuel _ self _ _
               (TrainerMoreFacts.epochs_next_exhausted cur e self
                  ltac:(lia))).
    eexists _, _, 0%nat, 0%nat. split; [reflexivity|].
    unfold accounts.
    cbn [batches_of app firstn length Z.of_nat num_steps num_samples
         num_epochs set_num_epochs].
    rewrite !take_0, TrainerFacts.samples_of_nil. cbn [length].
    split; [lia|]. split; [constructor|]. split; [lia|]. split; [lia|].
    split; [lia|]. split; [auto|]. intros x Hx. discriminate Hx.
  - pose proof (TrainerMoreFacts.epochs_next_yielded cur e self Hcur
                  ltac:(lia)) as Hnext.
    set (self1 := set_num_epochs self (num_epochs self + 1)) in *.
    assert (H1 : num_epochs self1 = cur) by (subst self1; cbn; lia).
    destruct (loop_epoch fuel _ self _ _ _ Hnext)
      as [(s & Hs & Hadv & Hret)|(t & r & k & Ht & Hk & Hret & Hadv & Hend)].
    + pose proof Hadv as (_ & _ & A3).
      destruct (IH (cur + 1) s fuel ltac:(lia) ltac:(lia) ltac:(lia)
                  ltac:(lia)) as (t & r & j & k & Ht & Hacc).
      exists t, r, (S j), k. split; [rewrite Hs; exact Ht|].
      apply (accounts_next cur m self1 self1 s t r j k);
        [reflexivity|reflexivity|exact Hret|exact Hadv|].
      destruct Hacc as (Hj & Hdone & B1 & B2 & B3 & Hok & Hraise).
      unfold accounts. cbn [num_steps num_samples set_num_epochs] in *.
      auto 10.
    + exists t, r, 0%nat, k. split; [exact Ht|].
      apply (accounts_end cur (S m) self1 self1 t r k); auto.
Qed.

(** The loop of [run(epochs=n)], from the creation of the generator. *)
Lemma run_loop_accounts self n :
  0 <= num_epochs self -> 0 <= n ->
  exists t r j k,
    loop (S (Z.to_nat n)) (epochs self (Some n)) self = Some (t, r)
    /\ accounts world (num_epochs self) (Z.to_nat n) self t r j k.
Proof.
  intros Hne Hn. destruct (Z.eq_dec n 0) as [->|Hpos].
  - assert (Hnext : epochs_next (epochs self (Some 0)) self
                    = (self, Ok None, epochs_finished)).
    { cbn [epochs epochs_next]. unfold epochs_for.
      rewrite CounterFacts.counter_next_bounded.
      destruct (Z.eqb_spec (num_epochs self + 0) 0); [reflexivity|].
      destruct (Z.ltb_spec (num_epochs self) (num_epochs self + 0));
        [lia|reflexivity]. }
    rewrite (loop_end _ _ _ _ _ Hnext).
    eexists _, _, 0%nat, 0%nat. split; [reflexivity|].
    unfold accounts. cbn [batches_of app firstn length Z.of_nat Z.to_nat].
    rewrite !take_0, TrainerFacts.samples_of_nil. cbn [length].
    split; [lia|]. split; [constructor|]. split; [lia|]. split; [lia|].
    split; [lia|]. split; [auto|]. intros x Hx. discriminate Hx.
  - pose proof (TrainerMoreFacts.epochs_next_created self n Hne
                  ltac:(lia)) as Hnext.
    destruct (Z.to_nat n) as [|m] eqn:Hm; [lia|].
    destruct (loop_epoch (S m) _ self _ _ _ Hnext)
      as [(s & Hs & Hadv & Hret)|(t & r & k & Ht & Hk & Hret & Hadv & Hend)].
    + pose proof Hadv as (A1 & A2 & A3).
      destruct (loop_accounts (num_epochs self + n) m
                  (num_epochs self + 1) s (S m)
                  ltac:(lia) ltac:(lia) ltac:(lia) ltac:(lia))
        as (t & r & j & k & Ht & Hacc).
      exists t, r, (S j), k. split; [rewrite Hs; exact Ht|].
      apply (accounts_next _ m self self s t r j k);
        [reflexivity|reflexivity|exact Hret|exact Hadv|].
      destruct Hacc as (Hj & Hdone & B1 & B2 & B3 & Hok & Hraise).
      unfold accounts. cbn [num_steps num_samples set_num_epochs] in *.
      auto 10.
    + exists t, r, 0%nat, k. split; [exact Ht|].
      apply (accounts_end _ (S m) self self t r k); auto.
Qed.

End EpochsLoop.

(** [run(epochs=n)] accounts for every step it completes and every epoch it
    consumes. *)
Lemma run_accounts self n world :
  0 <= num_epochs self -> 0 <= n ->
  exists t r j k,
    run self (Some n) world = Some (t, r)
    /\ accounts world (num_epochs self) (Z.to_nat n) self t r j k.
Proof.
  intros Hne Hn. unfold run, run_fuel.
  set (self0 := stop self false).
  assert (H0 : num_epochs self0 = num_epochs self
               /\ num_steps self0 = num_steps self
               /\ num_samples self0 = num_samples self) by (cbn; auto).
  destruct H0 as (E0 & N0 & M0).
  assert (Hgen : forall loop,
            (forall fuel g s s' g',
               epochs_next g s = (s', Ok None, g') ->
               loop (S fuel) g s = Some (s', Ok tt)) ->
            (forall fuel g s self1 cur g',
               epochs_next g s = (self1, Ok (Some cur), g') ->
               epoch_outcome (loop (S fuel) g s) (loop fuel g') self1
                 (world cur)) ->
            exists t r j k,
              loop (S (Z.to_nat n)) (epochs self0 (Some n)) self0
              = Some (t, r)
              /\ accounts world (num_epochs self) (Z.to_nat n) self t r j k).
  { intros loop Hend Hepoch.
    destruct (run_loop_accounts world loop Hend Hepoch self0 n
                ltac:(lia) Hn) as (t & r & j & k & Ht & Hacc).
    exists t, r, j, k. split; [exact Ht|].
    unfold accounts in *. rewrite E0, N0, M0 in Hacc. exact Hacc. }
  destruct (callbacks self0).
  - apply (Hgen (fun fuel g s => epochs_loop fuel g s world)).
    + intros fuel g s s' g' Hnext. cbn [epochs_loop]. rewrite Hnext.
      reflexivity.
    + intros fuel g s self1 cur g'. apply epoch_with_callbacks.
  - apply (Hgen (fun fuel g s => epochs_loop_plain fuel g s world)).
    + intros fuel g s s' g' Hnext. cbn [epochs_loop_plain]. rewrite Hnext.
      reflexivity.
    + intros fuel g s self1 cur g'. apply epoch_without_callbacks.
Qed.

Lemma batches_loop_counts : counts_steps batches_loop.
Proof.
  intros self bs.
  destruct (batches_loop_steps bs self) as (k & Hk & Hret & Hadv & Hexit).
  exists k. repeat (split; [assumption|]).
  destruct (snd (batches_loop self bs)); try assumption.
  destruct Hexit as [_ H]. exact H.
Qed.

Lemma batches_loop_plain_counts : counts_steps batches_loop_plain.
Proof.
  intros self bs.
  destruct (batches_loop_plain_steps bs self)
    as (k & Hk & Hret & Hadv & Hexit).
  exists k. repeat (split; [assumption|]).
  destruct (snd (batches_loop_plain self bs)); try assumption.
  contradiction.
Qed.



End ProgressFacts.
